(** * PolitiSight India: report generation, history store and chat state

    A shallow embedding of the three pieces of logic of the application:

    - [services/geminiService.ts]: [getAiClient], [createChatSession] and
      [generatePoliticalReport] (response clean-up, [JSON.parse], grounding
      source extraction and de-duplication);
    - [App.tsx]: the history kept in [localStorage] ([saveToHistory],
      [deleteFromHistory] and the load done on mount);
    - [components/ChatBot.tsx]: the session effect with its greeting and
      [handleSend] with its streamed placeholder message.

    The JavaScript run time the code relies on is modelled first: strings
    ([replace], [trim], [join]), numbers, JSON values with [JSON.parse] and
    [JSON.stringify], object spread and property reads.

    Conventions.  A JavaScript string is a [string] holding the UTF-8 bytes of
    its text.  A JavaScript number is an IEEE 754 binary64 value: a finite
    one other than [-0] is held as the shortest decimal [mant * 10 ^ expo]
    that denotes it, which is what [Number::toString] writes; [-0] and the
    infinities are values of their own.  A decimal literal is rounded to the
    nearest value, ties to even.  The properties of an object are kept in
    creation order; the
    special place JavaScript gives to array-index keys when it enumerates an
    object is not represented. *)

From stdpp Require Import gmap strings.
From Stdlib Require Import ZArith String Ascii List Bool Lia.
Import ListNotations.
Open Scope string_scope.
Open Scope list_scope.
#[global] Arguments String.append !_ _ / : simpl nomatch.

(** ** Characters and strings *)

Module JsString.

Definition code (c : ascii) : N := N_of_ascii c.

(** The double quote character, U+0022. *)
Definition dquote : ascii := ascii_of_N 34.

Definition str1 (c : ascii) : string := String c "".

(** [s] between double quotes, as a string literal is written in JSON text
    when nothing in it needs an escape. *)
Definition quoted (s : string) : string := String dquote (s +:+ String dquote "").

Definition bytes (l : list N) : string :=
  string_of_list_ascii (map ascii_of_N l).

Definition string_rev (s : string) : string :=
  string_of_list_ascii (rev (list_ascii_of_string s)).

Fixpoint drop (n : nat) (s : string) : string :=
  match n, s with
  | S k, String _ r => drop k r
  | _, _ => s
  end.

(** [String.prototype.replace] with a global regular expression that is a
    plain literal [pat] (non-empty): every match, found left to right and
    never inside the text of an earlier match, is replaced by [by_]. *)
Fixpoint replace_from (pat by_ : string) (skip : nat) (s : string) : string :=
  match s with
  | "" => ""
  | String c r =>
      match skip with
      | S k => replace_from pat by_ k r
      | O =>
          if prefix pat s
          then by_ +:+ replace_from pat by_ (String.length pat - 1) r
          else String c (replace_from pat by_ 0 r)
      end
  end.

Definition replace_all (pat by_ s : string) : string :=
  replace_from pat by_ 0 s.

(** White space in the sense of [trim]: the ECMAScript WhiteSpace and
    LineTerminator code points, recognised on their UTF-8 bytes.  The three
    byte forms are U+1680, U+2000..U+200A, U+2028, U+2029, U+202F, U+205F,
    U+3000 and U+FEFF. *)
Definition ws1 (a : N) : bool :=
  ((a =? 9) || (a =? 10) || (a =? 11) || (a =? 12) || (a =? 13) || (a =? 32))%N.

Definition ws2 (a b : N) : bool := ((a =? 0xC2) && (b =? 0xA0))%N.

Definition ws3 (a b c : N) : bool :=
  (((a =? 0xE1) && (b =? 0x9A) && (c =? 0x80))
   || ((a =? 0xE2) && (b =? 0x80)
       && (((0x80 <=? c) && (c <=? 0x8A)) || (c =? 0xA8) || (c =? 0xA9) || (c =? 0xAF)))
   || ((a =? 0xE2) && (b =? 0x81) && (c =? 0x9F))
   || ((a =? 0xE3) && (b =? 0x80) && (c =? 0x80))
   || ((a =? 0xEF) && (b =? 0xBB) && (c =? 0xBF)))%N.

(** Number of bytes of the white-space character [s] starts with, 0 when it
    starts with none.  With [backwards] the bytes are met last one first, as
    when the string is read from its end. *)
Definition ws_len (backwards : bool) (s : string) : nat :=
  match s with
  | "" => 0
  | String a r =>
      if ws1 (code a) then 1
      else match r with
           | "" => 0
           | String b r2 =>
               if (if backwards then ws2 (code b) (code a) else ws2 (code a) (code b))
               then 2
               else match r2 with
                    | "" => 0
                    | String c _ =>
                        if (if backwards then ws3 (code c) (code b) (code a)
                            else ws3 (code a) (code b) (code c))
                        then 3 else 0
                    end
           end
  end%nat.

Fixpoint drop_ws (backwards : bool) (skip : nat) (s : string) : string :=
  match s with
  | "" => ""
  | String _ r =>
      match skip with
      | S k => drop_ws backwards k r
      | O => match ws_len backwards s with
             | O => s
             | S k => drop_ws backwards k r
             end
      end
  end.

Definition trimStart (s : string) : string := drop_ws false 0 s.
Definition trimEnd (s : string) : string :=
  string_rev (drop_ws true 0 (string_rev s)).

(** [String.prototype.trim]. *)
Definition trim (s : string) : string := trimEnd (trimStart s).

(** [Array.prototype.join] on an array of strings. *)
Definition join (sep : string) (l : list string) : string :=
  String.concat sep l.

(** UTF-8 bytes of the code point (or lone UTF-16 surrogate) [n]. *)
Definition utf8 (n : N) : string :=
  (if n <? 0x80 then bytes [n]
   else if n <? 0x800 then bytes [0xC0 + n / 64; 0x80 + n mod 64]
   else if n <? 0x10000
        then bytes [0xE0 + n / 4096; 0x80 + (n / 64) mod 64; 0x80 + n mod 64]
   else bytes [0xF0 + n / 262144; 0x80 + (n / 4096) mod 64;
               0x80 + (n / 64) mod 64; 0x80 + n mod 64])%N.

(** Length in bytes of the UTF-8 sequence that the lead byte [a] opens. *)
Definition utf8_len (a : N) : nat :=
  if (a <? 0xC0)%N then 1
  else if (a <? 0xE0)%N then 2
  else if (a <? 0xF0)%N then 3 else 4.

Fixpoint take (n : nat) (s : string) : string :=
  match n, s with
  | S k, String c r => String c (take k r)
  | _, _ => ""
  end.

(** The characters of a string, as the string iterator yields them: one
    string per code point. *)
Fixpoint chars_from (skip : nat) (s : string) : list string :=
  match s with
  | "" => []
  | String c r =>
      match skip with
      | S k => chars_from k r
      | O => let n := utf8_len (code c) in
             take n s :: chars_from (n - 1) r
      end
  end.

Definition code_points (s : string) : list string := chars_from 0 s.

(** The UTF-16 code units of a string, one string per unit: a code point
    above U+FFFF is two surrogates. *)
Definition units_of_char (c : string) : list string :=
  match c with
  | String b0 (String b1 (String b2 (String b3 ""))) =>
      let n := ((code b0 - 0xF0) * 262144 + (code b1 - 0x80) * 4096
                + (code b2 - 0x80) * 64 + (code b3 - 0x80) - 0x10000)%N in
      [utf8 (0xD800 + n / 0x400)%N; utf8 (0xDC00 + n mod 0x400)%N]
  | _ => [c]
  end.

Definition code_units (s : string) : list string :=
  flat_map units_of_char (code_points s).

End JsString.
Import JsString.

(** ** Numbers *)

Module JsNumber.

(** A finite number written in decimals, [mant * 10 ^ expo].  In normal
    form [mant] does not end in a zero digit, and zero is [Num 0 0]: equal
    numbers are then equal records.  A finite Number value other than [-0]
    is held as the decimal that [Number::toString] writes for it, the
    shortest that denotes it (see [to_number]). *)
Record number := Num { mant : Z; expo : Z }.

Definition is_digit (c : ascii) : bool :=
  ((48 <=? code c) && (code c <=? 57))%N.
Definition digit_val (c : ascii) : Z := Z.of_N (code c) - 48.
Definition digit_char (d : Z) : ascii := ascii_of_N (Z.to_N (48 + d)).

(** Decimal digits of [n >= 0], least significant first. *)
Fixpoint digits_le (fuel : nat) (n : Z) : list Z :=
  match fuel with
  | O => []
  | S f => if (n <? 10)%Z then [n] else (n mod 10)%Z :: digits_le f (n / 10)%Z
  end.

Definition Z_digits (n : Z) : string :=
  string_of_list_ascii
    (map digit_char (rev (digits_le (S (Z.to_nat (Z.log2 n))) n))).

(** [Number.prototype.toString] on an integer, as in [Date.now().toString()]. *)
Definition Z_to_string (z : Z) : string :=
  if (z <? 0)%Z then "-" +:+ Z_digits (- z) else Z_digits z.

Fixpoint digits_value_from (acc : Z) (s : string) : Z :=
  match s with
  | "" => acc
  | String c r => digits_value_from (10 * acc + digit_val c) r
  end.
Definition digits_value (s : string) : Z := digits_value_from 0 s.

(** The longest prefix of decimal digits, and what follows it. *)
Fixpoint lex_digits (s : string) : string * string :=
  match s with
  | "" => ("", "")
  | String c r =>
      if is_digit c
      then let (ds, rest) := lex_digits r in (String c ds, rest)
      else ("", s)
  end.

Fixpoint strip10 (fuel : nat) (m e : Z) : number :=
  match fuel with
  | O => Num m e
  | S f => if (m mod 10 =? 0)%Z then strip10 f (m / 10)%Z (e + 1)%Z else Num m e
  end.

Definition normalize (m e : Z) : number :=
  if (m =? 0)%Z then Num 0 0
  else strip10 (Z.to_nat (Z.log2 (Z.abs m))) m e.

Definition number_of_Z (z : Z) : number := normalize z 0.

(** *** Number values: IEEE 754 binary64 *)

#[local] Open Scope Z_scope.

(** The ratio [n / d] divided by [b ^ k], as a numerator and a denominator,
    for either sign of [k]. *)
Definition scaled (b n d k : Z) : Z * Z :=
  if 0 <=? k then (n, d * b ^ k) else (n * b ^ (- k), d).

(** The binary64 value nearest to [n / d], for [0 < n] and [0 < d], ties to
    even: [Some (m, e)] is [m * 2 ^ e] with [m < 2 ^ 53] and
    [-1074 <= e <= 971], where [m < 2 ^ 52] only for [e = -1074]; [None] is
    an overflow. *)
Definition round_ratio (n d : Z) : option (Z * Z) :=
  let k := Z.log2 n - Z.log2 d in
  let '(n1, d1) := scaled 2 n d k in
  let l := if d1 <=? n1 then k else k - 1 in
  let e := Z.max (-1074) (l - 52) in
  let '(num, den) := scaled 2 n d e in
  let q := num / den in
  let r := num mod den in
  let q := if 2 * r <? den then q
           else if den <? 2 * r then q + 1
           else if Z.even q then q else q + 1 in
  let '(m, e) := if q =? 2 ^ 53 then (2 ^ 52, e + 1) else (q, e) in
  if 971 <? e then None else Some (m, e).

(** The binary64 value nearest to [a * 10 ^ e], for [0 < a]. *)
Definition round_decimal (a e : Z) : option (Z * Z) :=
  let '(n, d) := scaled 10 a 1 (- e) in round_ratio n d.

(** The exponent [p] with [10 ^ p <= n / d < 10 ^ (p + 1)], from an
    estimate that is off by one at most. *)
Fixpoint adjust10 (fuel : nat) (n d p : Z) : Z :=
  match fuel with
  | O => p
  | S f =>
      let '(n1, d1) := scaled 10 n d p in
      if n1 <? d1 then adjust10 f n d (p - 1)
      else if 10 * d1 <=? n1 then adjust10 f n d (p + 1)
      else p
  end.

Definition magnitude10 (n d : Z) : Z :=
  adjust10 4 n d (((Z.log2 n - Z.log2 d) * 30103) / 100000).

(** A decimal of [k] digits that denotes the binary64 value [m * 2 ^ e]:
    one of the two that enclose it, the nearer one when both round to it,
    the even one when they are as near. *)
Definition candidate (m e k : Z) : option number :=
  let '(n, d) := scaled 2 m 1 (- e) in
  let t := magnitude10 n d + 1 - k in
  let '(num, den) := scaled 10 n d t in
  let lo := num / den in
  let r := num mod den in
  let denotes s := match round_decimal s t with
                   | Some (m', e') => (m' =? m) && (e' =? e)
                   | None => false
                   end in
  match denotes lo, denotes (lo + 1) with
  | true, true =>
      Some (normalize (if 2 * r <? den then lo
                       else if den <? 2 * r then lo + 1
                       else if Z.even lo then lo else lo + 1) t)
  | true, false => Some (normalize lo t)
  | false, true => Some (normalize (lo + 1) t)
  | false, false => None
  end.

Fixpoint shortest_from (fuel : nat) (m e k : Z) : option number :=
  match fuel with
  | O => None
  | S f => match candidate m e k with
           | Some x => Some x
           | None => shortest_from f m e (k + 1)
           end
  end.

(** The digits of [Number::toString]: the decimal with the fewest digits
    that denotes [m * 2 ^ e].  Seventeen digits are enough for any binary64
    value. *)
Definition shortest (m e : Z) : option number := shortest_from 17 m e 1.

(** The Number values that no [number] holds. *)
Inductive special := NegZero | PosInfinity | NegInfinity.

(** The Number value of the decimal [x], written with a minus sign when
    [negative]: the nearest binary64 value, which is an infinity beyond the
    largest, and a zero, with the sign written, below half the smallest.
    (Should no decimal of seventeen digits denote the value, [x] itself is
    kept.) *)
Definition to_number (negative : bool) (x : number) : number + special :=
  let x := normalize (mant x) (expo x) in
  if mant x =? 0 then (if negative then inr NegZero else inl (Num 0 0))
  else
    match round_decimal (Z.abs (mant x)) (expo x) with
    | None => inr (if negative then NegInfinity else PosInfinity)
    | Some (m, e) =>
        if m =? 0 then (if negative then inr NegZero else inl (Num 0 0))
        else match shortest m e with
             | Some s => inl (Num (if negative then - mant s else mant s)
                                  (expo s))
             | None => inl x
             end
    end.

#[local] Close Scope Z_scope.

Fixpoint zeros (n : nat) : string :=
  match n with O => "" | S k => String "0" (zeros k) end.

(** [Number::toString] in radix 10: with [k] significant digits and the
    decimal point after digit [n], plain digits when [k <= n <= 21], a
    fraction when [0 < n <= 21], [0.000ddd] when [-6 < n <= 0] and the
    exponent form otherwise. *)
Definition number_to_string (x : number) : string :=
  let x := normalize (mant x) (expo x) in
  let m := mant x in
  if (m =? 0)%Z then "0"
  else
    let ds := Z_digits (Z.abs m) in
    let k := Z.of_nat (String.length ds) in
    let n := (k + expo x)%Z in
    (if (m <? 0)%Z then "-" else "") +:+
    (if ((k <=? n) && (n <=? 21))%Z then ds +:+ zeros (Z.to_nat (n - k))
     else if ((0 <? n) && (n <=? 21))%Z
          then take (Z.to_nat n) ds +:+ "." +:+ drop (Z.to_nat n) ds
     else if ((-6 <? n) && (n <=? 0))%Z
          then "0." +:+ zeros (Z.to_nat (- n)) +:+ ds
     else
       let e := (n - 1)%Z in
       let es := (if (e <? 0)%Z then "-" else "+") +:+ Z_digits (Z.abs e) in
       match ds with
       | "" => ""
       | String d "" => str1 d +:+ "e" +:+ es
       | String d r => str1 d +:+ "." +:+ r +:+ "e" +:+ es
       end).

(** [Number::toString] on the other Number values. *)
Definition special_to_string (x : special) : string :=
  match x with
  | NegZero => "0"
  | PosInfinity => "Infinity"
  | NegInfinity => "-Infinity"
  end.

(** A JSON number at the head of [s]: an optional minus sign, an integer
    part without superfluous leading zero, an optional fraction (a dot and
    digits), an optional exponent ([e] or [E], an optional sign, digits).
    [parse_number] gives the decimal that is written; [to_number] turns it
    into a Number value. *)
Definition lex_minus (s : string) : bool * string :=
  match s with
  | String c r => if (c =? "-")%char then (true, r) else (false, s)
  | "" => (false, s)
  end.

Definition int_part_ok (ip : string) : bool :=
  match ip with
  | "" => false
  | String d r => negb ((d =? "0")%char && negb (String.eqb r ""))
  end.

Definition lex_fraction (s : string) : option (string * string) :=
  match s with
  | String c r =>
      if (c =? ".")%char
      then let (fp, rest) := lex_digits r in
           match fp with
           | "" => None
           | _ => Some (fp, rest)
           end
      else Some ("", s)
  | "" => Some ("", s)
  end.

Definition lex_exp_sign (s : string) : bool * string :=
  match s with
  | String c r =>
      if (c =? "-")%char then (true, r)
      else if (c =? "+")%char then (false, r)
      else (false, s)
  | "" => (false, s)
  end.

Definition lex_exponent (s : string) : option (Z * string) :=
  match s with
  | String c r =>
      if (c =? "e")%char || (c =? "E")%char
      then let (eneg, r') := lex_exp_sign r in
           let (ep, rest) := lex_digits r' in
           match ep with
           | "" => None
           | _ => Some ((if eneg then - digits_value ep else digits_value ep)%Z,
                        rest)
           end
      else Some (0%Z, s)
  | "" => Some (0%Z, s)
  end.

Definition parse_number (s : string) : option (number * string) :=
  let (neg, s1) := lex_minus s in
  let (ip, s2) := lex_digits s1 in
  if int_part_ok ip then
    match lex_fraction s2 with
    | None => None
    | Some (fp, s3) =>
        match lex_exponent s3 with
        | None => None
        | Some (e, s4) =>
            let m := digits_value (ip +:+ fp) in
            Some (normalize (if neg then - m else m)%Z
                            (e - Z.of_nat (String.length fp))%Z, s4)
        end
    end
  else None.

(** Predicates used to state what the lexer does. *)

(** Every character of [s] is a decimal digit. *)
Definition all_digits (s : string) : Prop :=
  Forall (fun c => is_digit c = true) (list_ascii_of_string s).

(** [s] does not go on with a digit. *)
Definition no_digit_head (s : string) : Prop :=
  match s with "" => True | String c _ => is_digit c = false end.

(** [s] cannot continue a number: it is empty or starts with a character
    that is no digit, dot or exponent mark. *)
Definition terminated (rest : string) : Prop :=
  match rest with
  | "" => True
  | String c _ =>
      is_digit c = false /\ (c =? ".")%char = false
      /\ (c =? "e")%char = false /\ (c =? "E")%char = false
  end.

(** A character a number may start with. *)
Definition number_head (c : ascii) : Prop := c = "-"%char \/ is_digit c = true.

(** The value of decimal digits given least significant first, and the text
    of such digits. *)
Fixpoint value_le (l : list Z) : Z :=
  match l with
  | [] => 0
  | d :: r => d + 10 * value_le r
  end%Z.

Definition be_string (l : list Z) : string :=
  string_of_list_ascii (map digit_char (rev l)).

End JsNumber.
Import JsNumber.

(** ** A [Map] keyed by strings

    Entries are kept in insertion order; [Map_set] on a key already present
    replaces the value where the entry stands. *)

Module JsMap.
Section Map.
Context {V : Type}.

Fixpoint Map_set (k : string) (v : V) (m : list (string * V))
  : list (string * V) :=
  match m with
  | [] => [(k, v)]
  | (k', v') :: r =>
      if String.eqb k k' then (k, v) :: r else (k', v') :: Map_set k v r
  end.

(** [m.get(k)] *)
Fixpoint Map_get (k : string) (m : list (string * V)) : option V :=
  match m with
  | [] => None
  | (k', v) :: r => if String.eqb k k' then Some v else Map_get k r
  end.

(** [new Map(entries)] *)
Definition Map_of (entries : list (string * V)) : list (string * V) :=
  fold_left (fun m kv => Map_set (fst kv) (snd kv) m) entries [].

(** [Array.from(m.values())] *)
Definition Map_values (m : list (string * V)) : list V := map snd m.
End Map.
End JsMap.
Import JsMap.

(** ** JSON values, [JSON.stringify] and [JSON.parse] *)

Module Json.

(** The JavaScript values that JSON text denotes.  A report, as the
    application holds it at run time, is such a value: TypeScript's [as]
    casts check nothing.  [JNum] is a finite number other than [-0];
    [JSpecial] is [-0] or an infinity, which [JSON.parse] returns for [-0]
    and for a literal beyond the range of binary64. *)
Unset Elimination Schemes.
Inductive json :=
| JNull
| JBool (b : bool)
| JNum (n : number)
| JSpecial (x : special)
| JStr (s : string)
| JArr (l : list json)
| JObj (fields : list (string * json)).
Set Elimination Schemes.

(** Induction on a JSON value, with the hypothesis available for every
    element of an array and every property value of an object. *)
Definition json_ind (P : json -> Prop)
  (HNull : P JNull)
  (HBool : forall b, P (JBool b))
  (HNum : forall n, P (JNum n))
  (HSpecial : forall x, P (JSpecial x))
  (HStr : forall s, P (JStr s))
  (HArr : forall l, Forall P l -> P (JArr l))
  (HObj : forall fs, Forall (fun kv => P (snd kv)) fs -> P (JObj fs))
  : forall v, P v :=
  fix go (v : json) : P v :=
    match v with
    | JNull => HNull
    | JBool b => HBool b
    | JNum n => HNum n
    | JSpecial x => HSpecial x
    | JStr s => HStr s
    | JArr l =>
        HArr l ((fix all (l : list json) : Forall P l :=
                   match l with
                   | [] => @Forall_nil _ P
                   | x :: r => @Forall_cons _ P x r (go x) (all r)
                   end) l)
    | JObj fs =>
        HObj fs ((fix all (fs : list (string * json))
                    : Forall (fun kv => P (snd kv)) fs :=
                    match fs with
                    | [] => @Forall_nil _ _
                    | kv :: r => @Forall_cons _ _ kv r (go (snd kv)) (all r)
                    end) fs)
    end.

(** Defining property [k] on an object: the value is replaced in place when
    the property exists, the property is added last otherwise, as for a
    [Map]. *)
Definition obj_set (k : string) (v : json) (fs : list (string * json))
  : list (string * json) := Map_set k v fs.

(** The object obtained by defining the given properties one after the
    other on an empty object. *)
Definition obj_of_members (ms : list (string * json)) : list (string * json) :=
  Map_of ms.

(** The own property [k] of an object, if any. *)
Definition obj_get (k : string) (fs : list (string * json)) : option json :=
  Map_get k fs.

(** *** Printing *)

Definition hex_digit (n : N) : ascii :=
  if (n <? 10)%N then ascii_of_N (48 + n) else ascii_of_N (87 + n).

(** QuoteJSONString on one character. *)
Definition escape_char (c : ascii) : string :=
  let n := code c in
  if (n =? 34)%N then String "\" (str1 dquote)
  else if (n =? 92)%N then "\\"
  else if (n =? 8)%N then "\b"
  else if (n =? 9)%N then "\t"
  else if (n =? 10)%N then "\n"
  else if (n =? 12)%N then "\f"
  else if (n =? 13)%N then "\r"
  else if (n <? 32)%N
       then "\u00" +:+ str1 (hex_digit (n / 16)) +:+ str1 (hex_digit (n mod 16))
  else str1 c.

Fixpoint escape (s : string) : string :=
  match s with
  | "" => ""
  | String c r => escape_char c +:+ escape r
  end.

Definition quote (s : string) : string :=
  String dquote (escape s +:+ str1 dquote).

(** [JSON.stringify] without indentation.  A number that is not finite
    is written [null], and [-0] is written [0]. *)
Fixpoint JSON_stringify (v : json) : string :=
  match v with
  | JNull => "null"
  | JBool true => "true"
  | JBool false => "false"
  | JNum n => number_to_string n
  | JSpecial NegZero => "0"
  | JSpecial _ => "null"
  | JStr s => quote s
  | JArr l => "[" +:+ join "," (map JSON_stringify l) +:+ "]"
  | JObj fs =>
      "{" +:+ join "," (map (fun kv => quote (fst kv) +:+ ":" +:+ JSON_stringify (snd kv)) fs)
      +:+ "}"
  end.

(** *** Parsing *)

Definition hex_val (c : ascii) : option N :=
  let n := code c in
  if ((48 <=? n) && (n <=? 57))%N then Some (n - 48)%N
  else if ((97 <=? n) && (n <=? 102))%N then Some (n - 87)%N
  else if ((65 <=? n) && (n <=? 70))%N then Some (n - 55)%N
  else None.

Definition hex4 (a b c d : ascii) : option N :=
  match hex_val a, hex_val b, hex_val c, hex_val d with
  | Some x, Some y, Some z, Some w => Some (((x * 16 + y) * 16 + z) * 16 + w)%N
  | _, _, _, _ => None
  end.

Definition is_high_surrogate (n : N) : bool := ((0xD800 <=? n) && (n <=? 0xDBFF))%N.
Definition is_low_surrogate (n : N) : bool := ((0xDC00 <=? n) && (n <=? 0xDFFF))%N.
Definition surrogate_pair (hi lo : N) : N :=
  (0x10000 + (hi - 0xD800) * 0x400 + (lo - 0xDC00))%N.

(** The character a one-letter escape stands for. *)
Definition simple_escape (e : ascii) : option ascii :=
  let n := code e in
  if (n =? 34)%N then Some dquote
  else if (n =? 92)%N then Some "\"%char
  else if (n =? 47)%N then Some "/"%char
  else if (n =? 98)%N then Some (ascii_of_N 8)
  else if (n =? 102)%N then Some (ascii_of_N 12)
  else if (n =? 110)%N then Some (ascii_of_N 10)
  else if (n =? 114)%N then Some (ascii_of_N 13)
  else if (n =? 116)%N then Some (ascii_of_N 9)
  else None.

Definition prepend (p : string) (r : option (string * string))
  : option (string * string) :=
  match r with
  | Some (s, rest) => Some (p +:+ s, rest)
  | None => None
  end.

(** The rest of a string literal, after its opening quote: the text it
    denotes and what follows the closing quote.  An escaped high surrogate
    directly followed by an escaped low surrogate is one code point. *)
Fixpoint parse_string_body (s : string) : option (string * string) :=
  match s with
  | "" => None
  | String c r =>
      if (code c =? 34)%N then Some ("", r)
      else if (code c =? 92)%N then
        match r with
        | "" => None
        | String e r1 =>
            match simple_escape e with
            | Some b => prepend (str1 b) (parse_string_body r1)
            | None =>
                if (e =? "u")%char then
                  match r1 with
                  | String h1 (String h2 (String h3 (String h4 r2))) =>
                      match hex4 h1 h2 h3 h4 with
                      | None => None
                      | Some cu =>
                          if is_high_surrogate cu then
                            match r2 with
                            | String b1 (String b2 (String l1 (String l2
                                (String l3 (String l4 r3))))) =>
                                match hex4 l1 l2 l3 l4 with
                                | Some lo =>
                                    if is_low_surrogate lo
                                       && (b1 =? "\")%char && (b2 =? "u")%char
                                    then prepend (utf8 (surrogate_pair cu lo))
                                                 (parse_string_body r3)
                                    else prepend (utf8 cu) (parse_string_body r2)
                                | None => prepend (utf8 cu) (parse_string_body r2)
                                end
                            | _ => prepend (utf8 cu) (parse_string_body r2)
                            end
                          else prepend (utf8 cu) (parse_string_body r2)
                      end
                  | _ => None
                  end
                else None
            end
        end
      else if (code c <? 32)%N then None
      else prepend (str1 c) (parse_string_body r)
  end.

(** A Number value as a JSON value. *)
Definition json_of_number (x : number + special) : json :=
  match x with
  | inl n => JNum n
  | inr x => JSpecial x
  end.

(** JSON white space: space, tab, line feed, carriage return. *)
Definition is_json_ws (c : ascii) : bool :=
  let n := code c in ((n =? 32) || (n =? 9) || (n =? 10) || (n =? 13))%N.

Fixpoint skip_ws (s : string) : string :=
  match s with
  | "" => ""
  | String c r => if is_json_ws c then skip_ws r else s
  end.

Fixpoint parse_value (fuel : nat) (s : string) : option (json * string) :=
  match fuel with
  | O => None
  | S f =>
      match s with
      | "" => None
      | String c r =>
          if (c =? "{")%char then
            match skip_ws r with
            | "" => None
            | String c' r' =>
                if (c' =? "}")%char then Some (JObj [], r')
                else match parse_members f (String c' r') with
                     | Some (ms, rest) => Some (JObj (obj_of_members ms), rest)
                     | None => None
                     end
            end
          else if (c =? "[")%char then
            match skip_ws r with
            | "" => None
            | String c' r' =>
                if (c' =? "]")%char then Some (JArr [], r')
                else match parse_elements f (String c' r') with
                     | Some (vs, rest) => Some (JArr vs, rest)
                     | None => None
                     end
            end
          else if (code c =? 34)%N then
            match parse_string_body r with
            | Some (str, rest) => Some (JStr str, rest)
            | None => None
            end
          else if prefix "true" s then Some (JBool true, drop 4 s)
          else if prefix "false" s then Some (JBool false, drop 5 s)
          else if prefix "null" s then Some (JNull, drop 4 s)
          else match parse_number s with
               | Some (n, rest) =>
                   Some (json_of_number (to_number (c =? "-")%char n), rest)
               | None => None
               end
      end
  end

(** One or more values separated by commas, up to the closing bracket. *)
with parse_elements (fuel : nat) (s : string) : option (list json * string) :=
  match fuel with
  | O => None
  | S f =>
      match parse_value f s with
      | None => None
      | Some (v, r) =>
          match skip_ws r with
          | "" => None
          | String c r' =>
              if (c =? "]")%char then Some ([v], r')
              else if (c =? ",")%char then
                match parse_elements f (skip_ws r') with
                | Some (vs, rest) => Some (v :: vs, rest)
                | None => None
                end
              else None
          end
      end
  end

(** One or more [key : value] members separated by commas, up to the closing
    brace. *)
with parse_members (fuel : nat) (s : string)
  : option (list (string * json) * string) :=
  match fuel with
  | O => None
  | S f =>
      match s with
      | "" => None
      | String q r0 =>
          if (code q =? 34)%N then
            match parse_string_body r0 with
            | None => None
            | Some (k, r1) =>
                match skip_ws r1 with
                | "" => None
                | String c r2 =>
                    if (c =? ":")%char then
                      match parse_value f (skip_ws r2) with
                      | None => None
                      | Some (v, r3) =>
                          match skip_ws r3 with
                          | "" => None
                          | String c' r4 =>
                              if (c' =? "}")%char then Some ([(k, v)], r4)
                              else if (c' =? ",")%char then
                                match parse_members f (skip_ws r4) with
                                | Some (ms, rest) => Some ((k, v) :: ms, rest)
                                | None => None
                                end
                              else None
                          end
                      end
                    else None
                end
            end
          else None
      end
  end.

(** [JSON.parse]: [None] stands for the SyntaxError it throws.  The fuel
    bounds the depth of the recursion; it is never what makes a parse fail
    (see [JSON_parse_fuel]). *)
Definition JSON_parse (s : string) : option json :=
  match parse_value (2 * String.length s + 2) (skip_ws s) with
  | Some (v, rest) =>
      match skip_ws rest with
      | "" => Some v
      | _ => None
      end
  | None => None
  end.

(** Values without a repeated property name in any object and with numbers
    in normal form: what [JSON.parse] and the code of the application build. *)
Definition number_ok (x : number) : Prop :=
  (mant x = 0%Z -> expo x = 0%Z) /\ (mant x <> 0%Z -> (mant x mod 10 <> 0)%Z).

Fixpoint well_formed (v : json) : Prop :=
  match v with
  | JNull | JBool _ | JSpecial _ | JStr _ => True
  | JNum n => number_ok n
  | JArr l => fold_right (fun x acc => well_formed x /\ acc) True l
  | JObj fs =>
      NoDup (map fst fs)
      /\ fold_right (fun kv acc => well_formed (snd kv) /\ acc) True fs
  end.

(** [well_formed], as a test. *)
Definition number_okb (x : number) : bool :=
  if (mant x =? 0)%Z then (expo x =? 0)%Z else negb (mant x mod 10 =? 0)%Z.

Fixpoint distinctb (l : list string) : bool :=
  match l with
  | [] => true
  | x :: r => negb (existsb (String.eqb x) r) && distinctb r
  end.

Fixpoint well_formedb (v : json) : bool :=
  match v with
  | JNull | JBool _ | JSpecial _ | JStr _ => true
  | JNum n => number_okb n
  | JArr l => forallb well_formedb l
  | JObj fs => distinctb (map fst fs) && forallb (fun kv => well_formedb (snd kv)) fs
  end.

(** A character a printed value may start with: no white space and no
    closing bracket or brace. *)
Definition value_head (c : ascii) : Prop :=
  is_json_ws c = false /\ (c =? "]")%char = false /\ (c =? "}")%char = false.

(** The text of one property of an object. *)
Definition member_string (kv : string * json) : string :=
  quote (fst kv) +:+ ":" +:+ JSON_stringify (snd kv).

(** What [JSON.parse] returns for the text that [JSON.stringify] writes for
    [v]: [v] with, in place of every number, the Number value of what is
    written for it.  So an infinity comes back as [null] and [-0] as [0]. *)
Fixpoint as_stored (v : json) : json :=
  match v with
  | JNull | JBool _ | JStr _ => v
  | JNum n => json_of_number (to_number (mant n <? 0)%Z n)
  | JSpecial NegZero => JNum (Num 0 0)
  | JSpecial _ => JNull
  | JArr l => JArr (map as_stored l)
  | JObj fs => JObj (map (fun kv => (fst kv, as_stored (snd kv))) fs)
  end.

(** [v] is stored without loss: its numbers are finite Number values other
    than [-0]. *)
Definition storable (v : json) : Prop := as_stored v = v.

(** [storable], as a test. *)
Fixpoint storableb (v : json) : bool :=
  match v with
  | JNull | JBool _ | JStr _ => true
  | JNum n =>
      match to_number (mant n <? 0)%Z n with
      | inl n' => (mant n' =? mant n)%Z && (expo n' =? expo n)%Z
      | inr _ => false
      end
  | JSpecial _ => false
  | JArr l => forallb storableb l
  | JObj fs => forallb (fun kv => storableb (snd kv)) fs
  end.

(** [v], printed and followed by [rest], is read back as [as_stored v],
    leaving [rest], with any fuel of at least twice the length of its
    text. *)
Definition parses_back (v : json) : Prop :=
  forall f rest,
    terminated rest -> 2 * String.length (JSON_stringify v) <= f ->
    parse_value f (JSON_stringify v +:+ rest) = Some (as_stored v, rest).

End Json.
Import Json.

(** A JavaScript exception: [Throw m] is a thrown [Error] with message [m]. *)
Inductive result (A : Type) :=
| Ok (a : A)
| Throw (message : string).
Arguments Ok {A} a.
Arguments Throw {A} message.

(** Sequencing: the first exception thrown ends the computation. *)
#[global] Instance result_bind : MBind result :=
  fun A B f r => match r with Ok a => f a | Throw m => Throw m end.
#[global] Instance result_ret : MRet result := fun A a => Ok a.

(** A string is truthy when it is not empty. *)
Definition nonempty (s : string) : bool := negb (String.eqb s "").

(** ** types.ts *)

Module Types.

Inductive SectionType := TEXT | BAR_CHART | PIE_CHART | LINE_CHART | TABLE.
Inductive Icon := trend_up | trend_down | alert | info.

Record ChartDataPoint := {
  cdp_name : string;
  cdp_value : number;
  cdp_label : option string;
  cdp_fill : option string
}.

Record ChartConfig := {
  xLabel : option string;
  yLabel : option string;
  cc_title : option string
}.

Record ReportSection := {
  sec_id : string;
  sec_title : string;
  sec_type : SectionType;
  sec_content : string;
  chartData : option (list ChartDataPoint);
  chartConfig : option ChartConfig
}.

Record GroundingSource := {
  gs_title : string;
  gs_uri : string
}.

Record KeyInsight := {
  ki_icon : Icon;
  ki_text : string;
  ki_value : option string;
  ki_color : option string
}.

Record Report := {
  rep_id : string;
  createdAt : Z;
  rep_title : string;
  rep_date : string;
  executiveSummary : string;
  keyInsights : list KeyInsight;
  sections : list ReportSection;
  rep_sources : option (list GroundingSource)
}.

Inductive Role := user | model.

Record ChatMessage := {
  msg_id : string;
  msg_role : Role;
  msg_text : string;
  msg_timestamp : Z
}.

(** The run-time value of each type. *)

Definition SectionType_name (t : SectionType) : string :=
  match t with
  | TEXT => "TEXT" | BAR_CHART => "BAR_CHART" | PIE_CHART => "PIE_CHART"
  | LINE_CHART => "LINE_CHART" | TABLE => "TABLE"
  end.

Definition Icon_name (i : Icon) : string :=
  match i with
  | trend_up => "trend-up" | trend_down => "trend-down"
  | alert => "alert" | info => "info"
  end.

(** An optional property: absent when the field is [None]. *)
Definition opt_field {A} (k : string) (f : A -> json) (o : option A)
  : list (string * json) :=
  match o with
  | Some a => [(k, f a)]
  | None => []
  end.

Definition GroundingSource_js (g : GroundingSource) : json :=
  JObj [("title", JStr (gs_title g)); ("uri", JStr (gs_uri g))].

Definition ChartDataPoint_js (d : ChartDataPoint) : json :=
  JObj ([("name", JStr (cdp_name d)); ("value", JNum (cdp_value d))]
        ++ opt_field "label" JStr (cdp_label d)
        ++ opt_field "fill" JStr (cdp_fill d)).

Definition ChartConfig_js (c : ChartConfig) : json :=
  JObj (opt_field "xLabel" JStr (xLabel c)
        ++ opt_field "yLabel" JStr (yLabel c)
        ++ opt_field "title" JStr (cc_title c)).

Definition ReportSection_js (x : ReportSection) : json :=
  JObj ([("id", JStr (sec_id x)); ("title", JStr (sec_title x));
         ("type", JStr (SectionType_name (sec_type x)));
         ("content", JStr (sec_content x))]
        ++ opt_field "chartData" (fun l => JArr (map ChartDataPoint_js l)) (chartData x)
        ++ opt_field "chartConfig" ChartConfig_js (chartConfig x)).

Definition KeyInsight_js (k : KeyInsight) : json :=
  JObj ([("icon", JStr (Icon_name (ki_icon k))); ("text", JStr (ki_text k))]
        ++ opt_field "value" JStr (ki_value k)
        ++ opt_field "color" JStr (ki_color k)).

Definition Report_js (r : Report) : json :=
  JObj ([("title", JStr (rep_title r)); ("date", JStr (rep_date r));
         ("executiveSummary", JStr (executiveSummary r));
         ("keyInsights", JArr (map KeyInsight_js (keyInsights r)));
         ("sections", JArr (map ReportSection_js (sections r)));
         ("id", JStr (rep_id r));
         ("createdAt", JNum (number_of_Z (createdAt r)))]
        ++ opt_field "sources" (fun l => JArr (map GroundingSource_js l)) (rep_sources r)).

End Types.
Import Types.

(** ** Object spread and property reads *)

Module JsObject.

Fixpoint indexed_from {A} (i : nat) (l : list A) : list (string * A) :=
  match l with
  | [] => []
  | x :: r => (Z_to_string (Z.of_nat i), x) :: indexed_from (S i) r
  end.

(** The own enumerable properties of a value, as [{...v}] copies them: the
    properties of an object, the elements of an array and the code units of
    a string under their indices, nothing for the other values. *)
Definition own_entries (v : json) : list (string * json) :=
  match v with
  | JObj fs => fs
  | JArr l => indexed_from 0 l
  | JStr s => indexed_from 0 (map JStr (code_units s))
  | JNull | JBool _ | JNum _ | JSpecial _ => []
  end.

(** [{...v}] *)
Definition spread (v : json) : list (string * json) :=
  obj_of_members (own_entries v).

(** [v.k] for a name [k] that no prototype defines and that is no index:
    the own property of an object, [undefined] ([None]) otherwise.  Reading
    a property of [null] throws; that case is the caller's. *)
Definition prop (k : string) (v : json) : option json :=
  match v with
  | JObj fs => obj_get k fs
  | _ => None
  end.

(** [[...v]]: the elements of an array, the characters of a string; the
    other values are not iterable. *)
Definition iterate (v : json) : result (list json) :=
  match v with
  | JArr l => Ok l
  | JStr s => Ok (map JStr (code_points s))
  | _ => Throw "TypeError: value is not iterable"
  end.

End JsObject.
Import JsObject.

(** ** services/geminiService.ts *)

Module GeminiService.

(** What the SDK returns: the text of the answer and, under
    [candidates[0].groundingMetadata.groundingChunks], the web pages the
    answer was grounded on.  Every level may be missing. *)
Record Web := { web_uri : option string; web_title : option string }.
Record GroundingChunk := { web : option Web }.
Record GroundingMetadata := { groundingChunks : option (list GroundingChunk) }.
Record Candidate := { groundingMetadata : option GroundingMetadata }.
Record GenerateContentResponse := {
  text : option string;
  candidates : option (list Candidate)
}.

(** The request of [generatePoliticalReport], by the parts of it that vary:
    the fixed wording of the prompt, the schema, the search tool, the system
    instruction and the temperature are the same in every request. *)
Record GenerateContentRequest := {
  req_model : string;
  req_topic : string;
  req_today : string;
  req_userHistoryStr : string
}.

(** The world around the service: the configured key, the model behind
    [ai.models.generateContent] (a rejected promise is [Throw]), the date
    string of [toLocaleDateString], [crypto.randomUUID()] and [Date.now()]. *)
Record Env := {
  API_KEY : option string;
  generateContent : GenerateContentRequest -> result GenerateContentResponse;
  today : string;
  randomUUID : string;
  now : Z
}.

Inductive Stage := researching | analyzing | formatting.

(** What a call does besides returning: progress callbacks, requests sent
    to the model, lines written with [console.error]. *)
Inductive Event :=
| Progress (s : Stage)
| ModelRequest (r : GenerateContentRequest)
| ConsoleError.

Definition MISSING_KEY : string :=
  "API Key is missing. Please set process.env.API_KEY.".
Definition GENERATION_FAILED : string :=
  "Failed to generate analysis. Please try again.".

(** The client is represented by the key it was built with. *)
Definition getAiClient (env : Env) : result string :=
  match API_KEY env with
  | Some apiKey => if String.eqb apiKey "" then Throw MISSING_KEY else Ok apiKey
  | None => Throw MISSING_KEY
  end.

Record Chat := { chat_model : string; systemInstruction : string }.

Definition createChatSession (env : Env) (context : option string)
  : result Chat :=
  match getAiClient env with
  | Throw m => Throw m
  | Ok _ =>
      let systemInstruction :=
        "You are a helpful and knowledgeable AI political assistant for 'PolitiSight India'. 
  Answer questions about Indian politics, elections, and the application's analysis features. 
  Keep responses concise and neutral.
  " +:+ match context with
        | Some c => if String.eqb c "" then ""
                    else String (ascii_of_N 10) ("CONTEXT: " +:+ c)
        | None => ""
        end in
      Ok {| chat_model := "gemini-3-pro-preview";
            systemInstruction := systemInstruction |}
  end.

(** [response.candidates?.[0]?.groundingMetadata?.groundingChunks] *)
Definition chunks_of (response : GenerateContentResponse)
  : option (list GroundingChunk) :=
  match candidates response with
  | Some (c :: _) =>
      match groundingMetadata c with
      | Some md => groundingChunks md
      | None => None
      end
  | _ => None
  end.

(** The body of [chunks.forEach]: a chunk adds a source when it has a
    non-empty [web.uri] and a non-empty [web.title]. *)
Definition source_of_chunk (chunk : GroundingChunk) : list GroundingSource :=
  match web chunk with
  | Some w =>
      match web_uri w, web_title w with
      | Some u, Some t =>
          if nonempty u && nonempty t
          then [{| gs_title := t; gs_uri := u |}]
          else []
      | _, _ => []
      end
  | None => []
  end.

Definition extract_sources (chunks : option (list GroundingChunk))
  : list GroundingSource :=
  match chunks with
  | Some l => flat_map source_of_chunk l
  | None => []
  end.

(** [sources.map(item => [item.uri, item])] *)
Definition source_entries (sources : list GroundingSource)
  : list (string * GroundingSource) :=
  map (fun item => (gs_uri item, item)) sources.

(** [Array.from(new Map(sources.map(item => [item.uri, item])).values())] *)
Definition uniqueSources (sources : list GroundingSource)
  : list GroundingSource :=
  Map_values (Map_of (source_entries sources)).

(** The clean-up of the response text before it is parsed. *)
Definition clean (responseText : string) : string :=
  trim (replace_all "```" "" (replace_all "```json" "" responseText)).

Definition userHistoryStr (historyContext : list string) : string :=
  match historyContext with
  | [] => ""
  | _ => "User's recent research history: " +:+ join ", " historyContext
         +:+ ". Use this to understand the user's political interests, but focus primarily on the new topic."
  end.

(** [{...data, id, createdAt, sources}] *)
Definition make_report (data : json) (id : string) (createdAt : Z)
  (sources : list GroundingSource) : json :=
  JObj (obj_set "sources" (JArr (map GroundingSource_js sources))
          (obj_set "createdAt" (JNum (number_of_Z createdAt))
             (obj_set "id" (JStr id) (spread data)))).

Definition make_request (env : Env) (topic : string)
  (historyContext : list string) : GenerateContentRequest :=
  {| req_model := "gemini-2.5-flash"; req_topic := topic;
     req_today := today env;
     req_userHistoryStr := userHistoryStr historyContext |}.

(** The [try] block of [generatePoliticalReport]. *)
Definition try_generate (env : Env) (topic : string)
  (historyContext : list string) : list Event * result json :=
  let request := make_request env topic historyContext in
  match generateContent env request with
  | Throw m => ([ModelRequest request], Throw m)
  | Ok response =>
      let events := [ModelRequest request; Progress formatting] in
      match text response with
      | None => (events, Throw "No response generated")
      | Some responseText =>
          if String.eqb responseText ""
          then (events, Throw "No response generated")
          else
            match JSON_parse (clean responseText) with
            | None => (events, Throw "SyntaxError")
            | Some data =>
                let sources := extract_sources (chunks_of response) in
                (events,
                 Ok (make_report data (randomUUID env) (now env)
                       (uniqueSources sources)))
            end
      end
  end.

Definition generatePoliticalReport (env : Env) (topic : string)
  (historyContext : list string) : list Event * result json :=
  match getAiClient env with
  | Throw m => ([], Throw m)
  | Ok _ =>
      let '(events, outcome) := try_generate env topic historyContext in
      let events := [Progress researching; Progress analyzing] ++ events in
      match outcome with
      | Ok report => (events, Ok report)
      | Throw _ => (events ++ [ConsoleError], Throw GENERATION_FAILED)
      end
  end.

(** Number of requests sent to the model. *)
Definition count_requests (events : list Event) : nat :=
  length (filter (fun e => match e with ModelRequest _ => true | _ => false end)
                 events).

(** The ways a request can go wrong: the call fails, the answer has no
    text, or its text, once cleaned, is not JSON. *)
Inductive bad_outcome : result GenerateContentResponse -> Prop :=
| call_fails m : bad_outcome (Throw m)
| no_text r : text r = None -> bad_outcome (Ok r)
| empty_text r : text r = Some "" -> bad_outcome (Ok r)
| not_json r t :
    text r = Some t -> JSON_parse (clean t) = None -> bad_outcome (Ok r).

(** The source kept for a uri: the last one extracted with it. *)
Definition last_with_uri (u : string) (sources : list GroundingSource)
  : option GroundingSource :=
  find (fun s => String.eqb u (gs_uri s)) (rev sources).

End GeminiService.
Import GeminiService.

(** ** App.tsx: the history store *)

Module App.

Definition HISTORY_KEY : string := "politisight_history".

(** The [history] state of the component and the browser's [localStorage].
    The state is typed [Report[]] but holds whatever [JSON.parse] returned. *)
Record AppState := {
  history : json;
  localStorage : gmap string string
}.

Definition initial (storage : gmap string string) : AppState :=
  {| history := JArr []; localStorage := storage |}.

(** The effect run on mount: a stored text that is absent, empty or not
    JSON leaves the state as it is. *)
Definition loadHistory (st : AppState) : AppState :=
  match localStorage st !! HISTORY_KEY with
  | Some saved =>
      if String.eqb saved "" then st
      else match JSON_parse saved with
           | Some parsed => {| history := parsed; localStorage := localStorage st |}
           | None => st
           end
  | None => st
  end.

(** The history a freshly mounted application shows for a given storage. *)
Definition loadAll (storage : gmap string string) : json :=
  history (loadHistory (initial storage)).

Definition setHistory (updated : json) (st : AppState) : AppState :=
  {| history := updated;
     localStorage := <[HISTORY_KEY := JSON_stringify updated]> (localStorage st) |}.

Definition saveToHistory (newReport : json) (st : AppState) : result AppState :=
  match iterate (history st) with
  | Throw m => Throw m
  | Ok items => Ok (setHistory (JArr (newReport :: items)) st)
  end.

(** [r.id !== id] *)
Definition id_differs (id : string) (r : json) : bool :=
  match prop "id" r with
  | Some (JStr s) => negb (String.eqb s id)
  | _ => true
  end.

(** [history.filter(r => r.id !== id)] on an array; reading [id] on a
    [null] element throws. *)
Fixpoint filter_history (id : string) (l : list json) : result (list json) :=
  match l with
  | [] => Ok []
  | JNull :: _ => Throw "TypeError: cannot read properties of null"
  | r :: rest =>
      match filter_history id rest with
      | Throw m => Throw m
      | Ok kept => Ok (if id_differs id r then r :: kept else kept)
      end
  end.

Definition deleteFromHistory (id : string) (st : AppState) : result AppState :=
  match history st with
  | JArr l =>
      match filter_history id l with
      | Throw m => Throw m
      | Ok updated => Ok (setHistory (JArr updated) st)
      end
  | _ => Throw "TypeError: history.filter is not a function"
  end.

End App.
Import App.

(** ** components/ChatBot.tsx *)

Module ChatBot.

Record ChatState := {
  messages : list ChatMessage;
  input : string;
  isTyping : bool;
  chatSession : option Chat
}.

Definition initialChat : ChatState :=
  {| messages := []; input := ""; isTyping := false; chatSession := None |}.

Definition setMessages (f : list ChatMessage -> list ChatMessage)
  (st : ChatState) : ChatState :=
  {| messages := f (messages st); input := input st;
     isTyping := isTyping st; chatSession := chatSession st |}.

Definition contextString (currentReport : option Report)
  (history : list Report) : string :=
  match currentReport with
  | Some r =>
      "User is currently viewing a report titled: " +:+ str1 dquote
      +:+ rep_title r +:+ str1 dquote +:+ ". 
        Executive Summary: " +:+ executiveSummary r +:+ ".
        Key Insights: " +:+ join "; " (map ki_text (keyInsights r)) +:+ ". "
  | None => ""
  end
  +:+
  match history with
  | [] => ""
  | _ => "User has previously analyzed: "
         +:+ join ", " (map rep_title (firstn 3 history)) +:+ "."
  end.

Definition greeting (currentReport : option Report) (date : Z) : ChatMessage :=
  {| msg_id := "init";
     msg_role := model;
     msg_text :=
       match currentReport with
       | Some r => "I'm here to help you dig deeper into " +:+ str1 dquote
                   +:+ rep_title r +:+ str1 dquote
                   +:+ ". What would you like to know?"
       | None => "Namaste! I'm your PolitiSight assistant. Ask me about Indian politics or start a new analysis."
       end;
     msg_timestamp := date |}.

(** The effect that (re)creates the chat session; React runs it on mount
    and whenever [currentReport?.id] or [history.length] changes.  [date] is
    the clock at that moment. *)
Definition sessionEffect (env : Env) (date : Z) (currentReport : option Report)
  (history : list Report) (st : ChatState) : ChatState :=
  match createChatSession env (Some (contextString currentReport history)) with
  | Throw _ => st
  | Ok chat =>
      let st' := {| messages := messages st; input := input st;
                    isTyping := isTyping st; chatSession := Some chat |} in
      match messages st with
      | [] => setMessages (fun _ => [greeting currentReport date]) st'
      | _ => st'
      end
  end.

(** How a call of [sendMessageStream] goes: it throws, or it yields chunks
    (each with an optional text) and then completes or throws. *)
Inductive StreamEnd := Completed | Failed.
Inductive SendOutcome :=
| SendThrows
| Stream (chunks : list (option string)) (ending : StreamEnd).

(** The clock readings of one [handleSend], in the order they are taken. *)
Record Clock := {
  t_user_id : Z; t_user_date : Z;
  t_bot_id : Z; t_bot_date : Z;
  t_error_id : Z; t_error_date : Z
}.

(** [msg.id === botMsgId ? { ...msg, text: fullResponse } : msg] *)
Definition with_text (botMsgId fullResponse : string) (msg : ChatMessage)
  : ChatMessage :=
  if String.eqb (msg_id msg) botMsgId
  then {| msg_id := msg_id msg; msg_role := msg_role msg;
          msg_text := fullResponse; msg_timestamp := msg_timestamp msg |}
  else msg.

(** The body of the [for await] loop: a chunk with a non-empty text extends
    [fullResponse] and rewrites the text of every message whose id is
    [botMsgId]. *)
Definition stream_step (botMsgId : string)
  (acc : string * list ChatMessage) (chunk : option string)
  : string * list ChatMessage :=
  let (fullResponse, msgs) := acc in
  match chunk with
  | Some t =>
      if nonempty t then
        let fullResponse := fullResponse +:+ t in
        (fullResponse, map (with_text botMsgId fullResponse) msgs)
      else acc
  | None => acc
  end.

Definition stream_loop (botMsgId : string) (chunks : list (option string))
  (acc : string * list ChatMessage) : string * list ChatMessage :=
  fold_left (stream_step botMsgId) chunks acc.

Definition errorMessage (clock : Clock) : ChatMessage :=
  {| msg_id := Z_to_string (t_error_id clock);
     msg_role := model;
     msg_text := "I'm sorry, I encountered an error. Please try again.";
     msg_timestamp := t_error_date clock |}.

Definition handleSend (clock : Clock) (sendMessageStream : Chat -> string -> SendOutcome)
  (st : ChatState) : ChatState :=
  match chatSession st with
  | None => st
  | Some session =>
      if String.eqb (trim (input st)) "" then st
      else
        let userMsg := {| msg_id := Z_to_string (t_user_id clock);
                          msg_role := user;
                          msg_text := input st;
                          msg_timestamp := t_user_date clock |} in
        let msgs := messages st ++ [userMsg] in
        let msgs :=
          match sendMessageStream session (msg_text userMsg) with
          | SendThrows => msgs ++ [errorMessage clock]
          | Stream chunks ending =>
              let botMsgId := Z_to_string (t_bot_id clock + 1) in
              let placeholder := {| msg_id := botMsgId; msg_role := model;
                                    msg_text := "";
                                    msg_timestamp := t_bot_date clock |} in
              let '(_, msgs) :=
                stream_loop botMsgId chunks ("", msgs ++ [placeholder]) in
              match ending with
              | Completed => msgs
              | Failed => msgs ++ [errorMessage clock]
              end
          end in
        {| messages := msgs; input := ""; isTyping := false;
           chatSession := chatSession st |}
  end.

(** The text the deltas of a stream add up to, in arrival order. *)
Fixpoint deltas_text (chunks : list (option string)) : string :=
  match chunks with
  | [] => ""
  | Some t :: r => t +:+ deltas_text r
  | None :: r => deltas_text r
  end.

(** What the loop may do to a message: it keeps its id and its role, and
    is left as it was unless its id is [botMsgId]. *)
Definition kept_by (botMsgId : string) (old new : ChatMessage) : Prop :=
  msg_id new = msg_id old
  /\ msg_role new = msg_role old
  /\ (msg_id old <> botMsgId -> new = old).

(** Number of greeting messages in a list. *)
Definition greetings (msgs : list ChatMessage) : nat :=
  length (filter (fun m => String.eqb (msg_id m) "init") msgs).

End ChatBot.
Import ChatBot.

(** ** Conversion of values to strings *)

Module JsConvert.

(** [String(v)], as a template literal or [join] applies it.  An array is
    joined with commas, its [null] elements giving nothing; an object is
    [[object Object]], unless it has a property [toString] of its own: such
    a property read from JSON is no function, and the conversion throws. *)
Fixpoint to_string (v : json) : result string :=
  match v with
  | JNull => Ok "null"
  | JBool true => Ok "true"
  | JBool false => Ok "false"
  | JNum n => Ok (number_to_string n)
  | JSpecial x => Ok (special_to_string x)
  | JStr s => Ok s
  | JArr l =>
      (fix join_elements (l : list json) : result string :=
         match l with
         | [] => Ok ""
         | x :: r =>
             match (match x with JNull => Ok "" | _ => to_string x end) with
             | Throw m => Throw m
             | Ok sx =>
                 match r with
                 | [] => Ok sx
                 | _ => match join_elements r with
                        | Throw m => Throw m
                        | Ok sr => Ok (sx +:+ "," +:+ sr)
                        end
                 end
             end
         end) l
  | JObj fs =>
      match obj_get "toString" fs with
      | Some _ => Throw "TypeError: Cannot convert object to primitive value"
      | None => Ok "[object Object]"
      end
  end.

(** The text [join] uses for an element: nothing for [undefined] and
    [null]. *)
Definition element_text (x : option json) : result string :=
  match x with
  | None | Some JNull => Ok ""
  | Some v => to_string v
  end.

Fixpoint element_texts (l : list (option json)) : result (list string) :=
  match l with
  | [] => Ok []
  | x :: r =>
      match element_text x with
      | Throw m => Throw m
      | Ok s => match element_texts r with
                | Throw m => Throw m
                | Ok ss => Ok (s :: ss)
                end
      end
  end.

End JsConvert.

(** ** App.tsx: searching, resetting and what is shown *)

Module AppUI.

(** ['idle' | 'researching' | 'analyzing' | 'formatting' | 'complete']:
    the three middle stages are those the generator reports. *)
Inductive SearchStage := idle | busy (s : Stage) | complete.

Record SearchState := {
  isSearching : bool;
  stage : SearchStage;
  query : string;
  error : option string
}.

(** The state of [App]: [searchState], [report], and [history] with the
    storage behind it. *)
Record State := {
  searchState : SearchState;
  report : option json;
  store : AppState
}.

Definition SEARCH_FAILED : string :=
  "Failed to generate report. Please try again.".

Definition idleSearch : SearchState :=
  {| isSearching := false; stage := idle; query := ""; error := None |}.

(** The component once mounted: the initial state, then the load effect. *)
Definition mount (storage : gmap string string) : State :=
  {| searchState := idleSearch; report := None;
     store := loadHistory (initial storage) |}.

(** [l.map(h => h.title)]; reading [title] on [null] throws. *)
Fixpoint titles (l : list json) : result (list (option json)) :=
  match l with
  | [] => Ok []
  | JNull :: _ => Throw "TypeError: cannot read properties of null"
  | h :: r =>
      match titles r with
      | Throw m => Throw m
      | Ok ts => Ok (JsObject.prop "title" h :: ts)
      end
  end.

(** [history.slice(0, 3).map(h => h.title)]: only an array has both
    [slice] and, on the slice, [map]. *)
Definition historyContext (history : json) : result (list (option json)) :=
  match history with
  | JArr l => titles (firstn 3 l)
  | _ => Throw "TypeError: history.slice(...).map is not a function"
  end.

(** [generatePoliticalReport] called with titles that may be any value: the
    generator joins them inside its [try] block, after the client was
    obtained and the first two stages were reported, so a title that cannot
    be converted ends in the generic failure without any request. *)
Definition generateWith (env : Env) (topic : string)
  (context : list (option json)) : list Event * result json :=
  match JsConvert.element_texts context with
  | Ok texts => generatePoliticalReport env topic texts
  | Throw _ =>
      match getAiClient env with
      | Throw m => ([], Throw m)
      | Ok _ => ([Progress researching; Progress analyzing; ConsoleError],
                 Throw GENERATION_FAILED)
      end
  end.

(** The state in which the [catch] of [handleSearch] leaves the search. *)
Definition failedSearch (q : string) : SearchState :=
  {| isSearching := false; stage := idle; query := q;
     error := Some SEARCH_FAILED |}.

Definition handleSearch (env : Env) (q : string) (st : State)
  : list Event * State :=
  if String.eqb (trim q) "" then ([], st)
  else
    match historyContext (history (store st)) with
    | Throw _ =>
        ([ConsoleError],
         {| searchState := failedSearch q; report := None; store := store st |})
    | Ok context =>
        let '(events, outcome) := generateWith env q context in
        match outcome with
        | Throw _ =>
            (events ++ [ConsoleError],
             {| searchState := failedSearch q; report := None;
                store := store st |})
        | Ok result =>
            match saveToHistory result (store st) with
            | Throw _ =>
                (events ++ [ConsoleError],
                 {| searchState := failedSearch q; report := Some result;
                    store := store st |})
            | Ok saved =>
                (events,
                 {| searchState :=
                      {| isSearching := true; stage := complete; query := q;
                         error := None |};
                    report := Some result;
                    store := saved |})
            end
        end
    end.

Definition resetApp (st : State) : State :=
  {| searchState := idleSearch; report := None; store := store st |}.

(** Clicking an entry of the history list: [setReport(item)]. *)
Definition openReport (item : json) (st : State) : State :=
  {| searchState := searchState st; report := Some item; store := store st |}.

(** Clicking the bin of an entry; an exception thrown by the handler leaves
    the state as it was. *)
Definition removeReport (id : string) (st : State) : State :=
  match deleteFromHistory id (store st) with
  | Ok deleted =>
      {| searchState := searchState st; report := report st; store := deleted |}
  | Throw _ => st
  end.

(** Which of the three screens [App] returns. *)
Inductive Screen :=
| LoadingScreen
| ReportScreen (r : json)
| HeroScreen.

Definition render (st : State) : Screen :=
  match report st with
  | Some r => ReportScreen r
  | None => if isSearching (searchState st) then LoadingScreen else HeroScreen
  end.

(** The states the user can bring the application to.  The hero screen
    offers the search, the history entries and their bins; the report
    screen offers the way back. *)
Inductive reachable (storage : gmap string string) : State -> Prop :=
| reach_mount : reachable storage (mount storage)
| reach_search env q st :
    reachable storage st -> render st = HeroScreen ->
    reachable storage (snd (handleSearch env q st))
| reach_open item l st :
    reachable storage st -> render st = HeroScreen ->
    history (store st) = JArr l -> In item l ->
    reachable storage (openReport item st)
| reach_remove id st :
    reachable storage st -> render st = HeroScreen ->
    reachable storage (removeReport id st)
| reach_reset r st :
    reachable storage st -> render st = ReportScreen r ->
    reachable storage (resetApp st).

End AppUI.

(** ** components/Charts.tsx: the colour of a cell *)

Module Charts.



End Charts.

(** ** Lists without repetition *)

Module Occurrences.

(** The elements of [l], each once, in the order in which they first
    appear. *)
Fixpoint first_occurrences (l : list string) : list string :=
  match l with
  | [] => []
  | x :: r => x :: filter (fun y => negb (String.eqb y x)) (first_occurrences r)
  end.

(** [k] is among [keys]. *)
Definition known (keys : list string) (k : string) : bool :=
  existsb (String.eqb k) keys.

End Occurrences.

(** ** Predicates on texts *)

Module Fences.

(** [t] holds three backquotes in a row somewhere. *)
Fixpoint has_fence (t : string) : bool :=
  match t with
  | "" => false
  | String _ r => prefix "```" t || has_fence r
  end.

(** [t] holds no backquote at all. *)
Fixpoint no_backquote (t : string) : bool :=
  match t with
  | "" => true
  | String c r => negb (c =? "`")%char && no_backquote r
  end.

(** [t] neither starts nor ends with white space. *)
Definition trimmed (t : string) : Prop := trim t = t.

End Fences.

(** ** Worlds and values used as examples *)

(** The model answers every request with [response]. *)
Definition env_with (key : option string)
  (response : result GenerateContentResponse) : Env :=
  {| API_KEY := key;
     generateContent := fun _ => response;
     today := "Monday, 2 November 2026";
     randomUUID := "3f0c2a9e-5b1d-4c7a-9e2f-6d8b1a4c7e90";
     now := 1762123456789 |}.

Definition answer (t : string) (chunks : option (list GroundingChunk))
  : result GenerateContentResponse :=
  Ok {| text := Some t;
        candidates :=
          match chunks with
          | Some l => Some [{| groundingMetadata :=
                                 Some {| groundingChunks := Some l |} |}]
          | None => None
          end |}.

(** An answer that is JSON of the requested shape, but with an empty title
    and an empty summary:
    [{"title":"","executiveSummary":"","keyInsights":[],"sections":[]}] *)
Definition blank_payload : string :=
  "{" +:+ quoted "title" +:+ ":" +:+ quoted "" +:+ ","
  +:+ quoted "executiveSummary" +:+ ":" +:+ quoted "" +:+ ","
  +:+ quoted "keyInsights" +:+ ":[]," +:+ quoted "sections" +:+ ":[]}".

Definition web_chunk (uri title : option string) : GroundingChunk :=
  {| web := Some {| web_uri := uri; web_title := title |} |}.

(** The report the generator returns for [blank_payload]. *)
Definition blank_report : json :=
  JObj [("title", JStr ""); ("executiveSummary", JStr "");
        ("keyInsights", JArr []); ("sections", JArr []);
        ("id", JStr "3f0c2a9e-5b1d-4c7a-9e2f-6d8b1a4c7e90");
        ("createdAt", JNum (Num 1762123456789 0));
        ("sources", JArr [])].

(** ** Statements compared with the code *)

(** Property [k] of [report] is a string that is not empty. *)
Definition nonempty_text (k : string) (report : json) : Prop :=
  exists s, prop k report = Some (JStr s) /\ s <> "".

(** "For all valid topic strings, [generate] either returns a report with
    non-empty title and executiveSummary, or fails." *)
Definition returns_populated_or_fails : Prop :=
  forall env topic historyContext,
    topic <> "" ->
    match snd (generatePoliticalReport env topic historyContext) with
    | Ok report =>
        nonempty_text "title" report
        /\ nonempty_text "executiveSummary" report
    | Throw _ => True
    end.

(** A report as the generator returns it, written through the types of
    [types.ts]. *)
Definition sample_report (id title : string) : Report :=
  {| rep_id := id;
     createdAt := 1762123456780;
     rep_title := title;
     rep_date := "Monday, 2 November 2026";
     executiveSummary := "Turnout rose in 41 of 80 seats.";
     keyInsights :=
       [{| ki_icon := trend_up; ki_text := "Turnout up";
           ki_value := Some "+4.5%"; ki_color := None |}];
     sections :=
       [{| sec_id := "s1"; sec_title := "Vote share"; sec_type := PIE_CHART;
           sec_content := "Shares by alliance.";
           chartData :=
             Some [{| cdp_name := "A"; cdp_value := Num 455 (-1);
                      cdp_label := None; cdp_fill := None |};
                   {| cdp_name := "B"; cdp_value := Num 545 (-1);
                      cdp_label := Some "B alliance"; cdp_fill := None |}];
           chartConfig := None |}];
     rep_sources :=
       Some [{| gs_title := "Election Commission";
                gs_uri := "https://eci.gov.in" |}] |}.

Definition r1 : json := Report_js (sample_report "id-1" "First analysis").
Definition r2 : json := Report_js (sample_report "id-2" "Second analysis").

(** A chat that has been greeted and in which the user has typed [hello],
    a clock, and a model that streams [Hi] and then [ there]. *)
Definition sample_chat : Chat :=
  {| chat_model := "gemini-3-pro-preview"; systemInstruction := "" |}.

Definition hello_state : ChatState :=
  {| messages := [greeting None 1762123400000];
     input := "hello";
     isTyping := false;
     chatSession := Some sample_chat |}.

Definition sample_clock : Clock :=
  {| t_user_id := 1762123456789; t_user_date := 1762123456789;
     t_bot_id := 1762123457200; t_bot_date := 1762123457200;
     t_error_id := 1762123458000; t_error_date := 1762123458000 |}.

Definition hi_there (_ : Chat) (_ : string) : SendOutcome :=
  Stream [Some "Hi"; Some " there"] Completed.

(** An answer with a chart value beyond the range of binary64:
    [{"title":"Seats","sections":[{"id":"s1","chartData":[{"name":"A","value":1e400}]}]}] *)
Definition overflow_payload : string :=
  "{" +:+ quoted "title" +:+ ":" +:+ quoted "Seats" +:+ ","
  +:+ quoted "sections" +:+ ":[{" +:+ quoted "id" +:+ ":" +:+ quoted "s1" +:+ ","
  +:+ quoted "chartData" +:+ ":[{" +:+ quoted "name" +:+ ":" +:+ quoted "A" +:+ ","
  +:+ quoted "value" +:+ ":1e400}]}]}".

(** The report with a chart value [v] that such an answer gives. *)
Definition seats_report (v : json) : json :=
  JObj [("title", JStr "Seats");
        ("sections",
         JArr [JObj [("id", JStr "s1");
                     ("chartData",
                      JArr [JObj [("name", JStr "A"); ("value", v)]])]]);
        ("id", JStr "3f0c2a9e-5b1d-4c7a-9e2f-6d8b1a4c7e90");
        ("createdAt", JNum (Num 1762123456789 0));
        ("sources", JArr [])].

(** The report the generator returns for [overflow_payload]: the value is
    [Infinity]. *)
Definition overflow_report : json := seats_report (JSpecial PosInfinity).

(** "[append(r)] followed by [loadAll()] yields a sequence whose first
    element deep-equals [r]." *)
Definition reload_returns_the_report : Prop :=
  forall newReport st st',
    well_formed newReport ->
    saveToHistory newReport st = Ok st' ->
    exists rest, loadAll (localStorage st') = JArr (newReport :: rest).

(** "[append(r1); append(r2); remove(r1.id)] yields [loadAll() == [r2]]." *)
Definition delete_reloads_the_other : Prop :=
  forall a b ida idb,
    well_formed a -> well_formed b ->
    prop "id" a = Some (JStr ida) ->
    prop "id" b = Some (JStr idb) ->
    ida <> idb ->
    exists st',
      (saveToHistory a (initial ∅) ≫= saveToHistory b) ≫= deleteFromHistory ida
      = Ok st'
      /\ loadAll (localStorage st') = JArr [b].

Import JsConvert AppUI Charts Occurrences Fences.

(** ** Further examples *)

(** An answer in a Markdown code block, whose object brings an [id] and a
    [createdAt] of its own:
    [{"id":"forged","createdAt":1,"title":"Seats"}] *)
Definition forged_payload : string :=
  "```json
{" +:+ quoted "id" +:+ ":" +:+ quoted "forged" +:+ ","
  +:+ quoted "createdAt" +:+ ":1," +:+ quoted "title" +:+ ":"
  +:+ quoted "Seats" +:+ "}
```".

(** A store that holds two reports, the newer first. *)
Definition shelf : AppState :=
  {| history := JArr [r2; r1]; localStorage := ∅ |}.

(** The application with that store, on its hero screen. *)
Definition home : State :=
  {| searchState := idleSearch; report := None; store := shelf |}.

(** A world whose model answers [{"title":"Seats"}]. *)
Definition seats_env : Env :=
  env_with (Some "key") (answer ("{" +:+ quoted "title" +:+ ":" +:+ quoted "Seats" +:+ "}") None).

(** A chat in which [hello] is typed but that has no session. *)
Definition dead_chat : ChatState :=
  {| messages := []; input := "hello"; isTyping := false; chatSession := None |}.

(** A model whose stream breaks after [Hi]. *)
Definition hi_then_fails (_ : Chat) (_ : string) : SendOutcome :=
  Stream [Some "Hi"] Failed.

(** * Properties of the run time *)

(** Comparisons between known characters are decided by computation. *)
Ltac reduce_chars := cbn [Ascii.eqb Bool.eqb andb].

Create HintDb lexer.

(** ** Strings and decimal digits *)

Lemma app_assoc_s (a b c : string) : (a +:+ b) +:+ c = a +:+ (b +:+ c).
Proof. induction a as [|x a IH]; simpl; [reflexivity | now rewrite IH]. Qed.

Lemma app_nil_r_s (a : string) : a +:+ "" = a.
Proof. induction a as [|x a IH]; simpl; [reflexivity | now rewrite IH]. Qed.

Lemma length_app_s (a b : string) :
  String.length (a +:+ b) = String.length a + String.length b.
Proof. induction a as [|x a IH]; simpl; [reflexivity | now rewrite IH]. Qed.

Lemma lex_digits_app ds rest :
  all_digits ds -> no_digit_head rest -> lex_digits (ds +:+ rest) = (ds, rest).
Proof.
  induction ds as [|c ds IH]; simpl; intros Hd Hr.
  - destruct rest as [|c r]; simpl in *; [reflexivity | now rewrite Hr].
  - inversion Hd as [|? ? Hc Hds]; subst. rewrite Hc, IH; auto.
Qed.

Lemma digits_value_from_app a b acc :
  digits_value_from acc (a +:+ b) = digits_value_from (digits_value_from acc a) b.
Proof. revert acc; induction a as [|c a IH]; simpl; intros; auto. Qed.

Lemma digits_value_from_acc s acc :
  digits_value_from acc s = (acc * 10 ^ Z.of_nat (String.length s) + digits_value s)%Z.
Proof.
  unfold digits_value. revert acc; induction s as [|c s IH]; intros acc.
  - simpl. lia.
  - cbn [digits_value_from String.length]. rewrite IH, (IH (10 * 0 + _)%Z).
    rewrite Nat2Z.inj_succ, Z.pow_succ_r by lia. ring.
Qed.

Lemma digits_value_app a b :
  digits_value (a +:+ b) = (digits_value a * 10 ^ Z.of_nat (String.length b) + digits_value b)%Z.
Proof.
  unfold digits_value at 1. rewrite digits_value_from_app.
  fold (digits_value a). apply digits_value_from_acc.
Qed.

Lemma digit_val_char d : (0 <= d < 10)%Z -> digit_val (digit_char d) = d.
Proof.
  intros H. unfold digit_val, digit_char, code.
  rewrite N_ascii_embedding by lia. lia.
Qed.

Lemma is_digit_char d : (0 <= d < 10)%Z -> is_digit (digit_char d) = true.
Proof.
  intros H. unfold is_digit, digit_char, code.
  rewrite N_ascii_embedding by lia.
  apply andb_true_intro; split; apply N.leb_le; lia.
Qed.

Lemma digits_le_spec fuel n :
  (0 <= n < 2 ^ Z.of_nat fuel)%Z -> (1 <= fuel)%nat ->
  value_le (digits_le fuel n) = n
  /\ Forall (fun d => 0 <= d < 10)%Z (digits_le fuel n)
  /\ digits_le fuel n <> []
  /\ (0 < n -> last (digits_le fuel n) 0 <> 0)%Z.
Proof.
  revert n; induction fuel as [|f IH]; intros n Hn Hf; [lia|].
  cbn [digits_le]. destruct (Z.ltb_spec n 10) as [Hlt|Hge].
  - cbn. repeat split; try lia; try discriminate. constructor; [lia | constructor].
  - assert (Hf1 : (1 <= f)%nat).
    { destruct f; [|lia]. cbn in Hn. lia. }
    assert (Hq : (0 <= n / 10 < 2 ^ Z.of_nat f)%Z).
    { rewrite Nat2Z.inj_succ, Z.pow_succ_r in Hn by lia.
      split; [apply Z.div_pos; lia|].
      apply Z.div_lt_upper_bound; lia. }
    destruct (IH _ Hq Hf1) as (Hv & Hall & Hne & Hlast).
    cbn [value_le]. rewrite Hv. repeat split.
    + pose proof (Z.div_mod n 10). lia.
    + constructor; [apply Z.mod_pos_bound; lia | exact Hall].
    + discriminate.
    + intros _. destruct (digits_le f (n / 10)) as [|d r] eqn:E; [congruence|].
      cbn [last]. apply Hlast.
      apply Z.div_str_pos. lia.
Qed.

Lemma string_of_list_app (a b : list ascii) :
  string_of_list_ascii (a ++ b) = string_of_list_ascii a +:+ string_of_list_ascii b.
Proof. induction a as [|x a IH]; simpl; [reflexivity | now rewrite IH]. Qed.

Lemma be_string_value l :
  Forall (fun d => 0 <= d < 10)%Z l -> digits_value (be_string l) = value_le l.
Proof.
  unfold be_string. induction 1 as [|d l Hd Hl IH]; [reflexivity|].
  cbn [rev value_le]. rewrite map_app, string_of_list_app, digits_value_app, IH.
  cbn [map string_of_list_ascii String.length]. unfold digits_value at 1.
  cbn [digits_value_from]. rewrite digit_val_char by exact Hd. cbn. lia.
Qed.

Lemma be_string_digits l :
  Forall (fun d => 0 <= d < 10)%Z l -> all_digits (be_string l).
Proof.
  unfold be_string, all_digits. intros H.
  rewrite list_ascii_of_string_of_list_ascii.
  apply Forall_map, Forall_rev. eapply Forall_impl; [|exact H].
  intros d Hd. now apply is_digit_char.
Qed.

Lemma Z_digits_fuel n : (0 <= n)%Z ->
  (0 <= n < 2 ^ Z.of_nat (S (Z.to_nat (Z.log2 n))))%Z.
Proof.
  intros Hn. split; [exact Hn|].
  rewrite Nat2Z.inj_succ, Z2Nat.id by apply Z.log2_nonneg.
  destruct (Z.eq_dec n 0) as [->|Hz]; [cbn; lia|].
  apply Z.log2_spec. lia.
Qed.

Lemma Z_digits_value n : (0 <= n)%Z -> digits_value (Z_digits n) = n.
Proof.
  intros Hn. destruct (digits_le_spec _ n (Z_digits_fuel n Hn)) as (Hv & Hall & _); [apply Nat.lt_0_succ|].
  unfold Z_digits. fold (be_string (digits_le (S (Z.to_nat (Z.log2 n))) n)).
  now rewrite be_string_value.
Qed.

Lemma Z_digits_all n : (0 <= n)%Z -> all_digits (Z_digits n).
Proof.
  intros Hn. destruct (digits_le_spec _ n (Z_digits_fuel n Hn)) as (Hv & Hall & _); [apply Nat.lt_0_succ|].
  now apply be_string_digits.
Qed.

Lemma digit_char_nonzero d : (1 <= d < 10)%Z -> (digit_char d =? "0")%char = false.
Proof.
  intros Hd. apply Ascii.eqb_neq. intros E.
  assert (H : digit_val (digit_char d) = digit_val "0"%char) by now rewrite E.
  rewrite digit_val_char in H by lia.
  change (digit_val "0"%char) with 0%Z in H. lia.
Qed.

Lemma Z_digits_head n : (0 < n)%Z ->
  exists d r, Z_digits n = String d r /\ (d =? "0")%char = false /\ is_digit d = true.
Proof.
  intros Hn.
  destruct (digits_le_spec _ n (Z_digits_fuel n ltac:(lia))) as (Hv & Hall & Hne & Hlast); [apply Nat.lt_0_succ|].
  unfold Z_digits.
  set (l := digits_le _ n) in *. clearbody l.
  rewrite (app_removelast_last 0%Z Hne), rev_app_distr. cbn.
  assert (Hin : In (last l 0%Z) l).
  { rewrite (app_removelast_last 0%Z Hne) at 2. apply in_or_app. right. now left. }
  rewrite Forall_forall in Hall. specialize (Hall _ Hin). cbn beta in Hall.
  eexists _, _. split; [reflexivity|]. split.
  - apply digit_char_nonzero. specialize (Hlast Hn). lia.
  - apply is_digit_char. lia.
Qed.

(** ** Numbers in normal form *)

Lemma strip10_pow fuel j m e :
  (m mod 10 <> 0)%Z -> (j <= fuel)%nat ->
  strip10 fuel (m * 10 ^ Z.of_nat j) (e - Z.of_nat j) = Num m e.
Proof.
  intros Hm. revert fuel e. induction j as [|j IH]; intros fuel e Hj.
  - cbn [Z.of_nat]. rewrite Z.pow_0_r, Z.mul_1_r, Z.sub_0_r.
    destruct fuel as [|f]; cbn [strip10]; [reflexivity|].
    destruct (Z.eqb_spec (m mod 10) 0); [contradiction | reflexivity].
  - destruct fuel as [|f]; [lia|]. cbn [strip10].
    rewrite Nat2Z.inj_succ, Z.pow_succ_r by lia.
    replace (m * (10 * 10 ^ Z.of_nat j))%Z with ((m * 10 ^ Z.of_nat j) * 10)%Z by ring.
    rewrite Z.mod_mul by lia. cbn [Z.eqb].
    rewrite Z.div_mul by lia.
    replace (e - Z.succ (Z.of_nat j) + 1)%Z with (e - Z.of_nat j)%Z by lia.
    apply IH. lia.
Qed.

Lemma normalize_pow j m e :
  (m <> 0)%Z -> (m mod 10 <> 0)%Z ->
  normalize (m * 10 ^ Z.of_nat j) (e - Z.of_nat j) = Num m e.
Proof.
  intros Hz Hm. unfold normalize.
  assert (Hp : (0 < 10 ^ Z.of_nat j)%Z) by (apply Z.pow_pos_nonneg; lia).
  destruct (Z.eqb_spec (m * 10 ^ Z.of_nat j) 0) as [E|_]; [nia|].
  apply strip10_pow; [exact Hm|].
  apply Nat2Z.inj_le. rewrite Z2Nat.id by apply Z.log2_nonneg.
  apply Z.log2_le_pow2; [nia|].
  rewrite Z.abs_mul, (Z.abs_eq (10 ^ _)) by lia.
  assert (2 ^ Z.of_nat j <= 10 ^ Z.of_nat j)%Z by (apply Z.pow_le_mono_l; lia).
  nia.
Qed.

Lemma normalize_ok x : number_ok x -> normalize (mant x) (expo x) = x.
Proof.
  destruct x as [m e]. intros [H0 H1]. cbn [mant expo] in *.
  destruct (Z.eq_dec m 0) as [->|Hz].
  - rewrite (H0 eq_refl). reflexivity.
  - pose proof (normalize_pow 0 m e Hz (H1 Hz)) as H.
    cbn [Z.of_nat] in H. now rewrite Z.pow_0_r, Z.mul_1_r, Z.sub_0_r in H.
Qed.

Lemma terminated_no_digit rest : terminated rest -> no_digit_head rest.
Proof. destruct rest; cbn; tauto. Qed.

Lemma lex_fraction_none rest : terminated rest -> lex_fraction rest = Some ("", rest).
Proof.
  destruct rest as [|c r]; cbn; [reflexivity|]. intros (_ & -> & _). reflexivity.
Qed.

Lemma lex_exponent_none rest : terminated rest -> lex_exponent rest = Some (0%Z, rest).
Proof.
  destruct rest as [|c r]; cbn; [reflexivity|]. intros (_ & _ & -> & ->). reflexivity.
Qed.

Lemma lex_fraction_some fp rest :
  all_digits fp -> fp <> "" -> no_digit_head rest ->
  lex_fraction ("." +:+ fp +:+ rest) = Some (fp, rest).
Proof.
  intros Hd Hne Hr. cbn. rewrite lex_digits_app by assumption.
  destruct fp; [contradiction | reflexivity].
Qed.

Lemma lex_exponent_some E rest :
  no_digit_head rest ->
  lex_exponent ("e" +:+ (if (E <? 0)%Z then "-" else "+") +:+ Z_digits (Z.abs E) +:+ rest)
  = Some (E, rest).
Proof.
  intros Hr. cbn [String.append lex_exponent]. cbn [Ascii.eqb Bool.eqb orb andb].
  pose proof (Z_digits_all (Z.abs E) (Z.abs_nonneg E)) as Hall.
  pose proof (Z_digits_value (Z.abs E) (Z.abs_nonneg E)) as Hval.
  destruct (Z.ltb_spec E 0); cbn [String.append lex_exp_sign]; cbn [Ascii.eqb Bool.eqb orb andb];
    rewrite lex_digits_app by assumption; rewrite Hval;
    (destruct (Z_digits (Z.abs E)) eqn:Ed;
     [ destruct (Z.eq_dec (Z.abs E) 0) as [E0|E0];
       [ rewrite E0 in Ed; discriminate Ed
       | destruct (Z_digits_head (Z.abs E) ltac:(lia)) as (d & r & Hd & _); congruence ]
     | f_equal; f_equal; lia ]).
Qed.

(** ** A printed number is read back *)

Lemma is_digit_not_minus d : is_digit d = true -> (d =? "-")%char = false.
Proof.
  intros H. apply Ascii.eqb_neq. intros ->. discriminate H.
Qed.

Lemma parse_number_assemble (neg : bool) ip tail fp s3 e s4 :
  all_digits ip -> int_part_ok ip = true -> no_digit_head tail ->
  lex_fraction tail = Some (fp, s3) ->
  lex_exponent s3 = Some (e, s4) ->
  parse_number ((if neg then "-" else "") +:+ ip +:+ tail)
  = Some (normalize (if neg then - digits_value (ip +:+ fp) else digits_value (ip +:+ fp))%Z
                    (e - Z.of_nat (String.length fp))%Z, s4).
Proof.
  intros Hd Hok Ht Hf He. unfold parse_number.
  assert (Hm : lex_minus ((if neg then "-" else "") +:+ ip +:+ tail) = (neg, ip +:+ tail)).
  { destruct neg; [reflexivity|].
    destruct ip as [|d r]; [discriminate Hok|].
    inversion Hd; subst. cbn. now rewrite is_digit_not_minus. }
  rewrite Hm, lex_digits_app, Hok, Hf, He by assumption. reflexivity.
Qed.

Lemma all_digits_app a b : all_digits a -> all_digits b -> all_digits (a +:+ b).
Proof.
  unfold all_digits. induction a as [|c a IH]; cbn; intros Ha Hb; [exact Hb|].
  inversion Ha; subst. constructor; auto.
Qed.

Lemma all_digits_zeros n : all_digits (zeros n).
Proof. induction n; cbn; constructor; auto. Qed.

Lemma digits_value_zeros n : digits_value (zeros n) = 0%Z.
Proof.
  unfold digits_value. induction n as [|n IH]; [reflexivity|]. cbn. exact IH.
Qed.

Lemma length_zeros n : String.length (zeros n) = n.
Proof. induction n; cbn; congruence. Qed.

Lemma take_drop n s : take n s +:+ drop n s = s.
Proof.
  revert s; induction n as [|n IH]; intros [|c s]; cbn; try reflexivity.
  now rewrite IH.
Qed.

Lemma all_digits_take n s : all_digits s -> all_digits (take n s).
Proof.
  unfold all_digits. revert s; induction n as [|n IH]; intros [|c s] H; cbn;
    try constructor; inversion H; subst; auto.
Qed.

Lemma all_digits_drop n s : all_digits s -> all_digits (drop n s).
Proof.
  unfold all_digits. revert s; induction n as [|n IH]; intros [|c s] H; cbn; auto.
  inversion H; subst; auto.
Qed.

Lemma length_drop n s : String.length (drop n s) = String.length s - n.
Proof.
  revert s; induction n as [|n IH]; intros [|c s]; cbn; auto. 
Qed.

Lemma signed_abs m : (if (m <? 0)%Z then - Z.abs m else Z.abs m)%Z = m.
Proof. destruct (Z.ltb_spec m 0); lia. Qed.

#[local] Hint Resolve lex_fraction_none lex_exponent_none lex_exponent_some
  all_digits_app all_digits_zeros all_digits_take all_digits_drop : lexer.

Lemma parse_number_to_string x rest :
  number_ok x -> terminated rest ->
  parse_number (number_to_string x +:+ rest) = Some (x, rest).
Proof.
  intros Hok Hrest. unfold number_to_string. rewrite (normalize_ok x Hok).
  destruct x as [m e]. destruct Hok as [H0 H1]. cbv zeta. cbn [mant expo] in *.
  pose proof (terminated_no_digit _ Hrest) as Hnd.
  destruct (Z.eqb_spec m 0) as [->|Hz].
  - rewrite (H0 eq_refl).
    apply (parse_number_assemble false "0" rest "" rest 0 rest);
      auto with lexer.
    repeat constructor.
  - specialize (H1 Hz). clear H0.
    assert (Hpos : (0 < Z.abs m)%Z) by lia.
    pose proof (Z_digits_all (Z.abs m) ltac:(lia)) as Hall.
    pose proof (Z_digits_value (Z.abs m) ltac:(lia)) as Hval.
    destruct (Z_digits_head (Z.abs m) Hpos) as (d & r & Hds & Hd0 & Hdd).
    set (ds := Z_digits (Z.abs m)) in *. clearbody ds.
    set (k := Z.of_nat (String.length ds)).
    assert (Hk : (1 <= k)%Z) by (subst k; rewrite Hds; cbn [String.length]; lia).
    assert (Hnorm : normalize m e = Num m e).
    { pose proof (normalize_pow 0 m e Hz H1) as H.
      cbn [Z.of_nat] in H. now rewrite Z.pow_0_r, Z.mul_1_r, Z.sub_0_r in H. }
    assert (Hipok : forall t, int_part_ok (String d t) = true).
    { intros t. cbn. now rewrite Hd0. }
    rewrite app_assoc_s.
    destruct ((k <=? k + e) && (k + e <=? 21))%Z eqn:CA.
    { (* plain digits followed by zeros *)
      apply andb_prop in CA. destruct CA as [C1 C2].
      apply Z.leb_le in C1. rewrite Z.add_simpl_l.
      rewrite (parse_number_assemble (m <? 0)%Z (ds +:+ zeros (Z.to_nat e)) rest "" rest 0 rest);
        auto with lexer.
      - rewrite app_nil_r_s, digits_value_app, digits_value_zeros, length_zeros, Hval.
        replace (if (m <? 0)%Z then (- (Z.abs m * 10 ^ Z.of_nat (Z.to_nat e) + 0))%Z
                 else (Z.abs m * 10 ^ Z.of_nat (Z.to_nat e) + 0)%Z)
          with (m * 10 ^ Z.of_nat (Z.to_nat e))%Z
          by (destruct (Z.ltb_spec m 0); rewrite ?Z.abs_neq, ?Z.abs_eq by lia; ring).
        cbn [String.length].
        replace (0 - Z.of_nat 0)%Z with (e - Z.of_nat (Z.to_nat e))%Z by lia.
        now rewrite normalize_pow.
      - rewrite Hds. cbn [String.append]. apply Hipok. }
    destruct ((0 <? k + e) && (k + e <=? 21))%Z eqn:CB.
    { (* digits with a decimal point inside *)
      apply andb_prop in CB. destruct CB as [C1 C2]. apply Z.ltb_lt in C1.
      apply andb_false_iff in CA.
      assert (He : (e < 0)%Z) by (destruct CA as [CA|CA]; [apply Z.leb_gt in CA | apply Z.leb_gt in CA]; lia).
      set (n := Z.to_nat (k + e)).
      assert (Hn : (0 < n < String.length ds)%nat) by (subst n k; lia).
      assert (Hdrop : String.length (drop n ds) = (String.length ds - n)%nat) by apply length_drop.
      assert (Htake : exists t, take n ds = String d t).
      { rewrite Hds. destruct n as [|n']; [lia|]. cbn. eauto. }
      destruct Htake as [t Ht].
      rewrite !app_assoc_s.
      rewrite (parse_number_assemble (m <? 0)%Z (take n ds) ("." +:+ drop n ds +:+ rest)
                 (drop n ds) rest 0 rest);
        auto with lexer.
      - rewrite take_drop, Hval, signed_abs, Hdrop.
        replace (0 - Z.of_nat (String.length ds - n))%Z with e by (subst n k; lia).
        now rewrite Hnorm.
      - rewrite Ht. apply Hipok.
      - reflexivity.
      - apply lex_fraction_some; auto with lexer.
        intros E. rewrite E in Hdrop. cbn [String.length] in Hdrop. lia. }
    destruct ((-6 <? k + e) && (k + e <=? 0))%Z eqn:CC.
    { (* 0.000ddd *)
      apply andb_prop in CC. destruct CC as [C1 C2]. apply Z.leb_le in C2.
      change ("0." +:+ zeros (Z.to_nat (- (k + e))) +:+ ds)
        with ("0" +:+ "." +:+ zeros (Z.to_nat (- (k + e))) +:+ ds).
      rewrite !app_assoc_s.
      rewrite <- (app_assoc_s (zeros _) ds rest).
      rewrite (parse_number_assemble (m <? 0)%Z "0"
                 ("." +:+ (zeros (Z.to_nat (- (k + e))) +:+ ds) +:+ rest)
                 (zeros (Z.to_nat (- (k + e))) +:+ ds) rest 0 rest);
        auto with lexer.
      - change ("0" +:+ zeros (Z.to_nat (- (k + e))) +:+ ds)
          with (zeros (S (Z.to_nat (- (k + e)))) +:+ ds).
        rewrite digits_value_app, digits_value_zeros, Hval, length_app_s, length_zeros.
        cbn [Z.mul Z.add]. rewrite signed_abs.
        replace (0 - Z.of_nat (Z.to_nat (- (k + e)) + String.length ds))%Z with e
          by (subst k; lia).
        now rewrite Hnorm.
      - repeat constructor.
      - reflexivity.
      - apply lex_fraction_some; auto with lexer.
        rewrite Hds. destruct (zeros _); discriminate. }
    (* exponent form *)
    clear CA CB CC.
    assert (Hexp : forall fp tail,
      all_digits fp ->
      lex_fraction tail = Some (fp, "e" +:+ (if (k + e - 1 <? 0)%Z then "-" else "+")
                                     +:+ Z_digits (Z.abs (k + e - 1)) +:+ rest) ->
      no_digit_head tail ->
      ds = String d fp ->
      parse_number ((if (m <? 0)%Z then "-" else "") +:+ str1 d +:+ tail) = Some (Num m e, rest)).
    { intros fp tail Hfp Hfrac Htail Hdfp.
      rewrite (parse_number_assemble (m <? 0)%Z (str1 d) tail fp
                 ("e" +:+ (if (k + e - 1 <? 0)%Z then "-" else "+")
                  +:+ Z_digits (Z.abs (k + e - 1)) +:+ rest) (k + e - 1) rest);
        auto with lexer.
      - change (str1 d +:+ fp) with (String d fp). rewrite <- Hdfp, Hval, signed_abs.
        replace (k + e - 1 - Z.of_nat (String.length fp))%Z with e
          by (subst k; rewrite Hdfp; cbn [String.length]; lia).
        now rewrite Hnorm.
      - repeat constructor. exact Hdd.
      - apply Hipok. }
    rewrite Hds. destruct r as [|c r'].
    + rewrite !app_assoc_s. apply (Hexp ""); auto; try reflexivity; constructor.
    + rewrite !app_assoc_s.
      assert (Hr : all_digits (String c r')).
      { rewrite Hds in Hall. inversion Hall; subst; assumption. }
      apply (Hexp (String c r')); auto; try reflexivity.
      apply (lex_fraction_some (String c r')); [exact Hr | discriminate | reflexivity].
Qed.

(** ** A printed string is read back *)

Lemma parse_escape_char c X :
  parse_string_body (escape_char c +:+ X) = prepend (str1 c) (parse_string_body X).
Proof. destruct c as [[] [] [] [] [] [] [] []]; reflexivity. Qed.

Lemma parse_escape s rest :
  parse_string_body (escape s +:+ String dquote rest) = Some (s, rest).
Proof.
  induction s as [|c s IH]; [reflexivity|].
  cbn [escape]. rewrite app_assoc_s, parse_escape_char, IH. reflexivity.
Qed.

Lemma quote_app s rest :
  quote s +:+ rest = String dquote (escape s +:+ String dquote rest).
Proof. unfold quote. cbn [String.append]. now rewrite app_assoc_s. Qed.

(** ** How printed values start *)

Lemma number_head_value c : number_head c -> value_head c.
Proof.
  intros H. destruct c as [[] [] [] [] [] [] [] []];
    try (repeat split; reflexivity); destruct H as [H|H]; discriminate H.
Qed.

Lemma number_to_string_head x :
  exists c s, number_to_string x = String c s /\ number_head c.
Proof.
  unfold number_to_string. cbv zeta.
  set (y := normalize (mant x) (expo x)). clearbody y. destruct y as [m e]. cbn [mant expo].
  destruct (Z.eqb_spec m 0) as [|Hz].
  { eexists _, _. split; [reflexivity|]. right; reflexivity. }
  destruct (Z.ltb_spec m 0).
  { eexists _, _. split; [reflexivity|]. left; reflexivity. }
  cbn [String.append].
  destruct (Z_digits_head (Z.abs m) ltac:(lia)) as (d & r & Hds & _ & Hdd).
  rewrite Hds. cbn [String.length].
  set (k := Z.of_nat (S (String.length r))).
  destruct ((k <=? k + e) && (k + e <=? 21))%Z.
  { eexists _, _. split; [reflexivity|]. now right. }
  destruct ((0 <? k + e) && (k + e <=? 21))%Z eqn:CB.
  { apply andb_prop in CB. destruct CB as [C1 _]. apply Z.ltb_lt in C1.
    destruct (Z.to_nat (k + e)) as [|n] eqn:En; [lia|].
    eexists _, _. split; [reflexivity|]. now right. }
  destruct ((-6 <? k + e) && (k + e <=? 0))%Z.
  { eexists _, _. split; [reflexivity|]. right; reflexivity. }
  destruct r; eexists _, _; (split; [reflexivity|]); now right.
Qed.

Lemma parse_value_number f c s :
  number_head c ->
  parse_value (S f) (String c s)
  = match parse_number (String c s) with
    | Some (n, rest) =>
        Some (json_of_number (to_number (c =? "-")%char n), rest)
    | None => None
    end.
Proof.
  intros H. destruct c as [[] [] [] [] [] [] [] []];
    try reflexivity; destruct H as [H|H]; discriminate H.
Qed.

(** The first character of a printed number is a minus sign exactly when
    the number is negative. *)
Lemma number_to_string_sign x c s :
  number_ok x -> number_to_string x = String c s ->
  (c =? "-")%char = (mant x <? 0)%Z.
Proof.
  intros Hok. unfold number_to_string. rewrite (normalize_ok x Hok). cbv zeta.
  destruct x as [m e]. cbn [mant expo].
  destruct (Z.eqb_spec m 0) as [->|Hz]; [now intros [= <- _]|].
  destruct (Z.ltb_spec m 0); [now intros [= <- _]|].
  cbn [String.append].
  destruct (Z_digits_head (Z.abs m) ltac:(lia)) as (d & r & Hds & _ & Hdd).
  rewrite Hds. cbn [String.length].
  set (k := Z.of_nat (S (String.length r))).
  destruct ((k <=? k + e) && (k + e <=? 21))%Z.
  { intros [= <- _]. now apply is_digit_not_minus. }
  destruct ((0 <? k + e) && (k + e <=? 21))%Z eqn:CB.
  { apply andb_prop in CB. destruct CB as [C1 _]. apply Z.ltb_lt in C1.
    destruct (Z.to_nat (k + e)) as [|n] eqn:En; [lia|].
    intros [= <- _]. now apply is_digit_not_minus. }
  destruct ((-6 <? k + e) && (k + e <=? 0))%Z.
  { now intros [= <- _]. }
  destruct r; intros [= <- _]; now apply is_digit_not_minus.
Qed.

Lemma stringify_head v :
  exists c s, JSON_stringify v = String c s /\ value_head c.
Proof.
  destruct v as [| [] | n | [] | s | l | fs]; cbn [JSON_stringify];
    try (eexists _, _; split; [reflexivity | repeat split; reflexivity]).
  destruct (number_to_string_head n) as (c & s & -> & H).
  eexists _, _; split; [reflexivity | now apply number_head_value].
Qed.

Lemma skip_ws_head c s : is_json_ws c = false -> skip_ws (String c s) = String c s.
Proof. intros H. cbn. now rewrite H. Qed.

Lemma skip_ws_stringify v rest :
  skip_ws (JSON_stringify v +:+ rest) = JSON_stringify v +:+ rest.
Proof.
  destruct (stringify_head v) as (c & s & -> & H & _). now apply skip_ws_head.
Qed.

(** ** Objects without repeated names *)

Lemma Map_set_fresh {V} k (v : V) m :
  ~ In k (map fst m) -> Map_set k v m = m ++ [(k, v)].
Proof.
  induction m as [|[k' v'] m IH]; cbn; intros H; [reflexivity|].
  destruct (String.eqb_spec k k') as [->|Hne]; [tauto|].
  rewrite IH; [reflexivity | tauto].
Qed.

Lemma Map_of_NoDup {V} (l : list (string * V)) :
  NoDup (map fst l) -> Map_of l = l.
Proof.
  unfold Map_of. change l with ([] ++ l) at 1 3. generalize (@nil (string * V)) as acc.
  induction l as [|[k v] l IH]; intros acc H.
  - cbn. now rewrite app_nil_r.
  - cbn [fold_left fst snd]. rewrite Map_set_fresh.
    + rewrite IH; rewrite <- app_assoc; [reflexivity | exact H].
    + rewrite map_app in H. apply NoDup_remove_2 in H.
      intros Hin. apply H. apply in_or_app. now left.
Qed.

(** ** A printed value is read back *)

Lemma well_formed_arr l : well_formed (JArr l) <-> Forall well_formed l.
Proof.
  cbn [well_formed]. induction l as [|x l IH]; cbn [fold_right].
  - split; constructor.
  - rewrite IH. split; [intros []; now constructor | now inversion 1].
Qed.

Lemma well_formed_obj fs :
  well_formed (JObj fs)
  <-> NoDup (map fst fs) /\ Forall (fun kv => well_formed (snd kv)) fs.
Proof.
  cbn [well_formed]. apply and_iff_compat_l.
  induction fs as [|x l IH]; cbn [fold_right].
  - split; constructor.
  - rewrite IH. split; [intros []; now constructor | now inversion 1].
Qed.

Lemma terminated_comma r : terminated (String "," r).
Proof. repeat split. Qed.
Lemma terminated_bracket r : terminated (String "]" r).
Proof. repeat split. Qed.
Lemma terminated_brace r : terminated (String "}" r).
Proof. repeat split. Qed.

#[local] Hint Resolve terminated_comma terminated_bracket terminated_brace : lexer.

Lemma length_stringify_pos v : 1 <= String.length (JSON_stringify v).
Proof.
  destruct (stringify_head v) as (c & s & -> & _). cbn. lia.
Qed.

Lemma join_map_single {A} (f : A -> string) sep x :
  join sep (map f [x]) = f x.
Proof. reflexivity. Qed.

Lemma join_map_cons {A} (f : A -> string) sep x y l :
  join sep (map f (x :: y :: l)) = f x +:+ sep +:+ join sep (map f (y :: l)).
Proof. reflexivity. Qed.

Lemma skip_ws_join l t :
  l <> [] ->
  skip_ws (join "," (map JSON_stringify l) +:+ t)
  = join "," (map JSON_stringify l) +:+ t.
Proof.
  destruct l as [|x [|y l]]; [congruence | |]; intros _.
  - rewrite join_map_single. apply skip_ws_stringify.
  - rewrite join_map_cons, app_assoc_s. apply skip_ws_stringify.
Qed.

Lemma parse_elements_join l :
  Forall parses_back l -> l <> [] ->
  forall f rest,
    2 * String.length (join "," (map JSON_stringify l)) + 1 <= f ->
    parse_elements f (join "," (map JSON_stringify l) +:+ String "]" rest)
    = Some (map as_stored l, rest).
Proof.
  induction 1 as [|x l Hx Hl IH]; [congruence|]. intros _ f rest Hf.
  destruct f as [|f]; [lia|]. cbn [parse_elements].
  destruct l as [|y l].
  - rewrite join_map_single in *.
    rewrite Hx by (auto with lexer; lia).
    reflexivity.
  - rewrite join_map_cons in *.
    rewrite !length_app_s in Hf. cbn [String.length] in Hf.
    rewrite !app_assoc_s. cbn [String.append].
    rewrite Hx by (auto with lexer; lia).
    rewrite (skip_ws_head "," _ eq_refl). reduce_chars.
    rewrite skip_ws_join, IH by (try discriminate; lia). reflexivity.
Qed.

Lemma length_quote_pos s : 2 <= String.length (quote s).
Proof. unfold quote. cbn [String.length]. rewrite length_app_s. cbn. lia. Qed.

Lemma parse_members_join fs :
  Forall (fun kv => parses_back (snd kv)) fs -> fs <> [] ->
  forall f rest,
    2 * String.length (join "," (map member_string fs)) + 1 <= f ->
    parse_members f (join "," (map member_string fs) +:+ String "}" rest)
    = Some (map (fun kv => (fst kv, as_stored (snd kv))) fs, rest).
Proof.
  induction 1 as [|[k v] l Hx Hl IH]; [congruence|]. intros _ f rest Hf.
  destruct f as [|f]; [lia|]. cbn [snd] in Hx.
  pose proof (length_quote_pos k) as Hq.
  destruct l as [|y l].
  - rewrite join_map_single in *.
    unfold member_string in *. cbn [fst snd] in *.
    rewrite !length_app_s in Hf.
    rewrite !app_assoc_s, quote_app.
    cbn [parse_members]. change (code dquote =? 34)%N with true. cbv iota.
    rewrite parse_escape. cbn [String.append].
    rewrite (skip_ws_head ":" _ eq_refl). reduce_chars.
    rewrite skip_ws_stringify, Hx by (auto with lexer; lia).
    reflexivity.
  - rewrite join_map_cons in *.
    unfold member_string at 1. unfold member_string at 1 in Hf. cbn [fst snd] in *.
    rewrite !length_app_s in Hf. cbn [String.length] in Hf.
    rewrite !app_assoc_s, quote_app.
    cbn [parse_members]. change (code dquote =? 34)%N with true. cbv iota.
    rewrite parse_escape. cbn [String.append].
    rewrite (skip_ws_head ":" _ eq_refl). reduce_chars.
    rewrite skip_ws_stringify, Hx by (auto with lexer; lia).
    rewrite (skip_ws_head "," _ eq_refl). reduce_chars.
    assert (Hskip : forall t, skip_ws (join "," (map member_string (y :: l)) +:+ t)
                              = join "," (map member_string (y :: l)) +:+ t).
    { intros t. destruct l as [|p l].
      - rewrite join_map_single. unfold member_string.
        rewrite app_assoc_s, quote_app. apply (skip_ws_head dquote _ eq_refl).
      - rewrite join_map_cons. generalize (join "," (map member_string (p :: l))).
        intros j. unfold member_string.
        rewrite !app_assoc_s, quote_app. apply (skip_ws_head dquote _ eq_refl). }
    rewrite Hskip, IH by (try discriminate; lia). reflexivity.
Qed.

Lemma join_stringify_members fs :
  join "," (map (fun kv => quote (fst kv) +:+ ":" +:+ JSON_stringify (snd kv)) fs)
  = join "," (map member_string fs).
Proof. reflexivity. Qed.

Theorem parse_stringify v : well_formed v -> parses_back v.
Proof.
  induction v as [| b | n | x | s | l IH | fs IH] using json_ind;
    intros Hwf f rest Hrest Hf;
    (destruct f as [|f];
     [ match type of Hf with
       | context [JSON_stringify ?v] => pose proof (length_stringify_pos v)
       end; lia | ]).
  - destruct rest; reflexivity.
  - destruct b, rest; reflexivity.
  - cbn [JSON_stringify as_stored] in *.
    destruct (number_to_string_head n) as (c & s & E & Hc).
    pose proof (parse_number_to_string n rest Hwf Hrest) as Hp.
    pose proof (number_to_string_sign n c s Hwf E) as Hsign.
    rewrite E in *. cbn [String.append] in *.
    now rewrite parse_value_number, Hp, Hsign.
  - destruct x; cbn [JSON_stringify as_stored];
      [|destruct rest; reflexivity | destruct rest; reflexivity].
    assert (Hzero : number_ok (Num 0 0)) by (split; cbn; [reflexivity | lia]).
    pose proof (parse_number_to_string (Num 0 0) rest Hzero Hrest) as Hp.
    change (number_to_string (Num 0 0)) with "0" in Hp.
    cbn [String.append] in *.
    rewrite parse_value_number, Hp by (now right). reflexivity.
  - cbn [JSON_stringify]. rewrite quote_app.
    cbn [parse_value]. reduce_chars.
    change (code dquote =? 34)%N with true. cbv iota.
    now rewrite parse_escape.
  - apply well_formed_arr in Hwf.
    assert (Hpb : Forall parses_back l).
    { rewrite Forall_forall in *. auto. }
    cbn [JSON_stringify] in *. rewrite !length_app_s in Hf. cbn [String.length] in Hf.
    rewrite !app_assoc_s. cbn [String.append parse_value]. reduce_chars.
    destruct l as [|x l].
    + reflexivity.
    + rewrite skip_ws_join by discriminate.
      destruct (stringify_head x) as (c & s & E & _ & Hc & _).
      assert (Hj : exists t, join "," (map JSON_stringify (x :: l)) = String c t).
      { destruct l; [rewrite join_map_single | rewrite join_map_cons];
          rewrite E; cbn [String.append]; eauto. }
      destruct Hj as [t Ht]. rewrite Ht. cbn [String.append]. rewrite Hc.
      change (String c (t +:+ String "]" rest)) with (String c t +:+ String "]" rest).
      rewrite <- Ht, parse_elements_join by (try discriminate; auto; lia).
      reflexivity.
  - apply well_formed_obj in Hwf. destruct Hwf as [Hnd Hwf].
    assert (Hpb : Forall (fun kv => parses_back (snd kv)) fs).
    { rewrite Forall_forall in *. auto. }
    cbn [JSON_stringify] in *. rewrite join_stringify_members in *.
    rewrite !length_app_s in Hf. cbn [String.length] in Hf.
    rewrite !app_assoc_s. cbn [String.append parse_value]. reduce_chars.
    destruct fs as [|[k x] fs].
    + reflexivity.
    + assert (Hj : exists t, join "," (map member_string ((k, x) :: fs)) = String dquote t).
      { destruct fs; [rewrite join_map_single | rewrite join_map_cons];
          unfold member_string at 1; rewrite ?app_assoc_s, quote_app; eauto. }
      destruct Hj as [t Ht]. rewrite Ht. cbn [String.append].
      rewrite (skip_ws_head dquote _ eq_refl).
      change (dquote =? "}")%char with false. cbv iota.
      change (String dquote (t +:+ String "}" rest)) with (String dquote t +:+ String "}" rest).
      rewrite <- Ht, parse_members_join by (try discriminate; auto; lia).
      unfold obj_of_members. cbn [as_stored].
      rewrite Map_of_NoDup; [reflexivity|]. now rewrite map_map.
Qed.

(** What is stored is read back as [as_stored] says. *)
Theorem JSON_parse_stringify v :
  well_formed v -> JSON_parse (JSON_stringify v) = Some (as_stored v).
Proof.
  intros Hwf. unfold JSON_parse.
  pose proof (skip_ws_stringify v "") as Hs. rewrite app_nil_r_s in Hs. rewrite Hs.
  pose proof (parse_stringify v Hwf (2 * String.length (JSON_stringify v) + 2) "" I) as Hp.
  rewrite app_nil_r_s in Hp. rewrite Hp by lia. reflexivity.
Qed.

(** A value without an infinity or [-0] is read back as it was. *)
Corollary JSON_parse_stringify_storable v :
  well_formed v -> storable v -> JSON_parse (JSON_stringify v) = Some v.
Proof. intros Hwf Hs. rewrite JSON_parse_stringify by assumption. now rewrite Hs. Qed.

(** ** Maps and objects *)

Section MapFacts.
Context {V : Type}.
Implicit Types (m es : list (string * V)) (k : string) (v : V).

Lemma Map_get_set k k' v m :
  Map_get k (Map_set k' v m)
  = if String.eqb k k' then Some v else Map_get k m.
Proof.
  induction m as [|[k0 v0] m IH]; cbn.
  - reflexivity.
  - destruct (String.eqb_spec k' k0) as [->|Hne]; cbn.
    + destruct (String.eqb_spec k k0); reflexivity.
    + rewrite IH. destruct (String.eqb_spec k k0) as [->|]; [|reflexivity].
      destruct (String.eqb_spec k0 k'); [congruence | reflexivity].
Qed.

Lemma Map_set_keys k k' v m :
  In k (map fst (Map_set k' v m)) <-> k = k' \/ In k (map fst m).
Proof.
  induction m as [|[k0 v0] m IH]; cbn.
  - intuition congruence.
  - destruct (String.eqb_spec k' k0) as [->|Hne]; cbn.
    + intuition congruence.
    + rewrite IH. intuition congruence.
Qed.

Lemma Map_set_NoDup k v m :
  NoDup (map fst m) -> NoDup (map fst (Map_set k v m)).
Proof.
  induction m as [|[k0 v0] m IH]; cbn; intros H.
  - constructor; [intros [] | constructor].
  - inversion H as [|? ? Hnin Hnd]; subst.
    destruct (String.eqb_spec k k0) as [->|Hne]; cbn.
    + constructor; assumption.
    + constructor; [|auto]. rewrite Map_set_keys. intuition congruence.
Qed.

Lemma Map_set_In k v m e :
  In e (Map_set k v m) -> e = (k, v) \/ In e m.
Proof.
  induction m as [|[k0 v0] m IH]; cbn.
  - intuition congruence.
  - destruct (String.eqb_spec k k0) as [->|Hne]; cbn; intuition congruence.
Qed.

Lemma Map_of_snoc es k v : Map_of (es ++ [(k, v)]) = Map_set k v (Map_of es).
Proof. unfold Map_of. now rewrite fold_left_app. Qed.

Lemma Map_of_keys_NoDup es : NoDup (map fst (Map_of es)).
Proof.
  induction es as [|[k v] es IH] using rev_ind.
  - constructor.
  - rewrite Map_of_snoc. now apply Map_set_NoDup.
Qed.

Lemma Map_of_keys es k : In k (map fst (Map_of es)) <-> In k (map fst es).
Proof.
  induction es as [|[k' v] es IH] using rev_ind.
  - reflexivity.
  - rewrite Map_of_snoc, Map_set_keys, IH, map_app, in_app_iff. cbn. intuition.
Qed.

Lemma Map_of_In es e : In e (Map_of es) -> In e es.
Proof.
  induction es as [|[k' v] es IH] using rev_ind; [easy|].
  rewrite Map_of_snoc. intros H. apply Map_set_In in H.
  apply in_or_app. destruct H as [->|H]; [right; now left | left; auto].
Qed.

(** A map built from entries answers with the last entry given for the
    key. *)
Lemma Map_get_of es k :
  Map_get k (Map_of es)
  = option_map snd (find (fun e => String.eqb k (fst e)) (rev es)).
Proof.
  induction es as [|[k' v] es IH] using rev_ind; [reflexivity|].
  rewrite Map_of_snoc, Map_get_set, rev_app_distr. cbn.
  destruct (String.eqb k k'); [reflexivity | exact IH].
Qed.

Lemma Map_get_None k m : ~ In k (map fst m) -> Map_get k m = None.
Proof.
  induction m as [|[k0 v0] m IH]; cbn; intros H; [reflexivity|].
  destruct (String.eqb_spec k k0); [subst; tauto | apply IH; tauto].
Qed.

Lemma Map_get_In m k v :
  NoDup (map fst m) -> (In (k, v) m <-> Map_get k m = Some v).
Proof.
  induction m as [|[k0 v0] m IH]; cbn; intros Hnd.
  - split; [tauto | discriminate].
  - inversion Hnd as [|? ? Hnin Hnd']; subst.
    destruct (String.eqb_spec k k0) as [->|Hne].
    + split.
      * intros [E|Hin]; [congruence|]. exfalso. apply Hnin.
        change k0 with (fst (k0, v)). now apply in_map.
      * intros E. left. congruence.
    + rewrite <- IH by assumption. intuition congruence.
Qed.
End MapFacts.

Lemma obj_get_set k k' v fs :
  obj_get k (obj_set k' v fs) = if String.eqb k k' then Some v else obj_get k fs.
Proof. apply Map_get_set. Qed.

(** ** What [JSON.parse] returns is well formed *)

Lemma strip10_ok fuel m e :
  (m <> 0)%Z -> (Z.abs m < 2 ^ Z.of_nat (S fuel))%Z ->
  number_ok (strip10 fuel m e).
Proof.
  revert m e; induction fuel as [|f IH]; intros m e Hz Hb.
  - cbn [strip10]. change (2 ^ Z.of_nat 1)%Z with 2%Z in Hb.
    split; cbn [mant expo]; [lia|]. intros _.
    assert (m = 1 \/ m = -1)%Z as [->| ->] by lia; discriminate.
  - cbn [strip10]. destruct (Z.eqb_spec (m mod 10) 0) as [E|E].
    + assert (Hm : (m = 10 * (m / 10))%Z) by (pose proof (Z.div_mod m 10); lia).
      apply IH; [lia|].
      rewrite (Nat2Z.inj_succ (S f)), Z.pow_succ_r in Hb by lia. lia.
    + split; cbn [mant expo]; [lia | auto].
Qed.

Lemma normalize_number_ok m e : number_ok (normalize m e).
Proof.
  unfold normalize. destruct (Z.eqb_spec m 0) as [|Hz].
  - split; cbn; [reflexivity | congruence].
  - apply strip10_ok; [exact Hz|].
    rewrite Nat2Z.inj_succ, Z2Nat.id by apply Z.log2_nonneg.
    apply Z.log2_spec. lia.
Qed.

Lemma parse_number_ok s n rest : parse_number s = Some (n, rest) -> number_ok n.
Proof.
  unfold parse_number.
  destruct (lex_minus s) as [neg s1]. destruct (lex_digits s1) as [ip s2].
  destruct (int_part_ok ip); [|discriminate].
  destruct (lex_fraction s2) as [[fp s3]|]; [|discriminate].
  destruct (lex_exponent s3) as [[e s4]|]; [|discriminate].
  intros [= <- _]. apply normalize_number_ok.
Qed.

Lemma number_ok_opp m e : number_ok (Num m e) -> number_ok (Num (- m) e).
Proof.
  intros [H0 H1]. cbn [mant expo] in *.
  split; cbn [mant expo]; [intros; apply H0; lia|].
  intros Hz E. apply H1; [lia|].
  apply Z.mod_divide in E; [|lia]. apply Z.mod_divide; [lia|].
  destruct E as [q E]. exists (- q)%Z. lia.
Qed.

Lemma candidate_ok m e k s : candidate m e k = Some s -> number_ok s.
Proof.
  unfold candidate. destruct (scaled 2 m 1 (- e)) as [n d].
  destruct (scaled 10 n d _) as [num den]. cbv zeta.
  repeat match goal with
         | |- context [match ?b with true => _ | false => _ end] =>
             destruct b
         end;
    try discriminate; intros [= <-]; apply normalize_number_ok.
Qed.

Lemma shortest_ok m e s : shortest m e = Some s -> number_ok s.
Proof.
  unfold shortest. generalize 1%Z as k. generalize 17 as fuel.
  induction fuel as [|fuel IH]; intros k; cbn [shortest_from]; [discriminate|].
  destruct (candidate m e k) as [x|] eqn:E.
  - intros [= <-]. eapply candidate_ok; eauto.
  - apply IH.
Qed.

(** A Number value that is finite is held in normal form. *)
Lemma to_number_ok negative x n :
  to_number negative x = inl n -> number_ok n.
Proof.
  assert (Hzero : number_ok (Num 0 0)) by (split; cbn; [reflexivity | lia]).
  unfold to_number. cbv zeta.
  pose proof (normalize_number_ok (mant x) (expo x)) as Hx.
  destruct (normalize (mant x) (expo x)) as [mx ex]. cbn [mant expo].
  destruct (mx =? 0)%Z; [destruct negative; [discriminate | now intros [= <-]]|].
  destruct (round_decimal (Z.abs mx) ex) as [[m e]|]; [|discriminate].
  destruct (m =? 0)%Z; [destruct negative; [discriminate | now intros [= <-]]|].
  destruct (shortest m e) as [[ms es]|] eqn:E; [|now intros [= <-]].
  apply shortest_ok in E. intros [= <-]. cbn [mant expo].
  destruct negative; [now apply number_ok_opp | exact E].
Qed.

Lemma to_number_well_formed negative x :
  well_formed (json_of_number (to_number negative x)).
Proof.
  destruct (to_number negative x) as [n|y] eqn:E; [|exact I].
  cbn. eapply to_number_ok; eauto.
Qed.

Lemma well_formed_Map_of ms :
  Forall (fun kv => well_formed (snd kv)) ms ->
  well_formed (JObj (obj_of_members ms)).
Proof.
  intros H. apply well_formed_obj. split; [apply Map_of_keys_NoDup|].
  rewrite Forall_forall in *. intros e He. apply H. now apply Map_of_In.
Qed.

Lemma parse_well_formed f :
  (forall s v r, parse_value f s = Some (v, r) -> well_formed v)
  /\ (forall s vs r, parse_elements f s = Some (vs, r) -> Forall well_formed vs)
  /\ (forall s ms r, parse_members f s = Some (ms, r) ->
        Forall (fun kv => well_formed (snd kv)) ms).
Proof.
  induction f as [|f (IHv & IHe & IHm)]; [repeat split; discriminate|].
  repeat split.
  - intros s v r. cbn [parse_value]. destruct s as [|c s0]; [discriminate|].
    destruct (c =? "{")%char.
    { destruct (skip_ws s0) as [|c' r']; [discriminate|].
      destruct (c' =? "}")%char.
      - intros [= <- _]. apply well_formed_obj. split; constructor.
      - destruct (parse_members f (String c' r')) as [[ms rest]|] eqn:E; [|discriminate].
        intros [= <- _]. apply well_formed_Map_of. eauto. }
    destruct (c =? "[")%char.
    { destruct (skip_ws s0) as [|c' r']; [discriminate|].
      destruct (c' =? "]")%char.
      - intros [= <- _]. exact I.
      - destruct (parse_elements f (String c' r')) as [[vs rest]|] eqn:E; [|discriminate].
        intros [= <- _]. apply well_formed_arr. eauto. }
    destruct (code c =? 34)%N.
    { destruct (parse_string_body s0) as [[str rest]|]; [|discriminate].
      intros [= <- _]. exact I. }
    destruct (prefix "true" (String c s0)); [intros [= <- _]; exact I|].
    destruct (prefix "false" (String c s0)); [intros [= <- _]; exact I|].
    destruct (prefix "null" (String c s0)); [intros [= <- _]; exact I|].
    destruct (parse_number (String c s0)) as [[n rest]|] eqn:E; [|discriminate].
    intros [= <- _]. apply to_number_well_formed.
  - intros s vs r. cbn [parse_elements].
    destruct (parse_value f s) as [[v r0]|] eqn:Ev; [|discriminate].
    destruct (skip_ws r0) as [|c r']; [discriminate|].
    destruct (c =? "]")%char.
    { intros [= <- _]. constructor; eauto. }
    destruct (c =? ",")%char; [|discriminate].
    destruct (parse_elements f (skip_ws r')) as [[vs' rest]|] eqn:Ee; [|discriminate].
    intros [= <- _]. constructor; eauto.
  - intros s ms r. cbn [parse_members]. destruct s as [|q0 r0]; [discriminate|].
    destruct (code q0 =? 34)%N; [|discriminate].
    destruct (parse_string_body r0) as [[k r1]|]; [|discriminate].
    destruct (skip_ws r1) as [|c r2]; [discriminate|].
    destruct (c =? ":")%char; [|discriminate].
    destruct (parse_value f (skip_ws r2)) as [[v r3]|] eqn:Ev; [|discriminate].
    destruct (skip_ws r3) as [|c' r4]; [discriminate|].
    destruct (c' =? "}")%char.
    { intros [= <- _]. constructor; [cbn; eauto | constructor]. }
    destruct (c' =? ",")%char; [|discriminate].
    destruct (parse_members f (skip_ws r4)) as [[ms' rest]|] eqn:Em; [|discriminate].
    intros [= <- _]. constructor; [cbn; eauto | eauto].
Qed.

Theorem JSON_parse_well_formed s v : JSON_parse s = Some v -> well_formed v.
Proof.
  unfold JSON_parse.
  destruct (parse_value _ (skip_ws s)) as [[v' rest]|] eqn:E; [|discriminate].
  destruct (skip_ws rest); [|discriminate]. intros [= <-].
  eapply parse_well_formed; eauto.
Qed.

(** ** Spread and property reads *)

Lemma indexed_from_keys {A} (l : list A) i k :
  In k (map fst (indexed_from i l)) -> all_digits k.
Proof.
  revert i; induction l as [|x l IH]; intros i; cbn; [tauto|].
  intros [<- | H]; [|eauto].
  unfold Z_to_string. destruct (Z.ltb_spec (Z.of_nat i) 0); [lia|].
  apply Z_digits_all. lia.
Qed.

(** Spreading a value keeps its named properties: those of an object, none
    for the other values, whose own properties are indices. *)
Lemma spread_prop k data :
  well_formed data -> ~ all_digits k ->
  obj_get k (spread data) = prop k data.
Proof.
  intros Hwf Hk. unfold spread, obj_of_members.
  destruct data as [| b | n | x | s | l | fs]; cbn [own_entries prop]; try reflexivity.
  - apply Map_get_None. rewrite Map_of_keys. intros H. apply Hk.
    eapply indexed_from_keys; eauto.
  - apply Map_get_None. rewrite Map_of_keys. intros H. apply Hk.
    eapply indexed_from_keys; eauto.
  - apply well_formed_obj in Hwf. destruct Hwf as [Hnd _].
    now rewrite Map_of_NoDup.
Qed.

Lemma prop_make_report k data id createdAt sources :
  well_formed data -> ~ all_digits k ->
  k <> "id" -> k <> "createdAt" -> k <> "sources" ->
  prop k (make_report data id createdAt sources) = prop k data.
Proof.
  intros Hwf Hk H1 H2 H3. unfold make_report. cbn [prop].
  rewrite !obj_get_set.
  destruct (String.eqb_spec k "sources"); [contradiction|].
  destruct (String.eqb_spec k "createdAt"); [contradiction|].
  destruct (String.eqb_spec k "id"); [contradiction|].
  now apply spread_prop.
Qed.

Lemma prop_sources_make_report data id createdAt sources :
  prop "sources" (make_report data id createdAt sources)
  = Some (JArr (map GroundingSource_js sources)).
Proof. unfold make_report. cbn [prop]. now rewrite obj_get_set. Qed.

(** ** The generator, case by case *)

(** What a call of [generatePoliticalReport] that returns has gone through. *)
Lemma generate_Ok env topic historyContext report :
  snd (generatePoliticalReport env topic historyContext) = Ok report ->
  exists response responseText data,
    generateContent env (make_request env topic historyContext) = Ok response
    /\ text response = Some responseText
    /\ responseText <> ""
    /\ JSON_parse (clean responseText) = Some data
    /\ report = make_report data (randomUUID env) (now env)
                  (uniqueSources (extract_sources (chunks_of response))).
Proof.
  unfold generatePoliticalReport, try_generate. cbv zeta.
  destruct (getAiClient env); [|discriminate].
  destruct (generateContent env _) as [response|m]; [|discriminate].
  destruct (text response) as [t|] eqn:Et; [|discriminate].
  destruct (String.eqb_spec t "") as [|Hne]; [discriminate|].
  destruct (JSON_parse (clean t)) as [data|] eqn:Ep; [|discriminate].
  cbn. intros [= <-]. eauto 10.
Qed.

Lemma generate_Throw env topic historyContext m :
  snd (generatePoliticalReport env topic historyContext) = Throw m ->
  m = MISSING_KEY \/ m = GENERATION_FAILED.
Proof.
  unfold generatePoliticalReport, getAiClient.
  destruct (API_KEY env) as [k|]; [destruct (String.eqb k "")|].
  - cbn. intros [= <-]. now left.
  - destruct (try_generate env topic historyContext) as [events [r|m']]; cbn;
      [discriminate | intros [= <-]; now right].
  - cbn. intros [= <-]. now left.
Qed.

(** ** De-duplication of sources *)

Lemma map_snd_keyed {A} (f : A -> string) (m : list (string * A)) :
  (forall e, In e m -> fst e = f (snd e)) ->
  map f (map snd m) = map fst m.
Proof.
  induction m as [|e m IH]; cbn; intros H; [reflexivity|].
  rewrite IH by auto. now rewrite (H e) by now left.
Qed.

Lemma find_map {A B} (p : B -> bool) (g : A -> B) (l : list A) :
  find p (map g l) = option_map g (find (fun x => p (g x)) l).
Proof.
  induction l as [|x l IH]; cbn; [reflexivity|].
  destruct (p (g x)); [reflexivity | exact IH].
Qed.

Lemma source_entries_keyed sources e :
  In e (Map_of (source_entries sources)) -> fst e = gs_uri (snd e).
Proof.
  intros H. apply Map_of_In in H. unfold source_entries in H.
  apply in_map_iff in H. destruct H as (s & <- & _). reflexivity.
Qed.

Lemma uniqueSources_uris sources :
  map gs_uri (uniqueSources sources) = map fst (Map_of (source_entries sources)).
Proof. apply map_snd_keyed, source_entries_keyed. Qed.

Lemma uniqueSources_In sources s :
  In s (uniqueSources sources)
  <-> Map_get (gs_uri s) (Map_of (source_entries sources)) = Some s.
Proof.
  rewrite <- Map_get_In by apply Map_of_keys_NoDup.
  unfold uniqueSources, Map_values. rewrite in_map_iff. split.
  - intros ([k v] & E & Hin). cbn in E. subst v.
    pose proof (source_entries_keyed _ _ Hin) as Hk. cbn in Hk. now subst k.
  - intros H. now exists (gs_uri s, s).
Qed.

Lemma Map_get_entries sources u :
  Map_get u (Map_of (source_entries sources)) = last_with_uri u sources.
Proof.
  rewrite Map_get_of. unfold source_entries, last_with_uri.
  rewrite <- map_rev, find_map. cbn [fst].
  now destruct (find _ (rev sources)).
Qed.

(** ** The test of well-formedness *)

Lemma distinctb_NoDup l : distinctb l = true -> NoDup l.
Proof.
  induction l as [|x l IH]; cbn; intros H; [constructor|].
  apply andb_prop in H. destruct H as [Hx Hl]. constructor; [|auto].
  intros Hin. apply negb_true_iff in Hx.
  assert (existsb (String.eqb x) l = true); [|congruence].
  apply existsb_exists. exists x. split; [exact Hin | apply String.eqb_refl].
Qed.

Lemma well_formedb_sound v : well_formedb v = true -> well_formed v.
Proof.
  induction v as [| b | n | x | s | l IH | fs IH] using json_ind; cbn [well_formedb];
    intros H; try exact I.
  - unfold number_okb in H. split; cbn.
    + intros E. rewrite E in H. cbn in H. now apply Z.eqb_eq.
    + intros Hz E. destruct (Z.eqb_spec (mant n) 0); [contradiction|].
      rewrite E in H. discriminate H.
  - apply well_formed_arr. rewrite forallb_forall in H.
    rewrite Forall_forall in *. auto.
  - apply andb_prop in H. destruct H as [Hd Hf].
    apply well_formed_obj. split; [now apply distinctb_NoDup|].
    rewrite forallb_forall in Hf. rewrite Forall_forall in *. auto.
Qed.

(** ** The history store *)

(** After [setHistory], a reload reads back the value just stored, as
    [JSON.stringify] could write it. *)
Lemma loadAll_setHistory updated st :
  well_formed updated ->
  JSON_stringify updated <> "" ->
  loadAll (localStorage (setHistory updated st)) = as_stored updated.
Proof.
  intros Hwf Hne. unfold loadAll, loadHistory, setHistory. cbn [localStorage initial].
  rewrite lookup_insert_eq.
  destruct (String.eqb_spec (JSON_stringify updated) ""); [contradiction|].
  now rewrite JSON_parse_stringify.
Qed.

Lemma loadAll_setHistory_array l st :
  Forall well_formed l ->
  loadAll (localStorage (setHistory (JArr l) st)) = JArr (map as_stored l).
Proof.
  intros H. apply (loadAll_setHistory (JArr l)).
  - now apply well_formed_arr.
  - discriminate.
Qed.

(** ** Values that are stored without loss *)

Lemma map_as_stored l : Forall storable l -> map as_stored l = l.
Proof. induction 1 as [|x l Hx _ IH]; cbn [map]; [|rewrite Hx, IH]; reflexivity. Qed.

Lemma storable_arr l : storable (JArr l) <-> Forall storable l.
Proof.
  unfold storable at 1. cbn [as_stored]. split.
  - intros [= H]. induction l as [|x l IH]; [constructor|].
    cbn [map] in H. injection H as Hx Hl. constructor; auto.
  - intros H. now rewrite map_as_stored.
Qed.

Lemma storableb_sound v : storableb v = true -> storable v.
Proof.
  unfold storable.
  induction v as [| b | n | x | s | l IH | fs IH] using json_ind;
    cbn [storableb as_stored]; intros H; try reflexivity; try discriminate.
  - destruct (to_number _ n) as [[m e]|]; [|discriminate]. cbn [mant expo] in H.
    apply andb_prop in H. destruct H as [Hm He].
    apply Z.eqb_eq in Hm, He. subst. now destruct n.
  - f_equal. rewrite forallb_forall in H. rewrite Forall_forall in IH.
    rewrite <- (map_id l) at 2. apply map_ext_in. intros y Hy. auto.
  - f_equal. rewrite forallb_forall in H. rewrite Forall_forall in IH.
    rewrite <- (map_id fs) at 2. apply map_ext_in. intros [k y] Hy.
    cbn [fst snd]. f_equal. apply (IH (k, y) Hy). apply (H (k, y) Hy).
Qed.

Lemma loadAll_setHistory_storable l st :
  Forall well_formed l -> Forall storable l ->
  loadAll (localStorage (setHistory (JArr l) st)) = JArr l.
Proof.
  intros Hwf Hs. rewrite loadAll_setHistory_array by assumption.
  now rewrite map_as_stored.
Qed.

Lemma filter_history_total id l :
  Forall (fun r => r <> JNull) l ->
  filter_history id l = Ok (filter (id_differs id) l).
Proof.
  induction 1 as [|r l Hr Hl IH]; [reflexivity|].
  cbn [filter_history filter]. rewrite IH. now destruct r.
Qed.

Lemma Forall_filter {A} (P : A -> Prop) f (l : list A) :
  Forall P l -> Forall P (filter f l).
Proof.
  induction 1 as [|x l Hx Hl IH]; cbn; [constructor|].
  destruct (f x); [constructor|]; auto.
Qed.

(** ** The streaming loop *)

Lemma nonempty_false t : nonempty t = false -> t = "".
Proof.
  unfold nonempty. destruct (String.eqb_spec t ""); [auto | discriminate].
Qed.

Lemma kept_by_refl bot msgs : Forall2 (kept_by bot) msgs msgs.
Proof. induction msgs; constructor; auto. repeat split. Qed.

Lemma kept_by_with_text bot full old new :
  kept_by bot old new -> kept_by bot old (with_text bot full new).
Proof.
  intros (Hid & Hrole & Hsame). unfold with_text.
  destruct (String.eqb_spec (msg_id new) bot) as [E|E].
  - repeat split; cbn; try assumption. intros Hne. congruence.
  - now repeat split.
Qed.

Lemma stream_loop_full bot chunks full msgs :
  fst (stream_loop bot chunks (full, msgs)) = full +:+ deltas_text chunks.
Proof.
  unfold stream_loop. revert full msgs.
  induction chunks as [|[t|] chunks IH]; intros full msgs;
    cbn [fold_left deltas_text stream_step].
  - cbn. now rewrite app_nil_r_s.
  - destruct (nonempty t) eqn:E.
    + rewrite IH. apply app_assoc_s.
    + apply nonempty_false in E. subst t. apply IH.
  - apply IH.
Qed.

Lemma stream_loop_kept bot chunks full msgs0 msgs :
  Forall2 (kept_by bot) msgs0 msgs ->
  Forall2 (kept_by bot) msgs0 (snd (stream_loop bot chunks (full, msgs))).
Proof.
  unfold stream_loop. revert full msgs.
  induction chunks as [|[t|] chunks IH]; intros full msgs H;
    cbn [fold_left stream_step].
  - exact H.
  - destruct (nonempty t); [|now apply IH].
    apply IH. clear IH. induction H; constructor; auto using kept_by_with_text.
  - now apply IH.
Qed.

(** The placeholder, last in the list, carries the text received so far. *)
Lemma stream_loop_placeholder bot chunks full msgs p :
  msg_id p = bot -> msg_text p = full ->
  snd (stream_loop bot chunks (full, msgs ++ [p]))
  = snd (stream_loop bot chunks (full, msgs))
    ++ [{| msg_id := bot; msg_role := msg_role p;
           msg_text := full +:+ deltas_text chunks;
           msg_timestamp := msg_timestamp p |}].
Proof.
  unfold stream_loop. revert full msgs p.
  induction chunks as [|[t|] chunks IH]; intros full msgs p Hid Htext;
    cbn [fold_left deltas_text stream_step].
  - cbn. rewrite app_nil_r_s. destruct p; cbn in *. now subst.
  - destruct (nonempty t) eqn:E.
    + rewrite map_app. cbn [map]. unfold with_text at 2.
      rewrite Hid, String.eqb_refl.
      rewrite IH by reflexivity. cbn. now rewrite app_assoc_s.
    + apply nonempty_false in E. subst t. now apply IH.
  - now apply IH.
Qed.

Lemma deltas_text_app a b :
  deltas_text (a ++ b) = deltas_text a +:+ deltas_text b.
Proof.
  induction a as [|[t|] a IH]; cbn; [reflexivity | | exact IH].
  now rewrite IH, app_assoc_s.
Qed.

(** ** The fuel of the parser is enough

    Whatever is parsed consumes input, so twice the length of the text
    bounds the depth of the recursion: more fuel never changes the answer,
    and [None] always stands for a syntax error. *)

Lemma length_skip_ws s : String.length (skip_ws s) <= String.length s.
Proof.
  induction s as [|c s IH]; cbn [skip_ws]; [lia|].
  destruct (is_json_ws c); cbn [String.length]; lia.
Qed.

Lemma lex_digits_length s ds rest :
  lex_digits s = (ds, rest) ->
  String.length s = String.length ds + String.length rest.
Proof.
  revert ds rest; induction s as [|c s IH]; cbn [lex_digits]; intros ds rest.
  - intros [= <- <-]. reflexivity.
  - destruct (is_digit c).
    + destruct (lex_digits s) as [ds' rest'] eqn:E. intros [= <- <-].
      cbn [String.length]. rewrite (IH _ _ eq_refl). lia.
    + intros [= <- <-]. reflexivity.
Qed.

Lemma lex_minus_length s neg rest :
  lex_minus s = (neg, rest) -> String.length rest <= String.length s.
Proof.
  destruct s as [|c s]; cbn [lex_minus].
  - intros [= _ <-]. lia.
  - destruct (c =? "-")%char; intros [= _ <-]; cbn [String.length]; lia.
Qed.

Lemma lex_fraction_length s fp rest :
  lex_fraction s = Some (fp, rest) -> String.length rest <= String.length s.
Proof.
  destruct s as [|c s]; cbn [lex_fraction].
  - intros [= _ <-]. lia.
  - destruct (c =? ".")%char.
    + destruct (lex_digits s) as [ds r] eqn:E.
      apply lex_digits_length in E.
      destruct ds; [discriminate|]. intros [= _ <-]. cbn [String.length] in *. lia.
    + intros [= _ <-]. lia.
Qed.

Lemma lex_exponent_length s e rest :
  lex_exponent s = Some (e, rest) -> String.length rest <= String.length s.
Proof.
  destruct s as [|c s]; cbn [lex_exponent].
  - intros [= _ <-]. lia.
  - destruct ((c =? "e")%char || (c =? "E")%char).
    + destruct (lex_exp_sign s) as [eneg r'] eqn:Es.
      assert (String.length r' <= String.length s).
      { destruct s as [|c' s']; cbn [lex_exp_sign] in Es.
        - injection Es as _ <-. lia.
        - destruct (c' =? "-")%char; [|destruct (c' =? "+")%char];
            injection Es as _ <-; cbn [String.length]; lia. }
      destruct (lex_digits r') as [ds r] eqn:E.
      apply lex_digits_length in E.
      destruct ds; [discriminate|]. intros [= _ <-]. cbn [String.length] in *. lia.
    + intros [= _ <-]. lia.
Qed.

Lemma parse_number_length s n rest :
  parse_number s = Some (n, rest) -> String.length rest < String.length s.
Proof.
  unfold parse_number.
  destruct (lex_minus s) as [neg s1] eqn:Em. apply lex_minus_length in Em.
  destruct (lex_digits s1) as [ip s2] eqn:Ed. apply lex_digits_length in Ed.
  destruct ip as [|d ip']; [discriminate|].
  destruct (int_part_ok (String d ip')); [|discriminate].
  destruct (lex_fraction s2) as [[fp s3]|] eqn:Ef; [|discriminate].
  apply lex_fraction_length in Ef.
  destruct (lex_exponent s3) as [[e s4]|] eqn:Ee; [|discriminate].
  apply lex_exponent_length in Ee.
  intros [= _ <-]. cbn [String.length] in *. lia.
Qed.

Lemma prepend_Some p r k rest :
  prepend p r = Some (k, rest) -> exists k', r = Some (k', rest).
Proof.
  destruct r as [[k' rest']|]; cbn; [|discriminate].
  intros [= _ <-]. eauto.
Qed.

Lemma parse_string_body_length n :
  forall s k rest,
    String.length s <= n ->
    parse_string_body s = Some (k, rest) ->
    String.length rest < String.length s.
Proof.
  induction n as [|n IH]; intros s k rest Hn.
  - destruct s; [discriminate | cbn in Hn; lia].
  - destruct s as [|c r]; [discriminate|]. cbn [parse_string_body String.length] in *.
    assert (Hrec : forall x, String.length x <= String.length r ->
              (exists k'', parse_string_body x = Some (k'', rest)) ->
              String.length rest < S (String.length r)).
    { intros x Hx [k'' E]. apply IH in E; lia. }
    destruct (code c =? 34)%N; [intros [= _ <-]; lia|].
    destruct (code c =? 92)%N.
    + destruct r as [|e r1]; [discriminate|]. cbn [String.length] in *.
      destruct (simple_escape e).
      { intros H. apply prepend_Some in H. eapply (Hrec r1); [lia | exact H]. }
      destruct (e =? "u")%char; [|discriminate].
      destruct r1 as [|h1 [|h2 [|h3 [|h4 r2]]]]; try discriminate.
      cbn [String.length] in *.
      destruct (hex4 h1 h2 h3 h4) as [cu|]; [|discriminate].
      assert (Hplain : prepend (utf8 cu) (parse_string_body r2) = Some (k, rest) ->
                       String.length rest < S (S (S (S (S (S (String.length r2))))))).
      { intros H. apply prepend_Some in H. destruct H as [k' E]. apply IH in E; lia. }
      destruct (is_high_surrogate cu); [|exact Hplain].
      destruct r2 as [|b1 [|b2 [|l1 [|l2 [|l3 [|l4 r3]]]]]]; try exact Hplain.
      destruct (hex4 l1 l2 l3 l4) as [lo|]; [|exact Hplain].
      destruct (is_low_surrogate lo && (b1 =? "\")%char && (b2 =? "u")%char);
        [|exact Hplain].
      intros H. apply prepend_Some in H. destruct H as [k' E].
      cbn [String.length] in *. apply IH in E; lia.
    + destruct (code c <? 32)%N; [discriminate|].
      intros H. apply prepend_Some in H. eapply (Hrec r); [lia | exact H].
Qed.

Lemma parse_string_length s k rest :
  parse_string_body s = Some (k, rest) -> String.length rest < String.length s.
Proof. now apply (parse_string_body_length (String.length s)). Qed.

Lemma skip_ws_cons s c r :
  skip_ws s = String c r -> S (String.length r) <= String.length s.
Proof.
  intros E. pose proof (length_skip_ws s) as H. rewrite E in H. exact H.
Qed.

(** Parsing consumes input. *)
Lemma parse_consumes f :
  (forall s v r, parse_value f s = Some (v, r) -> String.length r < String.length s)
  /\ (forall s vs r, parse_elements f s = Some (vs, r) ->
        String.length r < String.length s)
  /\ (forall s ms r, parse_members f s = Some (ms, r) ->
        String.length r < String.length s).
Proof.
  induction f as [|f (IHv & IHe & IHm)]; [repeat split; discriminate|].
  repeat split.
  - intros s v r. cbn [parse_value]. destruct s as [|c s0]; [discriminate|].
    cbn [String.length].
    destruct (c =? "{")%char.
    { destruct (skip_ws s0) as [|c' r'] eqn:Es; [discriminate|].
      apply skip_ws_cons in Es.
      destruct (c' =? "}")%char; [intros [= _ <-]; lia|].
      destruct (parse_members f (String c' r')) as [[ms rest]|] eqn:E; [|discriminate].
      apply IHm in E. cbn [String.length] in E. intros [= _ <-]. lia. }
    destruct (c =? "[")%char.
    { destruct (skip_ws s0) as [|c' r'] eqn:Es; [discriminate|].
      apply skip_ws_cons in Es.
      destruct (c' =? "]")%char; [intros [= _ <-]; lia|].
      destruct (parse_elements f (String c' r')) as [[vs rest]|] eqn:E; [|discriminate].
      apply IHe in E. cbn [String.length] in E. intros [= _ <-]. lia. }
    destruct (code c =? 34)%N.
    { destruct (parse_string_body s0) as [[str rest]|] eqn:E; [|discriminate].
      apply parse_string_length in E. intros [= _ <-]. lia. }
    assert (Hdrop : forall n, String.length (drop n s0) < S (String.length s0))
      by (intros n; rewrite length_drop; lia).
    destruct (prefix "true" (String c s0)); [intros [= _ <-]; apply (Hdrop 3)|].
    destruct (prefix "false" (String c s0)); [intros [= _ <-]; apply (Hdrop 4)|].
    destruct (prefix "null" (String c s0)); [intros [= _ <-]; apply (Hdrop 3)|].
    destruct (parse_number (String c s0)) as [[n rest]|] eqn:E; [|discriminate].
    apply parse_number_length in E. cbn [String.length] in E. intros [= _ <-]. lia.
  - intros s vs r. cbn [parse_elements].
    destruct (parse_value f s) as [[v r0]|] eqn:Ev; [|discriminate].
    apply IHv in Ev.
    destruct (skip_ws r0) as [|c r'] eqn:Es; [discriminate|]. apply skip_ws_cons in Es.
    destruct (c =? "]")%char; [intros [= _ <-]; lia|].
    destruct (c =? ",")%char; [|discriminate].
    destruct (parse_elements f (skip_ws r')) as [[vs' rest]|] eqn:Ee; [|discriminate].
    apply IHe in Ee. pose proof (length_skip_ws r'). intros [= _ <-]. lia.
  - intros s ms r. cbn [parse_members]. destruct s as [|q0 r0]; [discriminate|].
    cbn [String.length].
    destruct (code q0 =? 34)%N; [|discriminate].
    destruct (parse_string_body r0) as [[k r1]|] eqn:Ek; [|discriminate].
    apply parse_string_length in Ek.
    destruct (skip_ws r1) as [|c r2] eqn:Es1; [discriminate|]. apply skip_ws_cons in Es1.
    destruct (c =? ":")%char; [|discriminate].
    destruct (parse_value f (skip_ws r2)) as [[v r3]|] eqn:Ev; [|discriminate].
    apply IHv in Ev. pose proof (length_skip_ws r2).
    destruct (skip_ws r3) as [|c' r4] eqn:Es3; [discriminate|]. apply skip_ws_cons in Es3.
    destruct (c' =? "}")%char; [intros [= _ <-]; lia|].
    destruct (c' =? ",")%char; [|discriminate].
    destruct (parse_members f (skip_ws r4)) as [[ms' rest]|] eqn:Em; [|discriminate].
    apply IHm in Em. pose proof (length_skip_ws r4). intros [= _ <-]. lia.
Qed.

(** Two amounts of fuel above the bound give the same answer. *)
Lemma parse_fuel_irrelevant f :
  (forall g s, 2 * String.length s <= f -> 2 * String.length s <= g ->
     parse_value f s = parse_value g s)
  /\ (forall g s, 2 * String.length s + 1 <= f -> 2 * String.length s + 1 <= g ->
        parse_elements f s = parse_elements g s)
  /\ (forall g s, 2 * String.length s + 1 <= f -> 2 * String.length s + 1 <= g ->
        parse_members f s = parse_members g s).
Proof.
  induction f as [|f (IHv & IHe & IHm)].
  - repeat split; intros g s Hf Hg; try lia.
    destruct s; [now destruct g | cbn in Hf; lia].
  - repeat split; intros g s Hf Hg.
    + destruct s as [|c s0]; [now destruct g|].
      destruct g as [|g]; [cbn in Hg; lia|].
      cbn [String.length] in *. cbn [parse_value].
      destruct (c =? "{")%char.
      { destruct (skip_ws s0) as [|c' r'] eqn:Es; [reflexivity|].
        apply skip_ws_cons in Es.
        destruct (c' =? "}")%char; [reflexivity|].
        rewrite (IHm g); [reflexivity | |]; cbn [String.length]; lia. }
      destruct (c =? "[")%char; [|reflexivity].
      destruct (skip_ws s0) as [|c' r'] eqn:Es; [reflexivity|].
      apply skip_ws_cons in Es.
      destruct (c' =? "]")%char; [reflexivity|].
      rewrite (IHe g); [reflexivity | |]; cbn [String.length]; lia.
    + destruct g as [|g]; [lia|]. cbn [parse_elements].
      rewrite (IHv g) by lia.
      destruct (parse_value g s) as [[v r0]|] eqn:Ev; [|reflexivity].
      apply parse_consumes in Ev.
      destruct (skip_ws r0) as [|c r'] eqn:Es; [reflexivity|]. apply skip_ws_cons in Es.
      destruct (c =? "]")%char; [reflexivity|].
      destruct (c =? ",")%char; [|reflexivity].
      pose proof (length_skip_ws r').
      rewrite (IHe g); [reflexivity | |]; lia.
    + destruct g as [|g]; [lia|]. cbn [parse_members].
      destruct s as [|q0 r0]; [reflexivity|].
      cbn [String.length] in *.
      destruct (code q0 =? 34)%N; [|reflexivity].
      destruct (parse_string_body r0) as [[k r1]|] eqn:Ek; [|reflexivity].
      apply parse_string_length in Ek.
      destruct (skip_ws r1) as [|c r2] eqn:Es1; [reflexivity|]. apply skip_ws_cons in Es1.
      destruct (c =? ":")%char; [|reflexivity].
      pose proof (length_skip_ws r2).
      rewrite (IHv g) by lia.
      destruct (parse_value g (skip_ws r2)) as [[v r3]|] eqn:Ev; [|reflexivity].
      apply parse_consumes in Ev.
      destruct (skip_ws r3) as [|c' r4] eqn:Es3; [reflexivity|]. apply skip_ws_cons in Es3.
      destruct (c' =? "}")%char; [reflexivity|].
      destruct (c' =? ",")%char; [|reflexivity].
      pose proof (length_skip_ws r4).
      rewrite (IHm g); [reflexivity | |]; lia.
Qed.

(** [JSON.parse] gives the answer that any larger fuel gives: its [None] is
    a syntax error, never a lack of fuel. *)
Theorem JSON_parse_fuel s f :
  2 * String.length s + 2 <= f ->
  parse_value f (skip_ws s) = parse_value (2 * String.length s + 2) (skip_ws s).
Proof.
  intros H. pose proof (length_skip_ws s).
  apply parse_fuel_irrelevant; lia.
Qed.

(** ** The values of the application are well formed *)

Lemma well_formed_obj_set k v fs :
  well_formed (JObj fs) -> well_formed v -> well_formed (JObj (obj_set k v fs)).
Proof.
  rewrite !well_formed_obj. intros [Hnd Hall] Hv. split.
  - now apply Map_set_NoDup.
  - rewrite Forall_forall in *. intros e He.
    apply Map_set_In in He. destruct He as [-> | He]; [exact Hv | auto].
Qed.

Lemma indexed_from_values {A} (P : A -> Prop) i (l : list A) :
  Forall P l -> Forall (fun kv => P (snd kv)) (indexed_from i l).
Proof.
  intros H. revert i. induction H; intros i; cbn; constructor; auto.
Qed.

Lemma well_formed_spread data :
  well_formed data -> well_formed (JObj (spread data)).
Proof.
  intros Hwf. apply well_formed_Map_of.
  destruct data as [| b | n | x | s | l | fs]; cbn [own_entries]; try constructor.
  - apply (indexed_from_values well_formed). apply Forall_map.
    apply Forall_forall. intros; exact I.
  - apply (indexed_from_values well_formed). now apply well_formed_arr.
  - apply well_formed_obj in Hwf. apply Hwf.
Qed.

Lemma well_formed_sources sources :
  well_formed (JArr (map GroundingSource_js sources)).
Proof.
  apply well_formed_arr, Forall_map, Forall_forall. intros s _.
  apply well_formedb_sound. reflexivity.
Qed.

Lemma well_formed_make_report data id createdAt sources :
  well_formed data -> well_formed (make_report data id createdAt sources).
Proof.
  intros H. unfold make_report.
  repeat apply well_formed_obj_set;
    [now apply well_formed_spread | exact I | apply normalize_number_ok
    | apply well_formed_sources].
Qed.

(** A report that the generator returns is well formed. *)
Theorem generate_well_formed env topic historyContext report :
  snd (generatePoliticalReport env topic historyContext) = Ok report ->
  well_formed report.
Proof.
  intros H. destruct (generate_Ok _ _ _ _ H) as (resp & t & data & _ & _ & _ & Hp & ->).
  apply well_formed_make_report. eauto using JSON_parse_well_formed.
Qed.

(** So is the history found at start-up, and it stays so. *)
Theorem loadAll_well_formed storage : well_formed (loadAll storage).
Proof.
  unfold loadAll, loadHistory. cbn [localStorage initial].
  destruct (storage !! HISTORY_KEY) as [saved|]; [|exact I].
  destruct (String.eqb saved ""); [exact I|].
  destruct (JSON_parse saved) as [v|] eqn:E; [|exact I].
  cbn [history]. eauto using JSON_parse_well_formed.
Qed.

Lemma iterate_well_formed v items :
  well_formed v -> iterate v = Ok items -> Forall well_formed items.
Proof.
  destruct v as [| b | n | x | s | l | fs]; cbn [iterate]; try discriminate.
  - intros _ [= <-]. apply Forall_map, Forall_forall. intros; exact I.
  - intros H [= <-]. now apply well_formed_arr.
Qed.

Theorem saveToHistory_well_formed newReport st st' :
  well_formed newReport -> well_formed (history st) ->
  saveToHistory newReport st = Ok st' ->
  well_formed (history st').
Proof.
  intros Hr Hh. unfold saveToHistory.
  destruct (iterate (history st)) as [items|] eqn:E; [|discriminate].
  intros [= <-]. cbn [history setHistory]. apply well_formed_arr.
  constructor; eauto using iterate_well_formed.
Qed.

Lemma filter_history_sub id l kept :
  filter_history id l = Ok kept -> forall r, In r kept -> In r l.
Proof.
  revert kept; induction l as [|x l IH]; intros kept.
  - intros [= <-] r [].
  - destruct x; cbn [filter_history]; try discriminate;
      (destruct (filter_history id l) as [kept'|]; [|discriminate];
       intros [= <-] r Hin;
       try match type of Hin with
           | In _ (if ?c then _ else _) => destruct c
           end;
       cbn in Hin |- *; intuition eauto).
Qed.

Theorem deleteFromHistory_well_formed id st st' :
  well_formed (history st) ->
  deleteFromHistory id st = Ok st' ->
  well_formed (history st').
Proof.
  unfold deleteFromHistory. destruct (history st) as [| | | | | l |]; try discriminate.
  intros Hl. destruct (filter_history id l) as [kept|] eqn:E; [|discriminate].
  intros [= <-]. cbn [history setHistory]. apply well_formed_arr.
  apply well_formed_arr in Hl.
  rewrite Forall_forall in *. eauto using filter_history_sub.
Qed.

(** Without a key no session is created and nothing is said. *)
Lemma sessionEffect_without_key env date report history st :
  API_KEY env = None \/ API_KEY env = Some "" ->
  sessionEffect env date report history st = st.
Proof.
  intros H. unfold sessionEffect, createChatSession, getAiClient.
  now destruct H as [-> | ->].
Qed.

(** A send that the guard refuses changes nothing. *)
Lemma handleSend_guard clock send st :
  chatSession st = None \/ trim (input st) = "" ->
  handleSend clock send st = st.
Proof.
  intros H. unfold handleSend. destruct (chatSession st); [|reflexivity].
  destruct H as [H|H]; [discriminate|]. now rewrite H.
Qed.

(** A stream that fails leaves the placeholder with what had arrived and
    adds the apology as a message of its own. *)
Lemma handleSend_failed_stream clock send st session chunks :
  chatSession st = Some session ->
  trim (input st) <> "" ->
  send session (input st) = Stream chunks Failed ->
  exists earlier,
    messages (handleSend clock send st)
    = earlier
      ++ [{| msg_id := Z_to_string (t_bot_id clock + 1); msg_role := model;
             msg_text := deltas_text chunks;
             msg_timestamp := t_bot_date clock |};
          errorMessage clock]
    /\ length earlier = length (messages st) + 1.
Proof.
  intros Hs Hin Hstream. unfold handleSend. rewrite Hs.
  destruct (String.eqb_spec (trim (input st)) ""); [contradiction|].
  cbn [msg_text]. rewrite Hstream.
  destruct (stream_loop _ _ _) as [full msgs] eqn:E. cbn [messages].
  assert (Em : msgs = snd (stream_loop (Z_to_string (t_bot_id clock + 1)) chunks
                             ("", (messages st ++ [ {| msg_id := Z_to_string (t_user_id clock);
                                                       msg_role := user; msg_text := input st;
                                                       msg_timestamp := t_user_date clock |} ])
                                  ++ [ {| msg_id := Z_to_string (t_bot_id clock + 1);
                                          msg_role := model; msg_text := "";
                                          msg_timestamp := t_bot_date clock |} ])))
    by now rewrite E.
  rewrite stream_loop_placeholder in Em by reflexivity. subst msgs.
  rewrite <- app_assoc. cbn [app msg_role msg_timestamp String.append].
  eexists. split; [reflexivity|].
  rewrite <- (Forall2_length (stream_loop_kept _ chunks "" _ _ (kept_by_refl _ _))).
  rewrite length_app. reflexivity.
Qed.

(** ** Examples *)

Example clean_strips_fences :
  clean "```json
{}
```
" = "{}".
Proof. reflexivity. Qed.

Example parse_blank_payload :
  JSON_parse blank_payload
  = Some (JObj [("title", JStr ""); ("executiveSummary", JStr "");
                ("keyInsights", JArr []); ("sections", JArr [])]).
Proof. reflexivity. Qed.

Example parse_numbers :
  JSON_parse "[0, -12.50e+3, 1e21, 0.000001, 45.5]"
  = Some (JArr [JNum (Num 0 0); JNum (Num (-125) 2); JNum (Num 1 21);
                JNum (Num 1 (-6)); JNum (Num 455 (-1))]).
Proof. reflexivity. Qed.

Example print_numbers :
  map number_to_string
      [Num 0 0; Num (-125) 2; Num 1 21; Num 1 (-6); Num 15 (-8); Num 455 (-1);
       Num 1762123456789 0]
  = ["0"; "-12500"; "1e+21"; "0.000001"; "1.5e-7"; "45.5"; "1762123456789"].
Proof. reflexivity. Qed.

Example parse_rejects :
  map JSON_parse ["{not json"; ""; "[1,]"; "{,}"; "01"; "1 2"; "nul"; "[1 2]"]
  = [None; None; None; None; None; None; None; None].
Proof. reflexivity. Qed.

Example stringify_history :
  JSON_stringify (JArr [JObj [("id", JStr "a"); ("createdAt", JNum (Num 17 2))]])
  = "[{" +:+ quoted "id" +:+ ":" +:+ quoted "a" +:+ ","
    +:+ quoted "createdAt" +:+ ":1700}]".
Proof. reflexivity. Qed.

(** An answer that is JSON but no object gives a report with nothing but
    the three properties the generator adds. *)
Example report_from_a_number :
  snd (generatePoliticalReport (env_with (Some "key") (answer "42" None))
         "One Nation One Election" [])
  = Ok (JObj [("id", JStr "3f0c2a9e-5b1d-4c7a-9e2f-6d8b1a4c7e90");
              ("createdAt", JNum (Num 1762123456789 0));
              ("sources", JArr [])]).
Proof. reflexivity. Qed.

Example events_of_a_failure :
  fst (generatePoliticalReport (env_with (Some "key") (Throw "offline"))
         "One Nation One Election" [])
  = [Progress researching; Progress analyzing;
     ModelRequest (make_request (env_with (Some "key") (Throw "offline"))
                     "One Nation One Election" []);
     ConsoleError].
Proof. reflexivity. Qed.

Example send_that_throws :
  messages (handleSend sample_clock (fun _ _ => SendThrows) hello_state)
  = [ greeting None 1762123400000;
      {| msg_id := "1762123456789"; msg_role := user; msg_text := "hello";
         msg_timestamp := 1762123456789 |};
      errorMessage sample_clock ].
Proof. reflexivity. Qed.

(** * Further facts about the model *)

(** ** Prefixes, reversal and code fences *)

Lemma prefix_nil t : prefix "" t = true.
Proof. now destruct t. Qed.

Lemma prefix_app p t : prefix p (p +:+ t) = true.
Proof.
  induction p as [|a p IH]; cbn; [apply prefix_nil|].
  destruct (ascii_dec a a); congruence.
Qed.

Lemma prefix_split p t : prefix p t = true -> exists b, t = p +:+ b.
Proof.
  revert t. induction p as [|a p IH]; intros t H; [now exists t|].
  destruct t as [|c t]; [discriminate|]. cbn in H.
  destruct (ascii_dec a c) as [<-|]; [|discriminate].
  destruct (IH _ H) as [b ->]. now exists b.
Qed.

Lemma drop_app_length p t : drop (String.length p) (p +:+ t) = t.
Proof. induction p; cbn; [now destruct t | assumption]. Qed.

Lemma replace_from_skip pat by_ k s :
  replace_from pat by_ k s = replace_all pat by_ (drop k s).
Proof.
  unfold replace_all. revert k.
  induction s as [|c r IH]; intros [|k]; try reflexivity.
  cbn [replace_from drop]. apply IH.
Qed.

(** A match at the head is removed, and the search goes on after it. *)
Lemma replace_all_match c p rest :
  replace_all (String c p) "" (String c p +:+ rest)
  = replace_all (String c p) "" rest.
Proof.
  unfold replace_all at 1. cbn [String.append replace_from].
  change (String c (p +:+ rest)) with (String c p +:+ rest).
  rewrite prefix_app, replace_from_skip. cbn [String.append].
  replace (String.length (String c p) - 1) with (String.length p)
    by (cbn [String.length]; lia).
  now rewrite drop_app_length.
Qed.

(** Text without a backquote holds no match of a pattern that starts with
    one. *)
Lemma replace_all_plain_app pat a t :
  no_backquote a = true ->
  replace_all (String "`" pat) "" (a +:+ t)
  = a +:+ replace_all (String "`" pat) "" t.
Proof.
  induction a as [|c a IH]; intros H; [reflexivity|].
  cbn [no_backquote] in H. apply andb_true_iff in H. destruct H as [Hc Ha].
  unfold replace_all. cbn [String.append replace_from prefix].
  destruct (ascii_dec "`" c) as [<-|_]; [discriminate Hc|].
  f_equal. apply IH, Ha.
Qed.

Lemma replace_all_plain pat t :
  no_backquote t = true -> replace_all (String "`" pat) "" t = t.
Proof.
  intros H. rewrite <- (app_nil_r_s t) at 1.
  rewrite replace_all_plain_app by assumption. apply app_nil_r_s.
Qed.

Lemma has_fence_suffix a t : has_fence t = true -> has_fence (a +:+ t) = true.
Proof.
  intros H. induction a as [|c a IH]; [exact H|].
  cbn [String.append has_fence]. rewrite IH. apply orb_true_r.
Qed.

Lemma has_fence_split t :
  has_fence t = true <-> exists a b, t = a +:+ "```" +:+ b.
Proof.
  split.
  - induction t as [|c r IH]; [discriminate|]. cbn [has_fence]. intros H.
    apply orb_true_iff in H. destruct H as [H|H].
    + apply prefix_split in H. destruct H as [b ->]. now exists "", b.
    + destruct (IH H) as (a & b & ->). now exists (String c a), b.
  - intros (a & b & ->). apply has_fence_suffix.
    change (has_fence (String "`" ("``" +:+ b)) = true). cbn [has_fence].
    change (String "`" ("``" +:+ b)) with ("```" +:+ b).
    now rewrite prefix_app.
Qed.

Lemma list_of_string_app a b :
  list_ascii_of_string (a +:+ b)
  = list_ascii_of_string a ++ list_ascii_of_string b.
Proof. induction a; cbn; congruence. Qed.

Lemma string_rev_app a b : string_rev (a +:+ b) = string_rev b +:+ string_rev a.
Proof.
  unfold string_rev. rewrite list_of_string_app, rev_app_distr.
  apply string_of_list_app.
Qed.

Lemma string_rev_involutive s : string_rev (string_rev s) = s.
Proof.
  unfold string_rev.
  rewrite list_ascii_of_string_of_list_ascii, rev_involutive.
  apply string_of_list_ascii_of_string.
Qed.

Lemma has_fence_rev t : has_fence (string_rev t) = true -> has_fence t = true.
Proof.
  rewrite !has_fence_split. intros (a & b & E).
  exists (string_rev b), (string_rev a).
  rewrite <- (string_rev_involutive t), E, !string_rev_app.
  now rewrite app_assoc_s.
Qed.

(** What [drop_ws] returns is an end of its argument. *)
Lemma drop_ws_suffix bw k s : exists a, s = a +:+ drop_ws bw k s.
Proof.
  revert k. induction s as [|c r IH]; intros k; [now exists ""|].
  cbn [drop_ws]. destruct k as [|k].
  - destruct (ws_len bw (String c r)) as [|n]; [now exists ""|].
    destruct (IH n) as [a E]. exists (String c a).
    cbn [String.append]. f_equal. exact E.
  - destruct (IH k) as [a E]. exists (String c a).
    cbn [String.append]. f_equal. exact E.
Qed.

Lemma has_fence_drop_ws bw k s :
  has_fence (drop_ws bw k s) = true -> has_fence s = true.
Proof.
  intros H. destruct (drop_ws_suffix bw k s) as [a E]. rewrite E.
  now apply has_fence_suffix.
Qed.

Lemma has_fence_trim s : has_fence (trim s) = true -> has_fence s = true.
Proof.
  unfold trim, trimEnd, trimStart. intros H.
  apply has_fence_rev, has_fence_drop_ws, has_fence_rev in H.
  now apply has_fence_drop_ws in H.
Qed.

(** Removing the fences never brings two backquotes to the head of a text
    that did not start with two. *)
Lemma replace_all_no_pair r :
  prefix "``" r = false -> prefix "``" (replace_all "```" "" r) = false.
Proof.
  unfold replace_all. destruct r as [|c [|d r]]; [reflexivity| |].
  - intros _. cbn [replace_from prefix].
    destruct (ascii_dec "`" c) as [<-|Hc]; [reflexivity|].
    cbn [prefix]. destruct (ascii_dec "`" c); [contradiction | reflexivity].
  - cbn [prefix replace_from]. intros H.
    destruct (ascii_dec "`" c) as [<-|Hc].
    + destruct (ascii_dec "`" d) as [<-|Hd]; [now rewrite prefix_nil in H|].
      cbn [prefix]. destruct (ascii_dec "`" "`"); [|reflexivity].
      destruct (ascii_dec "`" d); [contradiction|]. cbn [prefix].
      destruct (ascii_dec "`" d); [contradiction | reflexivity].
    + cbn [prefix]. destruct (ascii_dec "`" c); [contradiction | reflexivity].
Qed.

Lemma replace_all_no_fence_upto n s :
  String.length s <= n -> has_fence (replace_all "```" "" s) = false.
Proof.
  revert s. induction n as [|n IH]; intros [|c r] Hlen; try reflexivity;
    cbn [String.length] in Hlen; [lia|].
  unfold replace_all. cbn [replace_from].
  destruct (prefix "```" (String c r)) eqn:Ep.
  - cbn [String.append String.length Nat.sub].
    rewrite replace_from_skip. apply IH. rewrite length_drop. lia.
  - cbn [has_fence]. fold (replace_all "```" "" r).
    rewrite (IH r) by lia. rewrite orb_false_r.
    cbn [prefix] in *. destruct (ascii_dec "`" c); [|reflexivity].
    now apply replace_all_no_pair.
Qed.

Lemma replace_all_no_fence s : has_fence (replace_all "```" "" s) = false.
Proof. now apply (replace_all_no_fence_upto (String.length s)). Qed.

(** ** The keys of a [Map], in insertion order *)

Lemma known_In keys k : known keys k = true <-> In k keys.
Proof.
  unfold known. rewrite existsb_exists. split.
  - intros (x & Hin & E). apply String.eqb_eq in E. now subst.
  - intros H. exists k. split; [exact H | apply String.eqb_refl].
Qed.

Lemma Map_set_key_list {V} k (v : V) m :
  map fst (Map_set k v m)
  = if known (map fst m) k then map fst m else map fst m ++ [k].
Proof.
  induction m as [|[k' v'] m IH]; [reflexivity|].
  cbn [Map_set map fst known existsb].
  destruct (String.eqb_spec k k') as [->|Hne]; [reflexivity|].
  cbn [map fst orb]. rewrite IH. fold (known (map fst m) k).
  now destruct (known (map fst m) k).
Qed.

Lemma filter_twice {A} (f g : A -> bool) (l : list A) :
  filter f (filter g l) = filter (fun x => f x && g x) l.
Proof.
  induction l as [|x l IH]; [reflexivity|]. cbn [filter].
  destruct (g x); cbn [filter]; rewrite IH, ?andb_true_r, ?andb_false_r;
    reflexivity.
Qed.

Lemma Map_fold_key_list {V} (es acc : list (string * V)) :
  map fst (fold_left (fun m kv => Map_set (fst kv) (snd kv) m) es acc)
  = map fst acc
    ++ filter (fun k => negb (known (map fst acc) k))
         (first_occurrences (map fst es)).
Proof.
  revert acc. induction es as [|[k v] es IH]; intros acc.
  - cbn. now rewrite app_nil_r.
  - cbn [fold_left map fst snd first_occurrences filter].
    rewrite IH, Map_set_key_list.
    destruct (known (map fst acc) k) eqn:Ek; cbn [negb].
    + f_equal. rewrite filter_twice. apply filter_ext. intros y.
      destruct (String.eqb_spec y k) as [->|];
        [now rewrite Ek | now rewrite andb_true_r].
    + rewrite <- app_assoc. cbn [app]. do 2 f_equal.
      rewrite filter_twice. apply filter_ext. intros y.
      unfold known. rewrite existsb_app. cbn [existsb].
      now rewrite orb_false_r, negb_orb.
Qed.

Lemma Map_of_key_list {V} (es : list (string * V)) :
  map fst (Map_of es) = first_occurrences (map fst es).
Proof.
  unfold Map_of. rewrite Map_fold_key_list. cbn [map app known existsb negb].
  induction (first_occurrences (map fst es)); cbn; congruence.
Qed.

(** ** The history *)

Lemma filter_history_Ok id l kept :
  filter_history id l = Ok kept ->
  kept = filter (id_differs id) l /\ Forall (fun r => r <> JNull) l.
Proof.
  revert kept. induction l as [|x l IH]; intros kept.
  - intros [= <-]. split; constructor.
  - destruct x; cbn [filter_history]; try discriminate;
      (destruct (filter_history id l) as [kept'|]; [|discriminate];
       intros [= <-]; destruct (IH _ eq_refl) as [-> Hl];
       split; [reflexivity | constructor; [discriminate | exact Hl]]).
Qed.

Lemma filter_idem {A} (f : A -> bool) (l : list A) :
  filter f (filter f l) = filter f l.
Proof.
  rewrite filter_twice. apply filter_ext. intros x. now destruct (f x).
Qed.

Lemma filter_all {A} (f : A -> bool) (l : list A) :
  Forall (fun x => f x = true) l -> filter f l = l.
Proof. induction 1 as [|x l Hx _ IH]; cbn; [|rewrite Hx, IH]; reflexivity. Qed.

Lemma setHistory_twice v st : setHistory v (setHistory v st) = setHistory v st.
Proof. unfold setHistory. cbn. f_equal. apply insert_insert_eq. Qed.

Lemma id_differs_true id r :
  id_differs id r = true <-> prop "id" r <> Some (JStr id).
Proof.
  unfold id_differs. destruct (prop "id" r) as [[| | | |s| |]|]; try easy.
  destruct (String.eqb_spec s id) as [->|Hne]; cbn; split; congruence.
Qed.

Lemma deleteFromHistory_Ok id st st' :
  deleteFromHistory id st = Ok st' ->
  exists l, history st = JArr l
            /\ Forall (fun r => r <> JNull) l
            /\ st' = setHistory (JArr (filter (id_differs id) l)) st.
Proof.
  unfold deleteFromHistory. destruct (history st) as [| | | | |l|]; try discriminate.
  destruct (filter_history id l) as [kept|] eqn:E; [|discriminate].
  intros [= <-]. destruct (filter_history_Ok _ _ _ E) as [-> Hl]. now exists l.
Qed.

(** ** Titles of a typed history *)

Lemma titles_typed reports :
  titles (map Report_js reports)
  = Ok (map (fun r => Some (JStr (rep_title r))) reports).
Proof.
  induction reports as [|r reports IH]; [reflexivity|].
  cbn [map]. unfold Report_js at 1. cbn [titles]. rewrite IH. reflexivity.
Qed.

Lemma element_texts_strings {A} (f : A -> string) l :
  element_texts (map (fun x => Some (JStr (f x))) l) = Ok (map f l).
Proof.
  induction l as [|x l IH]; [reflexivity|].
  cbn [map element_texts element_text to_string]. now rewrite IH.
Qed.

(** ** The search, case by case *)

Lemma historyContext_array h context :
  historyContext h = Ok context -> exists l, h = JArr l.
Proof. destruct h; try discriminate. eauto. Qed.

Lemma count_requests_app a b :
  count_requests (a ++ b) = count_requests a + count_requests b.
Proof. unfold count_requests. now rewrite filter_app, length_app. Qed.

Lemma generate_requests env topic historyContext :
  count_requests (fst (generatePoliticalReport env topic historyContext)) <= 1.
Proof.
  unfold generatePoliticalReport, try_generate.
  destruct (getAiClient env); [|cbn; lia]. cbv zeta.
  destruct (generateContent env _) as [response|m]; [|cbn; lia].
  destruct (text response) as [t|]; [|cbn; lia].
  destruct (String.eqb t ""); [cbn; lia|].
  destruct (JSON_parse (clean t)); cbn; lia.
Qed.

Lemma generateWith_requests env topic context :
  count_requests (fst (generateWith env topic context)) <= 1.
Proof.
  unfold generateWith. destruct (element_texts context).
  - apply generate_requests.
  - destruct (getAiClient env); cbn; lia.
Qed.

Lemma generateWith_well_formed env topic context r :
  snd (generateWith env topic context) = Ok r -> well_formed r.
Proof.
  unfold generateWith. destruct (element_texts context) as [texts|].
  - apply generate_well_formed.
  - destruct (getAiClient env); discriminate.
Qed.

(** A search is ignored, or fails and leaves the store alone, or shows a
    report that it has put first in the history. *)
Lemma handleSearch_cases env q st :
  let st' := snd (handleSearch env q st) in
  (trim q = "" /\ st' = st)
  \/ (trim q <> ""
      /\ st' = {| searchState := failedSearch q; report := None;
                  store := store st |})
  \/ (trim q <> ""
      /\ exists r l,
           history (store st) = JArr l
           /\ well_formed r
           /\ st' = {| searchState :=
                         {| isSearching := true; stage := complete;
                            query := q; error := None |};
                       report := Some r;
                       store := setHistory (JArr (r :: l)) (store st) |}).
Proof.
  cbv zeta. unfold handleSearch.
  destruct (String.eqb_spec (trim q) "") as [E|E]; [left; now split|].
  right. destruct (historyContext (history (store st))) as [context|] eqn:Ec;
    [|left; now split].
  destruct (historyContext_array _ _ Ec) as [l El].
  destruct (generateWith env q context) as [events [r|m]] eqn:Eg;
    [|left; now split].
  right. split; [exact E|]. exists r, l. split; [exact El|]. split.
  - apply (generateWith_well_formed env q context). now rewrite Eg.
  - unfold saveToHistory. rewrite El. reflexivity.
Qed.

Lemma handleSearch_requests env q st :
  count_requests (fst (handleSearch env q st)) <= 1.
Proof.
  unfold handleSearch. destruct (String.eqb (trim q) ""); [cbn; lia|].
  destruct (historyContext (history (store st))) as [context|]; [|cbn; lia].
  pose proof (generateWith_requests env q context) as H.
  destruct (generateWith env q context) as [events [r|m]]; cbn [fst] in H.
  - destruct (saveToHistory r (store st)); cbn [fst];
      rewrite ?count_requests_app; cbn; lia.
  - cbn [fst]. rewrite count_requests_app. cbn. lia.
Qed.

(** ** What holds in every state the user can reach *)

Lemma render_hero st :
  render st = HeroScreen ->
  report st = None /\ isSearching (searchState st) = false.
Proof.
  unfold render. destruct (report st); [discriminate|].
  now destruct (isSearching (searchState st)).
Qed.

Lemma localStorage_loadHistory st : localStorage (loadHistory st) = localStorage st.
Proof.
  unfold loadHistory. destruct (localStorage st !! HISTORY_KEY); [|reflexivity].
  destruct (String.eqb s ""); [reflexivity|]. now destruct (JSON_parse s).
Qed.

Lemma reachable_invariant storage st :
  reachable storage st ->
  well_formed (history (store st))
  /\ (loadAll (localStorage (store st)) = history (store st)
      \/ loadAll (localStorage (store st)) = as_stored (history (store st)))
  /\ (report st = None -> isSearching (searchState st) = false)
  /\ (forall r, report st = Some r ->
        exists l, history (store st) = JArr l /\ In r l).
Proof.
  induction 1 as [| env q st Hst IH Hhero | item l st Hst IH Hhero Hl Hin
                  | id st Hst IH Hhero | r st Hst IH Hrep].
  - cbn [mount store report searchState idleSearch isSearching].
    split; [apply loadAll_well_formed|].
    split; [left; now rewrite localStorage_loadHistory|].
    split; [reflexivity | discriminate].
  - destruct IH as (Hwf & Hload & Hidle & Hin).
    destruct (handleSearch_cases env q st)
      as [[_ ->] | [[_ ->] | [_ (r & l & El & Hr & ->)]]];
      cbn [store report searchState failedSearch isSearching].
    + auto.
    + split; [exact Hwf|]. split; [exact Hload|]. split; [reflexivity | discriminate].
    + rewrite El in Hwf. apply well_formed_arr in Hwf.
      cbn [setHistory history]. split; [apply well_formed_arr; now constructor|].
      split; [right; apply loadAll_setHistory_array; now constructor|].
      split; [discriminate|]. intros r' [= <-]. exists (r :: l).
      split; [reflexivity | now left].
  - destruct IH as (Hwf & Hload & _ & _).
    cbn [openReport store report searchState].
    split; [exact Hwf|]. split; [exact Hload|]. split; [discriminate|].
    intros r [= <-]. now exists l.
  - destruct IH as (Hwf & Hload & Hidle & Hin).
    destruct (render_hero _ Hhero) as [Hnone _].
    unfold removeReport.
    destruct (deleteFromHistory id (store st)) as [deleted|] eqn:Ed; [|auto].
    cbn [store report searchState].
    destruct (deleteFromHistory_Ok _ _ _ Ed) as (l & El & _ & ->).
    rewrite El in Hwf. apply well_formed_arr in Hwf.
    cbn [setHistory history].
    split; [apply well_formed_arr; now apply Forall_filter|].
    split; [right; apply loadAll_setHistory_array; now apply Forall_filter|].
    split; [exact Hidle|]. intros r Hr. congruence.
  - destruct IH as (Hwf & Hload & _ & _).
    cbn [resetApp store report searchState idleSearch isSearching].
    split; [exact Hwf|]. split; [exact Hload|]. split; [reflexivity | discriminate].
Qed.

(** ** The chat *)

Lemma Z_to_string_injective a b :
  (0 <= a)%Z -> (0 <= b)%Z -> Z_to_string a = Z_to_string b -> a = b.
Proof.
  intros Ha Hb. unfold Z_to_string.
  destruct (Z.ltb_spec a 0), (Z.ltb_spec b 0); try lia.
  intros E. apply (f_equal digits_value) in E.
  now rewrite !Z_digits_value in E by assumption.
Qed.

Lemma with_text_others bot full msgs :
  Forall (fun m => msg_id m <> bot) msgs -> map (with_text bot full) msgs = msgs.
Proof.
  induction 1 as [|m msgs Hm _ IH]; [reflexivity|]. cbn [map]. rewrite IH.
  unfold with_text. destruct (String.eqb_spec (msg_id m) bot); [contradiction|].
  reflexivity.
Qed.

Lemma stream_loop_others bot chunks full msgs :
  Forall (fun m => msg_id m <> bot) msgs ->
  snd (stream_loop bot chunks (full, msgs)) = msgs.
Proof.
  intros H. unfold stream_loop. revert full.
  induction chunks as [|[t|] chunks IH]; intros full;
    cbn [fold_left stream_step]; [reflexivity| |apply IH].
  destruct (nonempty t); [|apply IH]. rewrite with_text_others by assumption.
  apply IH.
Qed.

(** ** Numbers that JSON text can and cannot keep *)

Example parse_beyond_binary64 :
  JSON_parse "[1e400,-1e400,-0,1e-400,0.1000000000000000055511151231257827,9007199254740993]"
  = Some (JArr [JSpecial PosInfinity; JSpecial NegInfinity; JSpecial NegZero;
                JNum (Num 0 0); JNum (Num 1 (-1)); JNum (Num 9007199254740992 0)]).
Proof. vm_compute. reflexivity. Qed.

Example stringify_beyond_binary64 :
  JSON_stringify (JArr [JSpecial PosInfinity; JSpecial NegInfinity;
                        JSpecial NegZero; JNum (Num 15 299)])
  = "[null,null,0,1.5e+300]".
Proof. vm_compute. reflexivity. Qed.

(** * The specification, claim by claim *)

(** ** Credentials and failures of the generator *)

(** C8.  Without a configured key (absent, or empty) both
    [generatePoliticalReport] and [createChatSession] throw the missing-key
    error at the call: the generator has then made no progress callback and
    sent no request to the model.  That error is not the generic
    generation failure. *)
Theorem missing_key_thrown_at_call env topic historyContext context :
  API_KEY env = None \/ API_KEY env = Some "" ->
  generatePoliticalReport env topic historyContext = ([], Throw MISSING_KEY)
  /\ createChatSession env context = Throw MISSING_KEY
  /\ MISSING_KEY <> GENERATION_FAILED.
Proof.
  intros H. unfold generatePoliticalReport, createChatSession, getAiClient.
  destruct H as [-> | ->]; repeat split; discriminate.
Qed.

Lemma missing_key_thrown_at_call_witness :
  (API_KEY (env_with None (Throw "offline")) = None
   \/ API_KEY (env_with None (Throw "offline")) = Some "")
  /\ generatePoliticalReport (env_with None (Throw "offline")) "Caste census impact" []
     = ([], Throw MISSING_KEY)
  /\ createChatSession (env_with None (Throw "offline")) (Some "") = Throw MISSING_KEY
  /\ MISSING_KEY <> GENERATION_FAILED.
Proof.
  split; [left; reflexivity|].
  apply (missing_key_thrown_at_call (env_with None (Throw "offline"))).
  left; reflexivity.
Defined.

Lemma getAiClient_ok env key :
  API_KEY env = Some key -> key <> "" -> getAiClient env = Ok key.
Proof.
  intros E Hne. unfold getAiClient. rewrite E.
  destruct (String.eqb_spec key ""); [contradiction | reflexivity].
Qed.

(** C7.  With a key configured, when the call to the model fails, or the
    answer has no text or an empty one, or its text stripped of code fences
    is not JSON, [generatePoliticalReport] throws the generic failure and
    has sent exactly one request: nothing is retried. *)
Theorem bad_outcome_fails_generically env topic historyContext key :
  API_KEY env = Some key -> key <> "" ->
  bad_outcome (generateContent env (make_request env topic historyContext)) ->
  snd (generatePoliticalReport env topic historyContext) = Throw GENERATION_FAILED
  /\ count_requests (fst (generatePoliticalReport env topic historyContext)) = 1.
Proof.
  intros Hkey Hne Hbad. unfold generatePoliticalReport, try_generate.
  rewrite (getAiClient_ok env key Hkey Hne). cbv zeta.
  set (outcome := generateContent env _) in *. clearbody outcome.
  destruct Hbad as [m | r Ht | r Ht | r t Ht Hp]; cbn.
  - split; reflexivity.
  - rewrite Ht. split; reflexivity.
  - rewrite Ht. cbn. split; reflexivity.
  - rewrite Ht. destruct (String.eqb t ""); [split; reflexivity|].
    rewrite Hp. split; reflexivity.
Qed.

Lemma bad_outcome_fails_generically_witness :
  let env := env_with (Some "key") (answer "{not json" None) in
  API_KEY env = Some "key" /\ "key" <> ""
  /\ bad_outcome (generateContent env (make_request env "Maharashtra politics" []))
  /\ snd (generatePoliticalReport env "Maharashtra politics" []) = Throw GENERATION_FAILED
  /\ count_requests (fst (generatePoliticalReport env "Maharashtra politics" [])) = 1.
Proof.
  assert (Hbad : bad_outcome (answer "{not json" None)).
  { eapply not_json; [reflexivity | vm_compute; reflexivity]. }
  cbv zeta. split; [reflexivity|]. split; [discriminate|]. split; [exact Hbad|].
  apply (bad_outcome_fails_generically
           (env_with (Some "key") (answer "{not json" None))
           "Maharashtra politics" [] "key");
    [reflexivity | discriminate | exact Hbad].
Defined.

(** ** The history store *)

(** C6.  A stored history that is not JSON does not stop the load: the
    effect catches the error of [JSON.parse], leaves the state untouched,
    and the history is the empty one the component starts with. *)
Theorem corrupt_history_loads_empty (storage : gmap string string) saved :
  storage !! HISTORY_KEY = Some saved ->
  JSON_parse saved = None ->
  loadHistory (initial storage) = initial storage
  /\ loadAll storage = JArr [].
Proof.
  intros Hs Hp. unfold loadAll, loadHistory. cbn [localStorage initial].
  rewrite Hs, Hp. destruct (String.eqb saved ""); split; reflexivity.
Qed.

Lemma corrupt_history_loads_empty_witness :
  let storage : gmap string string := {[ HISTORY_KEY := "{not json" ]} in
  storage !! HISTORY_KEY = Some "{not json"
  /\ JSON_parse "{not json" = None
  /\ loadHistory (initial storage) = initial storage
  /\ loadAll storage = JArr [].
Proof.
  cbv zeta.
  assert (H1 : ({[ HISTORY_KEY := "{not json" ]} : gmap string string) !! HISTORY_KEY
               = Some "{not json") by apply lookup_singleton_eq.
  assert (H2 : JSON_parse "{not json" = None) by (vm_compute; reflexivity).
  split; [exact H1|]. split; [exact H2|].
  exact (corrupt_history_loads_empty _ _ H1 H2).
Defined.

(** ** Grounding sources *)

(** The de-duplication by itself: each uri once, and for each uri the
    entry that was extracted last. *)
Lemma uniqueSources_spec sources :
  NoDup (map gs_uri (uniqueSources sources))
  /\ (forall u, In u (map gs_uri (uniqueSources sources))
                <-> In u (map gs_uri sources))
  /\ (forall s, In s (uniqueSources sources)
                <-> last_with_uri (gs_uri s) sources = Some s).
Proof.
  repeat split.
  - rewrite uniqueSources_uris. apply Map_of_keys_NoDup.
  - rewrite uniqueSources_uris, Map_of_keys. unfold source_entries.
    rewrite map_map. cbn [fst]. tauto.
  - rewrite uniqueSources_uris, Map_of_keys. unfold source_entries.
    rewrite map_map. cbn [fst]. tauto.
  - rewrite uniqueSources_In, Map_get_entries. tauto.
  - rewrite uniqueSources_In, Map_get_entries. tauto.
Qed.

(** C2.  The sources of a report that [generatePoliticalReport] returns
    are the sources extracted from the answer, de-duplicated on their uri,
    the last one winning: the [sources] property lists each uri of the
    extracted sources exactly once, and the entry listed for a uri is the
    last one extracted with it.  So an answer grounded on
    [{uri: a, title: T1}, {uri: a, title: T2}] gives a report whose only
    source is [{uri: a, title: T2}]. *)
Theorem returned_sources_last_wins env topic historyContext report :
  snd (generatePoliticalReport env topic historyContext) = Ok report ->
  exists response kept,
    generateContent env (make_request env topic historyContext) = Ok response
    /\ prop "sources" report = Some (JArr (map GroundingSource_js kept))
    /\ NoDup (map gs_uri kept)
    /\ (forall u, In u (map gs_uri kept)
                  <-> In u (map gs_uri (extract_sources (chunks_of response))))
    /\ (forall s, In s kept
                  <-> last_with_uri (gs_uri s)
                        (extract_sources (chunks_of response)) = Some s).
Proof.
  intros Hok.
  destruct (generate_Ok _ _ _ _ Hok) as (response & t & data & Hr & _ & _ & _ & ->).
  exists response, (uniqueSources (extract_sources (chunks_of response))).
  split; [exact Hr|]. split; [apply prop_sources_make_report|].
  apply uniqueSources_spec.
Qed.

Lemma returned_sources_last_wins_witness :
  let env := env_with (Some "key")
               (answer "{}" (Some [web_chunk (Some "a") (Some "T1");
                                   web_chunk (Some "a") (Some "T2")])) in
  exists report,
    snd (generatePoliticalReport env "Delimitation 2026" []) = Ok report
    /\ prop "sources" report
       = Some (JArr [JObj [("title", JStr "T2"); ("uri", JStr "a")]]).
Proof.
  cbv zeta. eexists. split; [vm_compute; reflexivity|].
  destruct (returned_sources_last_wins
              (env_with (Some "key")
                 (answer "{}" (Some [web_chunk (Some "a") (Some "T1");
                                     web_chunk (Some "a") (Some "T2")])))
              "Delimitation 2026" [] _ eq_refl)
    as (response & kept & _ & Hsources & _).
  reflexivity.
Defined.

(** C10.  A grounding chunk without [web], without a uri or without a title
    adds no source.  Hence in a report that is returned, [sources] is an
    array of objects that each carry a [title] and a [uri], both taken from
    one and the same chunk of the answer. *)
Theorem sources_come_from_complete_chunks env topic historyContext report :
  snd (generatePoliticalReport env topic historyContext) = Ok report ->
  (forall chunk,
      (web chunk = None
       \/ exists w, web chunk = Some w
                    /\ (web_uri w = None \/ web_title w = None)) ->
      source_of_chunk chunk = [])
  /\ exists response kept,
       generateContent env (make_request env topic historyContext) = Ok response
       /\ prop "sources" report = Some (JArr (map GroundingSource_js kept))
       /\ forall s, In s kept ->
            prop "title" (GroundingSource_js s) = Some (JStr (gs_title s))
            /\ prop "uri" (GroundingSource_js s) = Some (JStr (gs_uri s))
            /\ exists chunks chunk w,
                 chunks_of response = Some chunks
                 /\ In chunk chunks
                 /\ web chunk = Some w
                 /\ web_uri w = Some (gs_uri s)
                 /\ web_title w = Some (gs_title s).
Proof.
  intros Hok. split.
  - intros chunk [E | (w & E & [Eu | Et])]; unfold source_of_chunk; rewrite E.
    + reflexivity.
    + now rewrite Eu.
    + rewrite Et. now destruct (web_uri w).
  - destruct (generate_Ok _ _ _ _ Hok) as (response & t & data & Hr & _ & _ & _ & ->).
    exists response, (uniqueSources (extract_sources (chunks_of response))).
    split; [exact Hr|]. split; [apply prop_sources_make_report|].
    intros s Hs. split; [reflexivity|]. split; [reflexivity|].
    apply uniqueSources_In in Hs. rewrite Map_get_entries in Hs.
    unfold last_with_uri in Hs. apply find_some in Hs. destruct Hs as [Hin _].
    apply in_rev in Hin. unfold extract_sources in Hin.
    destruct (chunks_of response) as [chunks|]; [|contradiction].
    apply in_flat_map in Hin. destruct Hin as (chunk & Hchunk & Hsrc).
    unfold source_of_chunk in Hsrc.
    destruct (web chunk) as [w|] eqn:Ew; [|contradiction].
    destruct (web_uri w) as [u|] eqn:Eu; [|contradiction].
    destruct (web_title w) as [ti|] eqn:Et; [|contradiction].
    destruct (nonempty u && nonempty ti); [|contradiction].
    destruct Hsrc as [<- | []]. exists chunks, chunk, w. cbn. auto.
Qed.

Lemma sources_come_from_complete_chunks_witness :
  let env := env_with (Some "key")
               (answer "{}" (Some [web_chunk (Some "https://eci.gov.in") None;
                                   web_chunk (Some "https://eci.gov.in")
                                             (Some "Election Commission")])) in
  exists report,
    snd (generatePoliticalReport env "Delimitation 2026" []) = Ok report
    /\ prop "sources" report
       = Some (JArr [JObj [("title", JStr "Election Commission");
                           ("uri", JStr "https://eci.gov.in")]])
    /\ source_of_chunk (web_chunk (Some "https://eci.gov.in") None) = [].
Proof.
  cbv zeta. eexists. split; [vm_compute; reflexivity|]. split; [reflexivity|].
  eapply (sources_come_from_complete_chunks
            (env_with (Some "key")
               (answer "{}" (Some [web_chunk (Some "https://eci.gov.in") None;
                                   web_chunk (Some "https://eci.gov.in")
                                             (Some "Election Commission")])))
            "Delimitation 2026" []).
  - vm_compute. reflexivity.
  - right. eexists. split; [reflexivity|]. now right.
Defined.

(** ** The shape of what the generator returns *)

(** C1, as the specification states it, fails: for the answer
    [blank_payload], which is JSON, the generator returns a report whose
    title and summary are empty and throws nothing. *)
Lemma blank_report_is_returned :
  snd (generatePoliticalReport
         (env_with (Some "key") (answer blank_payload None))
         "Uttar Pradesh Vidhan Sabha 2027 projections" [])
  = Ok blank_report
  /\ prop "title" blank_report = Some (JStr "")
  /\ prop "executiveSummary" blank_report = Some (JStr "")
  /\ ~ returns_populated_or_fails.
Proof.
  assert (E : snd (generatePoliticalReport
                     (env_with (Some "key") (answer blank_payload None))
                     "Uttar Pradesh Vidhan Sabha 2027 projections" [])
              = Ok blank_report) by (vm_compute; reflexivity).
  split; [exact E|]. split; [reflexivity|]. split; [reflexivity|].
  intros H.
  specialize (H (env_with (Some "key") (answer blank_payload None))
                "Uttar Pradesh Vidhan Sabha 2027 projections" []).
  rewrite E in H. destruct H as [(s & Hs & Hne) _]; [discriminate|].
  cbn in Hs. injection Hs as <-. now apply Hne.
Qed.

Lemma title_not_digits : ~ all_digits "title".
Proof. intros H. inversion H as [|? ? Hd _]. discriminate Hd. Qed.

Lemma executiveSummary_not_digits : ~ all_digits "executiveSummary".
Proof. intros H. inversion H as [|? ? Hd _]. discriminate Hd. Qed.

(** C1, amended.  A call of [generatePoliticalReport] either throws (the
    missing-key error or the generic failure) or returns the value parsed
    from the cleaned text of the answer, with [id], [createdAt] and
    [sources] set.  The title and the summary of the report are those of
    that value, whatever they are: the code checks neither that they are
    present nor that they are not empty. *)
Theorem generate_returns_parsed_payload_or_fails env topic historyContext :
  match snd (generatePoliticalReport env topic historyContext) with
  | Throw m => m = MISSING_KEY \/ m = GENERATION_FAILED
  | Ok report =>
      exists response responseText data,
        generateContent env (make_request env topic historyContext) = Ok response
        /\ text response = Some responseText
        /\ JSON_parse (clean responseText) = Some data
        /\ report = make_report data (randomUUID env) (now env)
                      (uniqueSources (extract_sources (chunks_of response)))
        /\ prop "title" report = prop "title" data
        /\ prop "executiveSummary" report = prop "executiveSummary" data
  end.
Proof.
  destruct (snd (generatePoliticalReport env topic historyContext))
    as [report|m] eqn:E.
  - destruct (generate_Ok _ _ _ _ E) as (response & t & data & Hr & Ht & _ & Hp & ->).
    exists response, t, data. repeat split; try assumption.
    + apply prop_make_report; try discriminate;
        eauto using JSON_parse_well_formed, title_not_digits.
    + apply prop_make_report; try discriminate;
        eauto using JSON_parse_well_formed, executiveSummary_not_digits.
  - now apply generate_Throw in E.
Qed.

(** ** The history store, continued *)

(** What a save leaves, for any values: the new report in front of the
    history, the whole written to the storage, and a reload that gives each
    value as [JSON.stringify] could write it. *)
Lemma saveToHistory_reload newReport st l :
  history st = JArr l ->
  well_formed newReport -> Forall well_formed l ->
  exists st',
    saveToHistory newReport st = Ok st'
    /\ history st' = JArr (newReport :: l)
    /\ localStorage st' !! HISTORY_KEY
       = Some (JSON_stringify (JArr (newReport :: l)))
    /\ loadAll (localStorage st') = JArr (map as_stored (newReport :: l)).
Proof.
  intros Hl Hr Hwf. unfold saveToHistory. rewrite Hl. cbn [iterate].
  eexists. split; [reflexivity|]. split; [reflexivity|]. split.
  - cbn [setHistory localStorage]. apply lookup_insert_eq.
  - apply loadAll_setHistory_array. now constructor.
Qed.

(** C4, as the specification states it, fails: the generator returns
    [overflow_report] for the answer [overflow_payload], whose chart value
    [1e400] is [Infinity] as a Number; [JSON.stringify] writes [null] for
    it, so the report found first after a reload holds [null] where the one
    saved holds [Infinity]. *)
Lemma overflowed_value_is_reloaded_as_null :
  snd (generatePoliticalReport
         (env_with (Some "key") (answer overflow_payload None)) "Seats" [])
  = Ok overflow_report
  /\ (exists st',
         saveToHistory overflow_report (initial ∅) = Ok st'
         /\ loadAll (localStorage st') = JArr [seats_report JNull])
  /\ ~ reload_returns_the_report.
Proof.
  assert (Hwf : well_formed overflow_report)
    by (apply well_formedb_sound; vm_compute; reflexivity).
  destruct (saveToHistory_reload overflow_report (initial ∅) [] eq_refl Hwf
              (Forall_nil _)) as (st' & Hsave & _ & _ & Hload).
  change (map as_stored [overflow_report]) with [seats_report JNull] in Hload.
  split; [vm_compute; reflexivity|]. split; [now exists st'|].
  intros H. destruct (H overflow_report (initial ∅) st' Hwf Hsave) as [rest E].
  rewrite Hload in E. discriminate E.
Qed.

(** C4, amended.  [saveToHistory] puts the new report in front of the
    history and stores the whole of it; reading the store back, as a reload
    does, gives a sequence whose first element is equal to the report
    saved, when the numbers of that report are finite and none is [-0].
    The earlier reports come back as [JSON.stringify] could write them,
    hence equal too when their numbers are such.  The values are any that
    [JSON.parse] or the generator can have produced. *)
Theorem history_round_trip newReport st l :
  history st = JArr l ->
  well_formed newReport -> Forall well_formed l ->
  storable newReport ->
  exists st',
    saveToHistory newReport st = Ok st'
    /\ history st' = JArr (newReport :: l)
    /\ localStorage st' !! HISTORY_KEY
       = Some (JSON_stringify (JArr (newReport :: l)))
    /\ loadAll (localStorage st') = JArr (newReport :: map as_stored l)
    /\ (Forall storable l -> loadAll (localStorage st') = JArr (newReport :: l)).
Proof.
  intros Hl Hr Hwf Hsr.
  destruct (saveToHistory_reload newReport st l Hl Hr Hwf)
    as (st' & Hsave & Hh & Hstore & Hload).
  cbn [map] in Hload. rewrite Hsr in Hload.
  exists st'. repeat split; try assumption.
  intros Hsl. now rewrite Hload, map_as_stored.
Qed.

Lemma history_round_trip_witness :
  exists st',
    saveToHistory r1 {| history := JArr [r2]; localStorage := ∅ |} = Ok st'
    /\ history st' = JArr [r1; r2]
    /\ localStorage st' !! HISTORY_KEY = Some (JSON_stringify (JArr [r1; r2]))
    /\ loadAll (localStorage st') = JArr [r1; r2].
Proof.
  assert (H1 : well_formed r1) by (apply well_formedb_sound; vm_compute; reflexivity).
  assert (H2 : well_formed r2) by (apply well_formedb_sound; vm_compute; reflexivity).
  assert (S1 : storable r1) by (apply storableb_sound; vm_compute; reflexivity).
  assert (S2 : storable r2) by (apply storableb_sound; vm_compute; reflexivity).
  assert (F2 : Forall well_formed [r2]) by (constructor; [exact H2 | constructor]).
  assert (T2 : Forall storable [r2]) by (constructor; [exact S2 | constructor]).
  destruct (history_round_trip r1 {| history := JArr [r2]; localStorage := ∅ |} [r2]
              eq_refl H1 F2 S1) as (st' & Hsave & Hh & Hstore & _ & Hload).
  exists st'. repeat split; try assumption. exact (Hload T2).
Defined.

(** C5, as the specification states it, fails for the same reason: after
    saving [r1], saving [overflow_report] and deleting [r1] by its id, a
    reload shows one report, which holds [null] where [overflow_report]
    holds [Infinity]. *)
Lemma overflowed_report_is_not_reloaded_equal :
  (exists st',
      (saveToHistory r1 (initial ∅) ≫= saveToHistory overflow_report)
        ≫= deleteFromHistory "id-1" = Ok st'
      /\ history st' = JArr [overflow_report]
      /\ loadAll (localStorage st') = JArr [seats_report JNull])
  /\ ~ delete_reloads_the_other.
Proof.
  assert (H1 : well_formed r1) by (apply well_formedb_sound; vm_compute; reflexivity).
  assert (H2 : well_formed overflow_report)
    by (apply well_formedb_sound; vm_compute; reflexivity).
  assert (Hrun : (saveToHistory r1 (initial ∅) ≫= saveToHistory overflow_report)
                   ≫= deleteFromHistory "id-1"
                 = Ok (setHistory (JArr [overflow_report])
                         (setHistory (JArr [overflow_report; r1])
                            (setHistory (JArr [r1]) (initial ∅)))))
    by reflexivity.
  assert (Hload : loadAll (localStorage
                             (setHistory (JArr [overflow_report])
                                (setHistory (JArr [overflow_report; r1])
                                   (setHistory (JArr [r1]) (initial ∅)))))
                  = JArr [seats_report JNull]).
  { rewrite loadAll_setHistory_array by (constructor; [exact H2 | constructor]).
    reflexivity. }
  split.
  - eexists. split; [exact Hrun|]. split; [reflexivity | exact Hload].
  - intros H.
    destruct (H r1 overflow_report "id-1" "3f0c2a9e-5b1d-4c7a-9e2f-6d8b1a4c7e90"
                H1 H2 eq_refl eq_refl ltac:(discriminate)) as (st' & E & Hl).
    rewrite Hrun in E. injection E as <-. rewrite Hload in Hl. discriminate Hl.
Qed.

(** C5, amended.  [deleteFromHistory] keeps, in their order, exactly the
    reports whose [id] is not the given one, and stores the result: a
    reload gives the kept reports as [JSON.stringify] could write them,
    hence equal to the kept ones when their numbers are finite and none is
    [-0].  So, from an empty history, saving [a], saving [b] and deleting
    the id of [a] leaves a store that reloads as [[b]], when the two ids
    differ and the numbers of [b] are such. *)
Theorem delete_keeps_the_other_reports id st l a b ida idb :
  history st = JArr l ->
  Forall (fun r => r <> JNull) l ->
  Forall well_formed l ->
  well_formed a -> well_formed b -> storable b ->
  prop "id" a = Some (JStr ida) ->
  prop "id" b = Some (JStr idb) ->
  ida <> idb ->
  (exists st',
      deleteFromHistory id st = Ok st'
      /\ history st' = JArr (filter (id_differs id) l)
      /\ loadAll (localStorage st')
         = JArr (map as_stored (filter (id_differs id) l))
      /\ (Forall storable l ->
          loadAll (localStorage st') = JArr (filter (id_differs id) l)))
  /\ (exists st',
         (saveToHistory a (initial ∅) ≫= saveToHistory b) ≫= deleteFromHistory ida
         = Ok st'
         /\ history st' = JArr [b]
         /\ loadAll (localStorage st') = JArr [b]).
Proof.
  intros Hh Hnn Hwf Ha Hb Hsb Hida Hidb Hne. split.
  - unfold deleteFromHistory. rewrite Hh, filter_history_total by assumption.
    eexists. split; [reflexivity|]. split; [reflexivity|].
    split; [apply loadAll_setHistory_array; now apply Forall_filter|].
    intros Hst. apply loadAll_setHistory_storable; now apply Forall_filter.
  - assert (Ea : id_differs ida a = false).
    { unfold id_differs. rewrite Hida, String.eqb_refl. reflexivity. }
    assert (Eb : id_differs ida b = true).
    { unfold id_differs. rewrite Hidb.
      destruct (String.eqb_spec idb ida); [congruence | reflexivity]. }
    assert (Hna : a <> JNull) by (intros ->; discriminate Hida).
    assert (Hnb : b <> JNull) by (intros ->; discriminate Hidb).
    cbn [mbind result_bind saveToHistory initial history iterate setHistory
         localStorage deleteFromHistory].
    rewrite filter_history_total by (repeat constructor; assumption).
    cbn [filter]. rewrite Ea, Eb.
    eexists. split; [reflexivity|]. split; [reflexivity|].
    apply loadAll_setHistory_storable; repeat constructor; assumption.
Qed.

Lemma delete_keeps_the_other_reports_witness :
  (exists st',
      deleteFromHistory "id-1" {| history := JArr [r2; r1]; localStorage := ∅ |}
      = Ok st'
      /\ history st' = JArr [r2]
      /\ loadAll (localStorage st') = JArr [r2])
  /\ exists st',
       (saveToHistory r1 (initial ∅) ≫= saveToHistory r2) ≫= deleteFromHistory "id-1"
       = Ok st'
       /\ history st' = JArr [r2]
       /\ loadAll (localStorage st') = JArr [r2].
Proof.
  assert (H1 : well_formed r1) by (apply well_formedb_sound; vm_compute; reflexivity).
  assert (H2 : well_formed r2) by (apply well_formedb_sound; vm_compute; reflexivity).
  assert (S1 : storable r1) by (apply storableb_sound; vm_compute; reflexivity).
  assert (S2 : storable r2) by (apply storableb_sound; vm_compute; reflexivity).
  assert (F : Forall well_formed [r2; r1])
    by (constructor; [exact H2 | constructor; [exact H1 | constructor]]).
  assert (T : Forall storable [r2; r1])
    by (constructor; [exact S2 | constructor; [exact S1 | constructor]]).
  assert (N : Forall (fun r => r <> JNull) [r2; r1])
    by (repeat constructor; discriminate).
  destruct (delete_keeps_the_other_reports "id-1"
              {| history := JArr [r2; r1]; localStorage := ∅ |} [r2; r1] r1 r2
              "id-1" "id-2" eq_refl N F H1 H2 S2 eq_refl eq_refl
              ltac:(discriminate))
    as [(st' & Hdel & Hh & _ & Hload) Hscenario].
  split; [|exact Hscenario].
  exists st'. split; [exact Hdel|]. split; [exact Hh | exact (Hload T)].
Defined.

(** ** The chat *)

(** C3.  A send that goes through (a session exists, the input is not
    blank) and whose stream completes adds two messages: the user's and one
    reply of the model, last in the list, whose text is the concatenation of
    the deltas in arrival order.  The reply is one placeholder, found by its
    id and rewritten at each delta: after any part of the stream has
    arrived it is still the last message and carries the text of that part.
    The earlier messages keep their id and role, and are untouched unless
    they bear the id of the reply. *)
Theorem handleSend_streams_one_reply clock sendMessageStream st session chunks :
  chatSession st = Some session ->
  trim (input st) <> "" ->
  sendMessageStream session (input st) = Stream chunks Completed ->
  let botMsgId := Z_to_string (t_bot_id clock + 1) in
  let userMsg := {| msg_id := Z_to_string (t_user_id clock); msg_role := user;
                    msg_text := input st; msg_timestamp := t_user_date clock |} in
  let reply := fun fullResponse =>
                 {| msg_id := botMsgId; msg_role := model;
                    msg_text := fullResponse;
                    msg_timestamp := t_bot_date clock |} in
  let st' := handleSend clock sendMessageStream st in
  length (messages st') = length (messages st) + 2
  /\ (exists earlier,
         messages st' = earlier ++ [reply (deltas_text chunks)]
         /\ Forall2 (kept_by botMsgId) (messages st ++ [userMsg]) earlier)
  /\ (forall arrived pending,
         chunks = arrived ++ pending ->
         deltas_text chunks = deltas_text arrived +:+ deltas_text pending
         /\ exists earlier,
              snd (stream_loop botMsgId arrived
                     ("", (messages st ++ [userMsg]) ++ [reply ""]))
              = earlier ++ [reply (deltas_text arrived)]
              /\ length earlier = length (messages st) + 1).
Proof.
  intros Hs Hin Hstream botMsgId userMsg reply st'.
  assert (Hst' : messages st'
                 = snd (stream_loop botMsgId chunks
                          ("", (messages st ++ [userMsg]) ++ [reply ""]))).
  { unfold st', handleSend. rewrite Hs.
    destruct (String.eqb_spec (trim (input st)) ""); [contradiction|].
    cbn [msg_text]. rewrite Hstream.
    fold botMsgId. fold userMsg. fold (reply "").
    now destruct (stream_loop _ _ _). }
  assert (Hloop : forall part,
            snd (stream_loop botMsgId part
                   ("", (messages st ++ [userMsg]) ++ [reply ""]))
            = snd (stream_loop botMsgId part ("", messages st ++ [userMsg]))
              ++ [reply (deltas_text part)]).
  { intros part. now rewrite stream_loop_placeholder by reflexivity. }
  assert (Hkept : forall part,
            Forall2 (kept_by botMsgId) (messages st ++ [userMsg])
              (snd (stream_loop botMsgId part ("", messages st ++ [userMsg])))).
  { intros part. apply stream_loop_kept, kept_by_refl. }
  repeat split.
  - rewrite Hst', Hloop, length_app, <- (Forall2_length (Hkept chunks)), length_app.
    cbn [length]. lia.
  - eexists. split; [rewrite Hst'; apply Hloop | apply Hkept].
  - subst chunks. apply deltas_text_app.
  - eexists. split; [apply Hloop|].
    rewrite <- (Forall2_length (Hkept arrived)), length_app. reflexivity.
Qed.

Lemma handleSend_streams_one_reply_witness :
  messages (handleSend sample_clock hi_there hello_state)
  = [ greeting None 1762123400000;
      {| msg_id := "1762123456789"; msg_role := user; msg_text := "hello";
         msg_timestamp := 1762123456789 |};
      {| msg_id := "1762123457201"; msg_role := model; msg_text := "Hi there";
         msg_timestamp := 1762123457200 |} ]
  /\ length (messages (handleSend sample_clock hi_there hello_state))
     = length (messages hello_state) + 2.
Proof.
  split; [vm_compute; reflexivity|].
  refine (proj1 (handleSend_streams_one_reply sample_clock hi_there hello_state
                   sample_chat [Some "Hi"; Some " there"] eq_refl _ eq_refl)).
  intros H. vm_compute in H. discriminate H.
Defined.

(** C9.  When a session is created, a greeting is made only if the list of
    messages is empty at that moment, and it then becomes the whole list.
    So two sessions created one after the other for a chat in which nothing
    was ever sent leave exactly one greeting, the first. *)
Theorem greeting_only_once env key date1 date2 report1 history1 report2 history2 st :
  API_KEY env = Some key -> key <> "" ->
  (messages st <> [] ->
   messages (sessionEffect env date1 report1 history1 st) = messages st)
  /\ (messages st = [] ->
      messages (sessionEffect env date1 report1 history1 st)
      = [greeting report1 date1])
  /\ (let st1 := sessionEffect env date1 report1 history1 initialChat in
      let st2 := sessionEffect env date2 report2 history2 st1 in
      messages st2 = [greeting report1 date1]
      /\ greetings (messages st2) = 1
      /\ exists chat,
           createChatSession env (Some (contextString report2 history2)) = Ok chat
           /\ chatSession st2 = Some chat).
Proof.
  intros Hkey Hne.
  assert (Hs : forall ctx, exists chat, createChatSession env ctx = Ok chat).
  { intros ctx. unfold createChatSession. rewrite (getAiClient_ok env key Hkey Hne).
    eexists. reflexivity. }
  assert (H1 : forall d r h s, messages s <> [] ->
                 messages (sessionEffect env d r h s) = messages s).
  { intros d r h s Hm. unfold sessionEffect.
    destruct (Hs (Some (contextString r h))) as (chat & ->).
    destruct (messages s) eqn:E; [contradiction | reflexivity]. }
  assert (H2 : forall d r h s, messages s = [] ->
                 messages (sessionEffect env d r h s) = [greeting r d]).
  { intros d r h s Hm. unfold sessionEffect.
    destruct (Hs (Some (contextString r h))) as (chat & ->).
    now rewrite Hm. }
  split; [apply H1|]. split; [apply H2|]. cbv zeta.
  assert (E : messages (sessionEffect env date2 report2 history2
                          (sessionEffect env date1 report1 history1 initialChat))
              = [greeting report1 date1]).
  { rewrite H1; rewrite H2 by reflexivity; [reflexivity | discriminate]. }
  split; [exact E|]. split; [now rewrite E|].
  destruct (Hs (Some (contextString report2 history2))) as (chat & Hc).
  exists chat. split; [exact Hc|].
  unfold sessionEffect at 1. rewrite Hc.
  destruct (messages (sessionEffect env date1 report1 history1 initialChat));
    reflexivity.
Qed.

Lemma greeting_only_once_witness :
  let env := env_with (Some "key") (Throw "unused") in
  let st2 := sessionEffect env 1762123500000
               (Some (sample_report "id-1" "First analysis"))
               [sample_report "id-1" "First analysis"]
               (sessionEffect env 1762123400000 None [] initialChat) in
  messages st2 = [greeting None 1762123400000]
  /\ greetings (messages st2) = 1.
Proof.
  cbv zeta.
  pose proof (greeting_only_once (env_with (Some "key") (Throw "unused")) "key"
                1762123400000 1762123500000 None []
                (Some (sample_report "id-1" "First analysis"))
                [sample_report "id-1" "First analysis"]
                initialChat eq_refl ltac:(discriminate)) as (_ & _ & H).
  cbv zeta in H. destruct H as (H1 & H2 & _). split; [exact H1 | exact H2].
Defined.

(** * Further properties of the code *)

(** ** The generator *)

(** X1.  With a key configured, every call of [generatePoliticalReport]
    reports the stages in order and sends exactly one request: researching,
    analyzing, the request, then formatting if and only if the model
    answered, then one line on the console if and only if the call
    throws. *)
Theorem generate_event_trace env topic historyContext key :
  API_KEY env = Some key -> key <> "" ->
  let request := make_request env topic historyContext in
  let run := generatePoliticalReport env topic historyContext in
  fst run
  = [Progress researching; Progress analyzing; ModelRequest request]
    ++ match generateContent env request with
       | Ok _ => [Progress formatting]
       | Throw _ => []
       end
    ++ match snd run with
       | Ok _ => []
       | Throw _ => [ConsoleError]
       end
  /\ count_requests (fst run) = 1.
Proof.
  intros Hkey Hne. cbv zeta. unfold generatePoliticalReport, try_generate.
  rewrite (getAiClient_ok env key Hkey Hne). cbv zeta.
  destruct (generateContent env _) as [response|m]; [|split; reflexivity].
  destruct (text response) as [t|]; [|split; reflexivity].
  destruct (String.eqb t ""); [split; reflexivity|].
  destruct (JSON_parse (clean t)); split; reflexivity.
Qed.

Lemma generate_event_trace_witness :
  fst (generatePoliticalReport (env_with (Some "key") (answer "not json" None))
         "Caste census impact" [])
  = [Progress researching; Progress analyzing;
     ModelRequest (make_request (env_with (Some "key") (answer "not json" None))
                     "Caste census impact" []);
     Progress formatting; ConsoleError]
  /\ count_requests
       (fst (generatePoliticalReport
               (env_with (Some "key") (answer "not json" None))
               "Caste census impact" [])) = 1.
Proof.
  refine (generate_event_trace (env_with (Some "key") (answer "not json" None))
            "Caste census impact" [] "key" eq_refl _).
  discriminate.
Defined.

(** X2.  [generatePoliticalReport] returns a report exactly when a
    non-empty key is configured, the model answers, the answer has a
    non-empty text and that text, cleaned, is JSON. *)
Theorem generate_succeeds_exactly_when env topic historyContext :
  (exists report,
      snd (generatePoliticalReport env topic historyContext) = Ok report)
  <-> (exists key, API_KEY env = Some key /\ key <> "")
      /\ ~ bad_outcome (generateContent env (make_request env topic historyContext)).
Proof.
  split.
  - intros [report H]. split.
    + unfold generatePoliticalReport, getAiClient in H.
      destruct (API_KEY env) as [key|]; [|discriminate H].
      exists key. split; [reflexivity|]. intros ->. discriminate H.
    + destruct (generate_Ok _ _ _ _ H) as (response & t & data & Hr & Ht & Hne & Hp & _).
      rewrite Hr. intros Hbad. inversion Hbad; subst; congruence.
  - intros [(key & Hkey & Hne) Hgood].
    unfold generatePoliticalReport, try_generate.
    rewrite (getAiClient_ok env key Hkey Hne). cbv zeta.
    destruct (generateContent env _) as [response|m];
      [|destruct Hgood; constructor].
    destruct (text response) as [t|] eqn:Et;
      [|destruct Hgood; now apply no_text].
    destruct (String.eqb_spec t "") as [->|Hne'];
      [destruct Hgood; now apply empty_text|].
    destruct (JSON_parse (clean t)) eqn:Ep;
      [|destruct Hgood; now apply (not_json _ t)].
    eexists. reflexivity.
Qed.

(** X3.  Whatever the model answered, the report returned is an object
    with one property per name, whose [id] is the fresh UUID and whose
    [createdAt] is the clock of the generator: an [id] or [createdAt] that
    the answer brings is overwritten, and an answer that is no object (a
    number, a string, an array) still yields an object. *)
Theorem report_identity_is_the_generators env topic historyContext report :
  snd (generatePoliticalReport env topic historyContext) = Ok report ->
  prop "id" report = Some (JStr (randomUUID env))
  /\ prop "createdAt" report = Some (JNum (number_of_Z (now env)))
  /\ exists fields, report = JObj fields /\ NoDup (map fst fields).
Proof.
  intros H. pose proof (generate_well_formed _ _ _ _ H) as Hwf.
  destruct (generate_Ok _ _ _ _ H) as (response & t & data & _ & _ & _ & _ & ->).
  unfold make_report in *. cbn [prop]. rewrite !obj_get_set. cbn.
  repeat split. eexists. split; [reflexivity|].
  apply well_formed_obj in Hwf. apply Hwf.
Qed.

Lemma report_identity_is_the_generators_witness :
  exists report,
    snd (generatePoliticalReport (env_with (Some "key") (answer forged_payload None))
           "Seats" []) = Ok report
    /\ prop "title" report = Some (JStr "Seats")
    /\ prop "id" report = Some (JStr "3f0c2a9e-5b1d-4c7a-9e2f-6d8b1a4c7e90")
    /\ prop "createdAt" report = Some (JNum (number_of_Z 1762123456789)).
Proof.
  eexists. split; [vm_compute; reflexivity|]. split; [reflexivity|].
  pose proof (report_identity_is_the_generators
                (env_with (Some "key") (answer forged_payload None)) "Seats" [] _
                eq_refl) as (Hid & Hat & _).
  split; [exact Hid | exact Hat].
Defined.

(** X4.  The cleaned text of an answer holds no code fence: no three
    backquotes in a row remain anywhere in it, inside a JSON string as
    little as around the object. *)
Theorem clean_leaves_no_fence responseText :
  has_fence (clean responseText) = false.
Proof.
  destruct (has_fence (clean responseText)) eqn:E; [|reflexivity].
  unfold clean in E. apply has_fence_trim in E.
  now rewrite replace_all_no_fence in E.
Qed.

(** X5.  An answer without any backquote is only trimmed; an answer that
    wraps its text in a [```json] block, possibly after some words, is
    freed of the two fences and then trimmed. *)
Theorem clean_plain_and_fenced before body :
  no_backquote before = true -> no_backquote body = true ->
  clean body = trim body
  /\ clean (before +:+ "```json" +:+ body +:+ "```") = trim (before +:+ body).
Proof.
  intros Ha Hb. unfold clean. split.
  - rewrite (replace_all_plain "``json" body) by assumption.
    now rewrite (replace_all_plain "``" body) by assumption.
  - rewrite (replace_all_plain_app _ before) by assumption.
    rewrite (replace_all_match "`" "``json").
    rewrite (replace_all_plain_app _ body) by assumption.
    change (replace_all "```json" "" "```") with "```".
    rewrite (replace_all_plain_app _ before) by assumption.
    rewrite (replace_all_plain_app _ body) by assumption.
    change (replace_all "```" "" "```") with "".
    now rewrite app_nil_r_s.
Qed.

Lemma clean_plain_and_fenced_witness :
  clean " {} " = "{}"
  /\ clean ("Here is the report: " +:+ "```json" +:+ "
{}
" +:+ "```") = "Here is the report: 
{}".
Proof.
  exact (clean_plain_and_fenced "Here is the report: " "
{}
" eq_refl eq_refl).
Defined.

(** ** Grounding sources *)

(** X6.  The de-duplicated sources come in the order in which their uris
    first appear among the extracted ones (while the entry shown for a uri
    is the last one extracted with it). *)
Theorem uniqueSources_order sources :
  map gs_uri (uniqueSources sources) = first_occurrences (map gs_uri sources).
Proof.
  rewrite uniqueSources_uris, Map_of_key_list. unfold source_entries.
  now rewrite map_map.
Qed.

(** X7.  Sources whose uris are all different are returned as they are:
    nothing is dropped and nothing moves. *)
Theorem uniqueSources_keeps_distinct sources :
  NoDup (map gs_uri sources) -> uniqueSources sources = sources.
Proof.
  intros H. unfold uniqueSources, Map_values, source_entries.
  rewrite Map_of_NoDup by now rewrite map_map.
  rewrite map_map. cbn [snd]. apply map_id.
Qed.

Lemma uniqueSources_keeps_distinct_witness :
  uniqueSources [ {| gs_title := "Election Commission"; gs_uri := "https://eci.gov.in" |};
                  {| gs_title := "Census"; gs_uri := "https://censusindia.gov.in" |} ]
  = [ {| gs_title := "Election Commission"; gs_uri := "https://eci.gov.in" |};
      {| gs_title := "Census"; gs_uri := "https://censusindia.gov.in" |} ].
Proof.
  apply (uniqueSources_keeps_distinct
           [ {| gs_title := "Election Commission"; gs_uri := "https://eci.gov.in" |};
             {| gs_title := "Census"; gs_uri := "https://censusindia.gov.in" |} ]).
  repeat constructor; cbn; intuition discriminate.
Defined.

(** ** The history *)

(** X8.  After a deletion no report with the given id is left in the
    history, and deleting the same id again changes nothing any more,
    neither in the state nor in the storage. *)
Theorem delete_is_complete_and_idempotent id st st' :
  deleteFromHistory id st = Ok st' ->
  (exists kept,
      history st' = JArr kept
      /\ Forall (fun r => prop "id" r <> Some (JStr id)) kept)
  /\ deleteFromHistory id st' = Ok st'.
Proof.
  intros H. destruct (deleteFromHistory_Ok _ _ _ H) as (l & El & Hl & ->).
  split.
  - eexists. split; [reflexivity|]. apply Forall_forall. intros r Hr.
    apply filter_In in Hr. now apply id_differs_true.
  - unfold deleteFromHistory. cbn [setHistory history].
    rewrite filter_history_total by now apply Forall_filter.
    rewrite filter_idem. f_equal. apply setHistory_twice.
Qed.

Lemma delete_is_complete_and_idempotent_witness :
  exists st',
    deleteFromHistory "id-1" shelf = Ok st'
    /\ history st' = JArr [r2]
    /\ deleteFromHistory "id-1" st' = Ok st'.
Proof.
  exists (setHistory (JArr [r2]) shelf).
  split; [reflexivity|]. split; [reflexivity|].
  exact (proj2 (delete_is_complete_and_idempotent "id-1" shelf
                  (setHistory (JArr [r2]) shelf) eq_refl)).
Defined.

(** X9.  Saving a report and then deleting it by its id gives back the
    history there was, in the state and in the storage, when no other
    report bears that id. *)
Theorem save_then_delete_restores newReport id st l :
  history st = JArr l ->
  Forall (fun r => r <> JNull) l ->
  Forall (fun r => prop "id" r <> Some (JStr id)) l ->
  prop "id" newReport = Some (JStr id) ->
  exists st',
    saveToHistory newReport st ≫= deleteFromHistory id = Ok st'
    /\ history st' = history st
    /\ localStorage st' !! HISTORY_KEY = Some (JSON_stringify (history st)).
Proof.
  intros El Hl Hids Hid.
  assert (Hnew : newReport <> JNull) by (intros ->; discriminate Hid).
  assert (Ekept : filter (id_differs id) (newReport :: l) = l).
  { cbn [filter]. unfold id_differs at 1. rewrite Hid, String.eqb_refl.
    cbn [negb]. apply filter_all. revert Hids. apply Forall_impl.
    intros r. apply id_differs_true. }
  unfold saveToHistory. rewrite El.
  cbn [iterate mbind result_bind deleteFromHistory setHistory history].
  rewrite filter_history_total by now constructor.
  rewrite Ekept. eexists. split; [reflexivity|].
  cbn [setHistory history localStorage]. split; [reflexivity|].
  apply lookup_insert_eq.
Qed.

Lemma save_then_delete_restores_witness :
  exists st',
    saveToHistory r1 {| history := JArr [r2]; localStorage := ∅ |}
      ≫= deleteFromHistory "id-1" = Ok st'
    /\ history st' = JArr [r2]
    /\ localStorage st' !! HISTORY_KEY = Some (JSON_stringify (JArr [r2])).
Proof.
  refine (save_then_delete_restores r1 "id-1"
            {| history := JArr [r2]; localStorage := ∅ |} [r2] eq_refl _ _ eq_refl).
  - repeat constructor. discriminate.
  - repeat constructor. discriminate.
Defined.

(** ** Searching *)

(** X10.  A search for a query that is not blank ends in one of two ways.
    It fails: the hero screen is back with the generic error, and history
    and storage are as they were.  Or it shows the report, which it has
    put first in the history and written to the storage. *)
Theorem search_fails_or_files_the_report env q st :
  trim q <> "" ->
  let st' := snd (handleSearch env q st) in
  (render st' = HeroScreen
   /\ searchState st' = failedSearch q
   /\ store st' = store st)
  \/ (exists r l,
         render st' = ReportScreen r
         /\ stage (searchState st') = complete
         /\ history (store st) = JArr l
         /\ history (store st') = JArr (r :: l)
         /\ localStorage (store st') !! HISTORY_KEY
            = Some (JSON_stringify (JArr (r :: l)))).
Proof.
  intros Hq. cbv zeta.
  destruct (handleSearch_cases env q st)
    as [[E _] | [[_ ->] | [_ (r & l & El & _ & ->)]]]; [contradiction| |].
  - left. repeat split.
  - right. exists r, l. repeat split; [exact El|].
    cbn [store setHistory localStorage]. apply lookup_insert_eq.
Qed.

Lemma search_fails_or_files_the_report_witness :
  trim "Seats" <> ""
  /\ exists r,
       render (snd (handleSearch seats_env "Seats" home)) = ReportScreen r
       /\ history (store (snd (handleSearch seats_env "Seats" home)))
          = JArr [r; r2; r1].
Proof.
  assert (Hq : trim "Seats" <> "") by discriminate.
  split; [exact Hq|].
  destruct (search_fails_or_files_the_report seats_env "Seats" home Hq)
    as [(Hhero & _) | (r & l & Hr & _ & El & Eh & _)].
  - discriminate Hhero.
  - exists r. split; [exact Hr|]. injection El as <-. exact Eh.
Defined.

(** X11.  Without a key a search sends nothing to the model and ends on
    the hero screen with the generic error of the application: the
    missing-key message of the service is written nowhere. *)
Theorem search_without_key_shows_generic_error env q st :
  API_KEY env = None \/ API_KEY env = Some "" ->
  trim q <> "" ->
  handleSearch env q st
  = ([ConsoleError],
     {| searchState := failedSearch q; report := None; store := store st |})
  /\ error (failedSearch q) = Some SEARCH_FAILED
  /\ SEARCH_FAILED <> MISSING_KEY.
Proof.
  intros Hkey Hq. split; [|split; [reflexivity | discriminate]].
  unfold handleSearch. destruct (String.eqb_spec (trim q) ""); [contradiction|].
  destruct (historyContext (history (store st))) as [context|]; [|reflexivity].
  assert (Eg : generateWith env q context = ([], Throw MISSING_KEY)).
  { unfold generateWith, generatePoliticalReport, getAiClient.
    destruct (element_texts context); destruct Hkey as [-> | ->]; reflexivity. }
  now rewrite Eg.
Qed.

Lemma search_without_key_shows_generic_error_witness :
  handleSearch (env_with None (Throw "offline")) "Seats" home
  = ([ConsoleError],
     {| searchState := failedSearch "Seats"; report := None; store := shelf |})
  /\ error (failedSearch "Seats") = Some SEARCH_FAILED
  /\ SEARCH_FAILED <> MISSING_KEY.
Proof.
  refine (search_without_key_shows_generic_error (env_with None (Throw "offline"))
            "Seats" home (or_introl eq_refl) _).
  discriminate.
Defined.

(** X12.  A search sends at most one request to the model, and a blank
    query sends none and changes nothing. *)
Theorem search_sends_at_most_one_request env q st :
  count_requests (fst (handleSearch env q st)) <= 1
  /\ (trim q = "" -> handleSearch env q st = ([], st)).
Proof.
  split; [apply handleSearch_requests|].
  intros E. unfold handleSearch. now rewrite E.
Qed.

Lemma search_sends_at_most_one_request_witness :
  count_requests (fst (handleSearch seats_env "  " home)) <= 1
  /\ handleSearch seats_env "  " home = ([], home).
Proof.
  split.
  - exact (proj1 (search_sends_at_most_one_request seats_env "  " home)).
  - exact (proj2 (search_sends_at_most_one_request seats_env "  " home) eq_refl).
Defined.

(** X13.  When the history holds reports as the generator returns them,
    a search is the generator called with the titles of the three newest
    ones: what it returns is shown, put first and stored; when it throws,
    the failure is shown and nothing is stored. *)
Theorem search_with_typed_history env q st reports :
  trim q <> "" ->
  history (store st) = JArr (map Report_js reports) ->
  handleSearch env q st
  = let '(events, outcome) :=
      generatePoliticalReport env q (map rep_title (firstn 3 reports)) in
    match outcome with
    | Ok r =>
        (events,
         {| searchState := {| isSearching := true; stage := complete;
                              query := q; error := None |};
            report := Some r;
            store := setHistory (JArr (r :: map Report_js reports)) (store st) |})
    | Throw _ =>
        (events ++ [ConsoleError],
         {| searchState := failedSearch q; report := None; store := store st |})
    end.
Proof.
  intros Hq El. unfold handleSearch.
  destruct (String.eqb_spec (trim q) ""); [contradiction|].
  rewrite El. unfold historyContext, generateWith.
  rewrite firstn_map, titles_typed, element_texts_strings.
  destruct (generatePoliticalReport env q _) as [events [r|m]]; [|reflexivity].
  unfold saveToHistory. rewrite El. reflexivity.
Qed.

Lemma search_with_typed_history_witness :
  fst (handleSearch seats_env "Seats" home)
  = fst (generatePoliticalReport seats_env "Seats"
           ["Second analysis"; "First analysis"])
  /\ req_userHistoryStr (make_request seats_env "Seats"
                           ["Second analysis"; "First analysis"])
     = "User's recent research history: Second analysis, First analysis. Use this to understand the user's political interests, but focus primarily on the new topic.".
Proof.
  split; [|reflexivity].
  rewrite (search_with_typed_history seats_env "Seats" home
             [sample_report "id-2" "Second analysis";
              sample_report "id-1" "First analysis"]);
    [vm_compute; reflexivity | discriminate | reflexivity].
Defined.

(** X14.  A search looks at the three newest entries of the history
    only: two histories that agree on them lead to the same events, hence
    the same request, and to the same report or failure, whatever the
    older entries are. *)
Theorem search_reads_three_newest_entries env q st1 st2 l1 l2 :
  trim q <> "" ->
  history (store st1) = JArr l1 ->
  history (store st2) = JArr l2 ->
  firstn 3 l1 = firstn 3 l2 ->
  fst (handleSearch env q st1) = fst (handleSearch env q st2)
  /\ report (snd (handleSearch env q st1)) = report (snd (handleSearch env q st2))
  /\ searchState (snd (handleSearch env q st1))
     = searchState (snd (handleSearch env q st2)).
Proof.
  intros Hq E1 E2 E. unfold handleSearch.
  destruct (String.eqb_spec (trim q) ""); [contradiction|].
  rewrite E1, E2. unfold historyContext. rewrite E.
  destruct (titles (firstn 3 l2)) as [context|]; [|now repeat split].
  destruct (generateWith env q context) as [events [r|m]]; [|now repeat split].
  unfold saveToHistory. rewrite E1, E2. now repeat split.
Qed.

Lemma search_reads_three_newest_entries_witness :
  fst (handleSearch seats_env "Seats"
         {| searchState := idleSearch; report := None;
            store := {| history := JArr [r2; r1; r1]; localStorage := ∅ |} |})
  = fst (handleSearch seats_env "Seats"
           {| searchState := idleSearch; report := None;
              store := {| history := JArr [r2; r1; r1; JNull];
                          localStorage := ∅ |} |}).
Proof.
  refine (proj1 (search_reads_three_newest_entries seats_env "Seats"
                   {| searchState := idleSearch; report := None;
                      store := {| history := JArr [r2; r1; r1];
                                  localStorage := ∅ |} |}
                   {| searchState := idleSearch; report := None;
                      store := {| history := JArr [r2; r1; r1; JNull];
                                  localStorage := ∅ |} |}
                   [r2; r1; r1] [r2; r1; r1; JNull] _ eq_refl eq_refl eq_refl)).
  discriminate.
Defined.

(** ** What holds whatever the user does *)

(** X16.  In every state the user can reach, the storage holds the
    history that is on screen as far as JSON can hold it: reloading the
    page shows the same list, except that a number that is not finite comes
    back as [null] and [-0] as [0].  When the history holds no such number,
    the reload shows the very same list. *)
Theorem reload_shows_the_same_history storage st :
  reachable storage st ->
  (loadAll (localStorage (store st)) = history (store st)
   \/ loadAll (localStorage (store st)) = as_stored (history (store st)))
  /\ (storable (history (store st)) ->
      loadAll (localStorage (store st)) = history (store st)).
Proof.
  intros H. destruct (reachable_invariant storage st H) as (_ & Hload & _).
  split; [exact Hload|]. intros Hs. destruct Hload as [E|E]; [exact E|].
  now rewrite E, Hs.
Qed.

Lemma reload_shows_the_same_history_witness :
  loadAll (localStorage (store (snd (handleSearch seats_env "Seats" (mount ∅)))))
  = history (store (snd (handleSearch seats_env "Seats" (mount ∅)))).
Proof.
  apply (reload_shows_the_same_history ∅).
  - apply reach_search; [apply reach_mount | reflexivity].
  - apply storableb_sound. vm_compute. reflexivity.
Defined.

(** X17.  The application never rests on the loading screen: once a
    search has ended, with a report or with a failure, the report or the
    hero screen is shown. *)
Theorem never_stuck_on_the_loading_screen storage st :
  reachable storage st -> render st <> LoadingScreen.
Proof.
  intros H. destruct (reachable_invariant storage st H) as (_ & _ & Hidle & _).
  unfold render. destruct (report st); [discriminate|].
  now rewrite Hidle.
Qed.

Lemma never_stuck_on_the_loading_screen_witness :
  render (snd (handleSearch (env_with (Some "key") (Throw "offline")) "Seats"
                 (mount ∅)))
  <> LoadingScreen.
Proof.
  apply (never_stuck_on_the_loading_screen ∅).
  apply reach_search; [apply reach_mount | reflexivity].
Defined.

(** X18.  A report on screen is a report of the history: it was either
    just generated, and then filed first, or opened from the list. *)
Theorem shown_report_is_in_the_history storage st r :
  reachable storage st ->
  render st = ReportScreen r ->
  exists l, history (store st) = JArr l /\ In r l.
Proof.
  intros H Hr. destruct (reachable_invariant storage st H) as (_ & _ & _ & Hin).
  apply Hin. unfold render in Hr. destruct (report st) as [r'|].
  - now injection Hr as ->.
  - now destruct (isSearching (searchState st)).
Qed.

Lemma shown_report_is_in_the_history_witness :
  exists r l,
    render (snd (handleSearch seats_env "Seats" (mount ∅))) = ReportScreen r
    /\ history (store (snd (handleSearch seats_env "Seats" (mount ∅)))) = JArr l
    /\ In r l.
Proof.
  eexists.
  assert (Hreach : reachable ∅ (snd (handleSearch seats_env "Seats" (mount ∅))))
    by (apply reach_search; [apply reach_mount | reflexivity]).
  destruct (shown_report_is_in_the_history ∅ _ _ Hreach eq_refl) as (l & El & Hin).
  exists l. split; [reflexivity|]. split; [exact El | exact Hin].
Defined.

(** X19.  When the stored text is JSON but no array (an object, a number,
    a string), the history is that value for good: every search fails
    before any request, nothing can be opened or deleted, and the state and
    the storage stay as they were found. *)
Theorem history_that_is_no_list_blocks_the_app storage saved v st :
  storage !! HISTORY_KEY = Some saved ->
  JSON_parse saved = Some v ->
  (forall l, v <> JArr l) ->
  reachable storage st ->
  store st = {| history := v; localStorage := storage |}
  /\ report st = None
  /\ forall env q, count_requests (fst (handleSearch env q st)) = 0.
Proof.
  intros Hs Hp Hv Hreach.
  assert (Hne : saved <> "") by (intros ->; discriminate Hp).
  assert (Hinv : store st = {| history := v; localStorage := storage |}
                 /\ report st = None).
  { induction Hreach as [| env q st Hst IH Hhero | item l st Hst IH Hhero Hl Hin
                        | id st Hst IH Hhero | r st Hst IH Hrep].
    - cbn [mount store report]. split; [|reflexivity].
      unfold loadHistory. cbn [initial localStorage]. rewrite Hs.
      destruct (String.eqb_spec saved ""); [contradiction|]. now rewrite Hp.
    - destruct IH as [IH1 IH2].
      destruct (handleSearch_cases env q st)
        as [[_ ->] | [[_ ->] | [_ (r & l & El & _ & _)]]].
      + now split.
      + now split.
      + rewrite IH1 in El. cbn [history] in El. now destruct (Hv l).
    - destruct IH as [IH1 _]. rewrite IH1 in Hl. cbn [history] in Hl.
      now destruct (Hv l).
    - destruct IH as [IH1 IH2]. unfold removeReport.
      destruct (deleteFromHistory id (store st)) as [deleted|] eqn:Ed; [|now split].
      destruct (deleteFromHistory_Ok _ _ _ Ed) as (l & El & _).
      rewrite IH1 in El. cbn [history] in El. now destruct (Hv l).
    - destruct IH as [IH1 _]. now split. }
  destruct Hinv as [Hstore Hrep]. split; [exact Hstore|]. split; [exact Hrep|].
  intros env q. unfold handleSearch.
  destruct (String.eqb (trim q) ""); [reflexivity|].
  rewrite Hstore. cbn [history]. unfold historyContext.
  destruct v; try reflexivity. now destruct (Hv l).
Qed.

Lemma history_that_is_no_list_blocks_the_app_witness :
  let storage : gmap string string := {[ HISTORY_KEY := "{}" ]} in
  let st := snd (handleSearch seats_env "Seats" (mount storage)) in
  store st = {| history := JObj []; localStorage := storage |}
  /\ report st = None
  /\ forall env q, count_requests (fst (handleSearch env q st)) = 0.
Proof.
  cbv zeta.
  assert (H1 : ({[ HISTORY_KEY := "{}" ]} : gmap string string) !! HISTORY_KEY
               = Some "{}") by apply lookup_singleton_eq.
  assert (H2 : JSON_parse "{}" = Some (JObj [])) by reflexivity.
  apply (history_that_is_no_list_blocks_the_app _ "{}" (JObj []) _ H1 H2).
  - discriminate.
  - apply reach_search; [apply reach_mount|].
    unfold render, mount. reflexivity.
Defined.

(** ** The chat *)

(** X20.  When the clock does not run backwards and no earlier message
    bears the id of the reply, a send whose stream completes leaves
    exactly the earlier messages, untouched, followed by the user's
    message and the reply; the input is emptied and the typing mark is
    off. *)
Theorem send_with_fresh_ids_appends_two clock send st session chunks :
  chatSession st = Some session ->
  trim (input st) <> "" ->
  send session (input st) = Stream chunks Completed ->
  (0 <= t_user_id clock <= t_bot_id clock)%Z ->
  Forall (fun m => msg_id m <> Z_to_string (t_bot_id clock + 1)) (messages st) ->
  handleSend clock send st
  = {| messages :=
         messages st
         ++ [ {| msg_id := Z_to_string (t_user_id clock); msg_role := user;
                 msg_text := input st; msg_timestamp := t_user_date clock |};
              {| msg_id := Z_to_string (t_bot_id clock + 1); msg_role := model;
                 msg_text := deltas_text chunks;
                 msg_timestamp := t_bot_date clock |} ];
       input := ""; isTyping := false; chatSession := Some session |}.
Proof.
  intros Hs Hin Hstream Hclock Hfresh. unfold handleSend. rewrite Hs.
  destruct (String.eqb_spec (trim (input st)) ""); [contradiction|].
  cbn [msg_text]. rewrite Hstream.
  set (bot := Z_to_string (t_bot_id clock + 1)) in *.
  set (userMsg := {| msg_id := Z_to_string (t_user_id clock); msg_role := user;
                     msg_text := input st; msg_timestamp := t_user_date clock |}).
  assert (Hfresh' : Forall (fun m => msg_id m <> bot) (messages st ++ [userMsg])).
  { apply Forall_app. split; [exact Hfresh|]. constructor; [|constructor].
    cbn [msg_id userMsg]. unfold bot. intros E.
    apply Z_to_string_injective in E; lia. }
  destruct (stream_loop _ _ _) as [full msgs] eqn:E.
  assert (Em : msgs = snd (stream_loop bot chunks
                             ("", (messages st ++ [userMsg])
                                  ++ [ {| msg_id := bot; msg_role := model;
                                          msg_text := "";
                                          msg_timestamp := t_bot_date clock |} ])))
    by now rewrite E.
  rewrite stream_loop_placeholder in Em by reflexivity.
  rewrite stream_loop_others in Em by assumption. subst msgs.
  rewrite <- app_assoc. reflexivity.
Qed.

Lemma send_with_fresh_ids_appends_two_witness :
  handleSend sample_clock hi_there hello_state
  = {| messages :=
         [ greeting None 1762123400000;
           {| msg_id := "1762123456789"; msg_role := user; msg_text := "hello";
              msg_timestamp := 1762123456789 |};
           {| msg_id := "1762123457201"; msg_role := model;
              msg_text := "Hi there"; msg_timestamp := 1762123457200 |} ];
       input := ""; isTyping := false; chatSession := Some sample_chat |}.
Proof.
  refine (send_with_fresh_ids_appends_two sample_clock hi_there hello_state
            sample_chat [Some "Hi"; Some " there"] eq_refl _ eq_refl _ _).
  - discriminate.
  - cbn; lia.
  - repeat constructor. discriminate.
Defined.

(** X21.  Every send that passes the guard settles: the input is emptied,
    the typing mark is off and the session is the same.  It adds two
    messages, or three when the stream broke off; and whenever the call or
    the stream failed, the last message is the apology. *)
Theorem send_always_settles clock send st session :
  chatSession st = Some session ->
  trim (input st) <> "" ->
  let st' := handleSend clock send st in
  input st' = "" /\ isTyping st' = false /\ chatSession st' = Some session
  /\ match send session (input st) with
     | Stream _ Completed => length (messages st') = length (messages st) + 2
     | SendThrows =>
         length (messages st') = length (messages st) + 2
         /\ exists earlier, messages st' = earlier ++ [errorMessage clock]
     | Stream _ Failed =>
         length (messages st') = length (messages st) + 3
         /\ exists earlier, messages st' = earlier ++ [errorMessage clock]
     end.
Proof.
  intros Hs Hin. cbv zeta. unfold handleSend. rewrite Hs.
  destruct (String.eqb_spec (trim (input st)) ""); [contradiction|].
  cbn [input isTyping chatSession messages msg_text].
  repeat (split; [reflexivity|]).
  destruct (send session (input st)) as [|chunks ending].
  - split; [|eexists; reflexivity]. rewrite !length_app. cbn [length]. lia.
  - set (bot := Z_to_string (t_bot_id clock + 1)).
    set (userMsg := {| msg_id := Z_to_string (t_user_id clock); msg_role := user;
                       msg_text := input st; msg_timestamp := t_user_date clock |}).
    set (placeholder := {| msg_id := bot; msg_role := model; msg_text := "";
                           msg_timestamp := t_bot_date clock |}).
    pose proof (Forall2_length
                  (stream_loop_kept bot chunks "" _ _
                     (kept_by_refl bot ((messages st ++ [userMsg]) ++ [placeholder]))))
      as Hlen.
    destruct (stream_loop bot chunks _) as [full msgs]. cbn [snd] in Hlen.
    rewrite !length_app in Hlen. cbn [length] in Hlen.
    destruct ending.
    + lia.
    + split; [|eexists; reflexivity]. rewrite length_app. cbn [length]. lia.
Qed.

Lemma send_always_settles_witness :
  let st' := handleSend sample_clock hi_then_fails hello_state in
  input st' = "" /\ isTyping st' = false /\ chatSession st' = Some sample_chat
  /\ length (messages st') = length (messages hello_state) + 3
  /\ exists earlier, messages st' = earlier ++ [errorMessage sample_clock].
Proof.
  refine (send_always_settles sample_clock hi_then_fails hello_state sample_chat
            eq_refl _).
  discriminate.
Defined.

(** X22.  Without a key the chat is silent: the effect creates no session
    and greets nobody, and a send then changes nothing, whatever was
    typed. *)
Theorem chat_is_silent_without_key env date currentReport history clock send st :
  API_KEY env = None \/ API_KEY env = Some "" ->
  chatSession st = None ->
  handleSend clock send (sessionEffect env date currentReport history st) = st.
Proof.
  intros Hkey Hs. rewrite sessionEffect_without_key by assumption.
  apply handleSend_guard. now left.
Qed.

Lemma chat_is_silent_without_key_witness :
  handleSend sample_clock hi_there
    (sessionEffect (env_with None (Throw "offline")) 1762123400000 None []
       dead_chat)
  = dead_chat.
Proof.
  exact (chat_is_silent_without_key (env_with None (Throw "offline"))
           1762123400000 None [] sample_clock hi_there dead_chat
           (or_introl eq_refl) eq_refl).
Defined.

(** ** Charts *)


